(** * ct_hmm: the EM learner of a continuous-time hidden Markov model

    A shallow embedding of [src/ct_hmm.py] (classes [CT_HMM_LEARNER] and
    [Patient]) and the properties of its specification.

    Conventions of the embedding.
    - Numbers.  The Python code computes with IEEE binary64 values.  The
      embedding is written once over an interface [Numeric] of the scalar
      operations the code uses, and is read at two carriers: [float]
      (Rocq's primitive binary64 numbers: NaN, infinities and signed zeros
      behave as in Python) and [R] (exact arithmetic, for the algebraic
      identities behind the two sufficient-statistics methods).
    - Library calls.  [np.exp], [np.log], [scipy.linalg.expm], [numpy.linalg.eig],
      [numpy.linalg.inv], [scipy.stats] and [scipy.special.logsumexp] are
      not code of this repository: they are the fields of a record
      [NumLib], a parameter of every function that calls them.
    - Effects.  Python exceptions are the [Raise] results of a small
      writer/error monad [M]; its log records [print] calls and every
      [pdb.set_trace()] the code reaches.
    - Arrays.  An ndarray of rank 1 is a list, of rank 2 a list of rows.
    - Dynamic types.  [Nij = 0] and [TauI = 0] start as Python integers and
      become arrays with the first [+=]: this is the type [Stat]. *)

From Stdlib Require Import String Ascii.
From Stdlib Require Import ZArith Bool Arith Lia List.
From Stdlib Require Import Floats Reals Lra.
Import ListNotations.

Set Implicit Arguments.

(** ** Exceptions, log and monad *)

Inductive PyExc : Type :=
| Exception_ (msg : string)      (* raise Exception(msg) *)
| NameError (name : string)      (* name 'x' is not defined *)
| TypeError (what : string)
| AttributeError (attr : string)
| KeyError (dict : string)
| IndexError (what : string).

Inductive Event : Type :=
| Printed (what : string)        (* print(...) *)
| PdbSetTrace (place : string).  (* import pdb; pdb.set_trace() *)

Inductive result (A : Type) : Type :=
| Ok (a : A)
| Raise (e : PyExc).
Arguments Raise {A} e.

(** A computation returns the events it logged and either a value or the
    exception that stopped it. *)
Definition M (A : Type) : Type := (list Event * result A)%type.

Definition ret {A} (a : A) : M A := ([], Ok a).
Definition raise {A} (e : PyExc) : M A := ([], Raise e).
Definition emit (e : Event) : M unit := ([e], Ok tt).
Definition bind {A B} (m : M A) (k : A -> M B) : M B :=
  match m with
  | (log, Ok a) => let '(log', r) := k a in (log ++ log', r)
  | (log, Raise e) => (log, Raise e)
  end.

Declare Scope py_scope.
Delimit Scope py_scope with py.
Notation "x <- m ;; k" := (bind m (fun x => k))
  (at level 61, m at next level, right associativity) : py_scope.
Notation "m ;;; k" := (bind m (fun _ => k))
  (at level 61, right associativity) : py_scope.
Open Scope py_scope.

Definition events {A} (m : M A) : list Event := fst m.
Definition outcome {A} (m : M A) : result A := snd m.

(** [for x in xs: body], threading an accumulator. *)
Fixpoint for_each {A S} (xs : list A) (body : A -> S -> M S) (s : S) : M S :=
  match xs with
  | [] => ret s
  | x :: xs' => s' <- body x s ;; for_each xs' body s'
  end.

(** An attribute that is only set by some method: reading it earlier is an
    [AttributeError]. *)
Definition getattr {A} (name : string) (o : option A) : M A :=
  match o with
  | Some a => ret a
  | None => raise (AttributeError name)
  end.

(** ** Name resolution

    Python resolves a name that a function never assigns in the module's
    globals and then in the builtins; a miss is a [NameError].  The globals
    of the module are its imports and its classes. *)

Definition module_globals : list string :=
  ["np"; "norm"; "multivariate_normal"; "expm"; "logsumexp"; "interp1d";
   "odeint"; "itertools"; "bisect"; "CT_HMM_LEARNER"; "Patient";
   "SSAProb"]%string.

Definition resolve (locals : list string) (x : string) : M unit :=
  if existsb (String.eqb x) (locals ++ module_globals)
  then ret tt else raise (NameError x).

(** ** Scalars *)

Class Numeric (T : Type) : Type := {
  zero : T;
  one : T;
  add : T -> T -> T;
  sub : T -> T -> T;
  mul : T -> T -> T;
  div : T -> T -> T;
  neg : T -> T;
  eqb : T -> T -> bool;          (* Python [==] on floats *)
  ltb : T -> T -> bool;          (* Python [<] *)
  isnan : T -> bool;             (* np.isnan *)
  abs : T -> T;                  (* np.abs *)
  lit_1e_10 : T                  (* the literal 1e-10 *)
}.

Declare Scope num_scope.
Delimit Scope num_scope with num.
Infix "+" := add : num_scope.
Infix "-" := sub : num_scope.
Infix "*" := mul : num_scope.
Infix "/" := div : num_scope.
Notation "- x" := (neg x) : num_scope.
Infix "==" := eqb (at level 70, no associativity) : num_scope.

(** Carriers that have [np.inf]; exact arithmetic has none. *)
Class HasInf (T : Type) : Type := { np_inf : T }.

#[export] Instance float_HasInf : HasInf float := { np_inf := infinity }.

#[export] Instance float_Numeric : Numeric float := {
  zero := 0%float;
  one := 1%float;
  add := PrimFloat.add;
  sub := PrimFloat.sub;
  mul := PrimFloat.mul;
  div := PrimFloat.div;
  neg := PrimFloat.opp;
  eqb := PrimFloat.eqb;
  ltb := PrimFloat.ltb;
  isnan := fun x => negb (PrimFloat.eqb x x);
  abs := PrimFloat.abs;
  lit_1e_10 := 0x1.b7cdfd9d7bdbbp-34%float
}.

Definition Reqb (x y : R) : bool := if Req_dec_T x y then true else false.
Definition Rltb (x y : R) : bool := if Rlt_dec x y then true else false.

#[export] Instance R_Numeric : Numeric R := {
  zero := 0%R;
  one := 1%R;
  add := Rplus;
  sub := Rminus;
  mul := Rmult;
  div := Rdiv;
  neg := Ropp;
  eqb := Reqb;
  ltb := Rltb;
  isnan := fun _ => false;
  abs := Rabs;
  lit_1e_10 := (/ 10 ^ 10)%R
}.

(** ** ndarrays *)

(** In-place update [a[i] = x] (the callers only write inside the array)
    and elementwise combination of two arrays of the same shape. *)
Fixpoint set_nth {A} (i : nat) (x : A) (l : list A) : list A :=
  match l, i with
  | [], _ => []
  | _ :: l', O => x :: l'
  | y :: l', S i' => y :: set_nth i' x l'
  end.

Fixpoint zip_with {A B C} (f : A -> B -> C) (xs : list A) (ys : list B)
  : list C :=
  match xs, ys with
  | x :: xs', y :: ys' => f x y :: zip_with f xs' ys'
  | _, _ => []
  end.

Section Arrays.
Context {T : Type} `{Numeric T}.
Local Open Scope num_scope.

Definition vec : Type := list T.
Definition mat : Type := list (list T).

Definition np_zeros (n : nat) : vec := repeat zero n.
Definition np_ones (n : nat) : vec := repeat one n.
Definition np_zeros2 (r c : nat) : mat := repeat (np_zeros c) r.
Definition np_ones2 (r c : nat) : mat := repeat (np_ones c) r.

(** [a[i]]; the callers only index inside the array. *)
Definition at1 (a : vec) (i : nat) : T := nth i a zero.
Definition row (a : mat) (i : nat) : vec := nth i a [].
Definition at2 (a : mat) (i j : nat) : T := at1 (row a i) j.
Definition col (a : mat) (j : nat) : vec := map (fun r => at1 r j) a.

Definition set1 (a : vec) (i : nat) (x : T) : vec := set_nth i x a.
Definition set2 (a : mat) (i j : nat) (x : T) : mat :=
  set_nth i (set1 (row a i) j x) a.

(** [np.sum] over a vector and over a matrix, left to right. *)
Definition np_sum (a : vec) : T := fold_left add a zero.
Definition np_sum2 (a : mat) : T := np_sum (concat a).

Definition vadd : vec -> vec -> vec := zip_with add.
Definition vmul : vec -> vec -> vec := zip_with mul.
Definition vdiv_scalar (a : vec) (c : T) : vec := map (fun x => x / c) a.
Definition madd : mat -> mat -> mat := zip_with vadd.
Definition np_multiply : mat -> mat -> mat := zip_with vmul.
Definition mdiv : mat -> mat -> mat := zip_with (zip_with div).
Definition mdiv_scalar (a : mat) (c : T) : mat :=
  map (fun r => vdiv_scalar r c) a.
Definition mscale (c : T) (a : mat) : mat := map (map (mul c)) a.
Definition mscale_r (a : mat) (c : T) : mat :=
  map (map (fun x => x * c)) a.

Definition np_outer (u v : vec) : mat := map (fun x => map (mul x) v) u.
Definition vdot (u v : vec) : T := np_sum (vmul u v).

(** The number of columns of a matrix. *)
Definition ncols (a : mat) : nat := length (row a 0).
(** [np.transpose] of a matrix. *)
Definition np_transpose (a : mat) : mat :=
  map (col a) (seq 0 (ncols a)).
(** [np.dot] of two matrices; of a matrix and a vector. *)
Definition np_dot (a b : mat) : mat :=
  map (fun r => map (fun j => vdot r (col b j)) (seq 0 (ncols b))) a.
Definition np_dot_mv (a : mat) (v : vec) : vec := map (fun r => vdot r v) a.

(** [np.diag] of a vector. *)
Definition np_diag (d : vec) : mat :=
  map (fun i => map (fun j => if Nat.eqb i j then at1 d i else zero)
                    (seq 0 (length d)))
      (seq 0 (length d)).

Definition any_isnan (a : vec) : bool := existsb isnan a.
Definition any_isnan2 (a : mat) : bool := existsb any_isnan a.
End Arrays.

(** ** Python values that change type

    [Nij = 0] / [TauI = 0] followed by [+=] of arrays. *)

Inductive Stat (A : Type) : Type :=
| SInt (z : Z)        (* still the Python integer *)
| SArr (a : A).       (* an ndarray *)
Arguments SInt {A} z.

(** The emission means: the constructor takes one list of means per
    marker; the M-step stores one flat list of numbers. *)
Inductive Params (T : Type) : Type :=
| PerMarker (ls : list (list T))
| Flat (ls : list T).

(** ** Observations, dictionaries and the numerical library *)

(** An observation value: a number (one marker) or a tuple of numbers. *)
Inductive Obs (T : Type) : Type :=
| ObsScalar (x : T)
| ObsTuple (xs : list T).

(** A Python [dict] as an association list in insertion order; [d[k] = v]
    overwrites the entry of an equal key. *)
Section Dict.
Context {K V : Type} (keq : K -> K -> bool).

Fixpoint dict_get (d : list (K * V)) (k : K) : option V :=
  match d with
  | [] => None
  | (k', v) :: d' => if keq k k' then Some v else dict_get d' k
  end.

Fixpoint dict_set (d : list (K * V)) (k : K) (v : V) : list (K * V) :=
  match d with
  | [] => [(k, v)]
  | (k', v') :: d' =>
      if keq k k' then (k', v) :: d' else (k', v') :: dict_set d' k v
  end.

Definition dict_lookup (name : string) (d : list (K * V)) (k : K) : M V :=
  match dict_get d k with
  | Some v => ret v
  | None => raise (KeyError name)
  end.
End Dict.

(** The functions of numpy and scipy that the code calls. *)
Record NumLib (T : Type) : Type := {
  np_exp : T -> T;                              (* np.exp *)
  np_log : T -> T;                              (* np.log *)
  expm : list (list T) -> list (list T);        (* scipy.linalg.expm *)
  eig : list (list T) -> list T * list (list T);(* np.linalg.eig: (D, U) *)
  inv : list (list T) -> list (list T);         (* np.linalg.inv *)
  logsumexp_rows : list (list T) -> list T;     (* logsumexp(a, 1) *)
  norm_pdf : Obs T -> T -> T -> T;              (* norm.pdf(x, mu, sigma) *)
  mvn_pdf : Obs T -> list T -> list T -> T;     (* multivariate_normal.pdf *)
  random_rand : nat -> nat -> list (list T)     (* seed(65); rand(r, c) *)
}.

(** [itertools.product] of the given lists: tuples in lexicographic
    order. *)
Fixpoint itertools_product {A} (ls : list (list A)) : list (list A) :=
  match ls with
  | [] => [[]]
  | l :: ls' =>
      flat_map (fun x => map (cons x) (itertools_product ls')) l
  end.

(** [enumerate]. *)
Definition enumerate {A} (l : list A) : list (nat * A) :=
  combine (seq 0 (length l)) l.

(** ** The model state *)

Section Model.
Context {T : Type} `{Numeric T} (lib : NumLib T).
Local Open Scope num_scope.

Definition obs_eqb (a b : Obs T) : bool :=
  match a, b with
  | ObsScalar x, ObsScalar y => x == y
  | ObsTuple xs, ObsTuple ys =>
      Nat.eqb (length xs) (length ys) && forallb (fun b => b) (zip_with eqb xs ys)
  | _, _ => false
  end.

(** A [Patient] object.  [__init__] sets [end_time] and [censored]; the
    other attributes are set by the caller or by the methods. *)
Record Patient : Type := mkPatient {
  end_time : T;
  censored : bool;
  observation_times : option (list T);
  num_obs : option nat;
  O : option (list (Obs T));
  emissions : option (list (Obs T * list T));
  Alpha : option (list (list T));
  C : option (list T);
  Beta : option (list (list T))
}.

(** [Patient.__init__(self, end_time=10, censored=False)]. *)
Definition Patient_init (end_time : T) (censored : bool) : Patient :=
  {| end_time := end_time;
     censored := false;
     observation_times := None; num_obs := None; O := None;
     emissions := None; Alpha := None; C := None; Beta := None |}.

(** A [CT_HMM_LEARNER] object. *)
Record Learner : Type := mkLearner {
  pi0 : list T;
  ls_mu : Params T;
  num_state : nat;
  ls_sigma : Params T;
  Q_struct : list (list T);
  Q : list (list T);
  Q_orig : list (list T);
  patients : list Patient;
  method : string;
  bound : bool;
  time_intervals : option (list T);
  expm_Q_t : option (list (T * list (list T)));
  U : option (list (list T));
  D : option (list (list T));
  V : option (list (list T));
  TauI_end_state : option (list ((T * nat) * list (list T)));
  Nij_end_state : option (list ((T * nat * nat) * Stat (list (list T))))
}.

(** *** [create_Q_struct] *)

(** [temp]: the list [0 .. len(ls_mu[i]) - 1] of the levels of each
    marker. *)
Definition marker_levels (ls_mu : list (list T)) : list (list nat) :=
  map (fun m => seq 0 (length m)) ls_mu.

Definition combo_eqb (a b : list nat) : bool :=
  if list_eq_dec Nat.eq_dec a b then true else false.

(** The inner loop of "forward_step": no level goes down, none goes up
    by more than one. *)
Definition within_step (ci cj : list nat) : bool :=
  fold_left
    (fun ok idx =>
       let d := (Z.of_nat (nth idx cj 0%nat) - Z.of_nat (nth idx ci 0%nat))%Z
       in
       if (d <? 0)%Z || (1 <? d)%Z then false else ok)
    (seq 0 (length cj)) true.

(** The inner loop of "forward_any": no level goes down. *)
Definition forward (ci cj : list nat) : bool :=
  fold_left
    (fun ok idx =>
       let d := (Z.of_nat (nth idx cj 0%nat) - Z.of_nat (nth idx ci 0%nat))%Z
       in
       if (d <? 0)%Z then false else ok)
    (seq 0 (length cj)) true.

(** The two nested loops over the enumerated level tuples. *)
Definition fill_by_combos (allowed : list nat -> list nat -> bool)
    (combos : list (list nat)) (Q_struct : mat) : mat :=
  fold_left
    (fun Qs '(i, ci) =>
       fold_left
         (fun Qs '(j, cj) =>
            if negb (combo_eqb ci cj) && allowed ci cj
            then set2 Qs i j one else Qs)
         (enumerate combos) Qs)
    (enumerate combos) Q_struct.

Definition create_Q_struct (self_ls_mu : list (list T)) (struct : string)
    (numstates : nat) : M mat :=
  let Q_struct := np_zeros2 numstates numstates in
  if String.eqb struct "fc" then
    ret (fold_left
           (fun Qs i =>
              fold_left
                (fun Qs j => if negb (Nat.eqb i j) then set2 Qs i j one
                             else Qs)
                (seq 0 numstates) Qs)
           (seq 0 numstates) Q_struct)
  else if String.eqb struct "forward_step" then
    ret (fill_by_combos within_step
           (itertools_product (marker_levels self_ls_mu)) Q_struct)
  else if String.eqb struct "forward_any" then
    ret (fill_by_combos forward
           (itertools_product (marker_levels self_ls_mu)) Q_struct)
  else
    raise (Exception_
             "Unknown method, must be fc, forward_step, or forward_any").

(** *** [CT_HMM_LEARNER.__init__] *)

(** [self.Q[i,i] = -np.sum(self.Q[i,:])] for every state. *)
Definition set_diagonal (n : nat) (Q : mat) : mat :=
  fold_left (fun Q i => set2 Q i i (- np_sum (row Q i))) (seq 0 n) Q.

(** [self.Q[self.Q_struct == 0] = 0]. *)
Definition mask_zero (Q_struct Q : mat) : mat :=
  zip_with (zip_with (fun s q => if s == zero then zero else q)) Q_struct Q.

Definition CT_HMM_LEARNER_init (Q : option mat) (pi0 : vec)
    (ls_mu ls_sigma : list (list T)) (patients : list Patient)
    (structure method : string) (bound : bool) : M Learner :=
  match ls_mu with
  | [] => raise (IndexError "ls_mu[0]")
  | mu0 :: mus =>
      let num_state :=
        if Nat.eqb (length ls_mu) 1 then length mu0
        else fold_left (fun n m => (n * length m)%nat) mus (length mu0) in
      Q_struct <- create_Q_struct ls_mu structure num_state ;;
      emit (Printed "Q_struct") ;;;
      let Q' :=
        match Q with
        | None =>
            set_diagonal num_state
              (mask_zero Q_struct
                 (random_rand lib (length Q_struct)
                    (length (row Q_struct 0))))
        | Some Q => Q
        end in
      ret {| pi0 := pi0; ls_mu := PerMarker ls_mu; num_state := num_state;
             ls_sigma := PerMarker ls_sigma; Q_struct := Q_struct;
             Q := Q'; Q_orig := Q'; patients := patients;
             method := method; bound := bound;
             time_intervals := None; expm_Q_t := None;
             U := None; D := None; V := None;
             TauI_end_state := None; Nij_end_state := None |}
  end.
End Model.

(** ** The E-step: kernels, eigendecomposition, forward and backward *)

Section EStep.
Context {T : Type} `{Numeric T} (lib : NumLib T).
Local Open Scope num_scope.

Local Abbreviation Patient := (@Patient T).
Local Abbreviation Learner := (@Learner T).

(** Attribute assignment. *)
Definition set_patient_tables (p : Patient)
    (em : option (list (Obs T * list T)))
    (al : option mat) (c : option vec) (be : option mat) : Patient :=
  {| end_time := end_time p; censored := censored p;
     observation_times := observation_times p; num_obs := num_obs p;
     O := O p; emissions := em; Alpha := al; C := c; Beta := be |}.
Definition set_emissions (p : Patient) em : Patient :=
  set_patient_tables p (Some em) (Alpha p) (C p) (Beta p).
Definition set_Alpha_C (p : Patient) al c : Patient :=
  set_patient_tables p (emissions p) (Some al) (Some c) (Beta p).
Definition set_Beta (p : Patient) be : Patient :=
  set_patient_tables p (emissions p) (Alpha p) (C p) (Some be).

Definition set_caches (s : Learner)
    (ti : option vec) (ex : option (list (T * mat)))
    (u d v : option mat)
    (te : option (list ((T * nat) * mat)))
    (ne : option (list ((T * nat * nat) * Stat mat))) : Learner :=
  {| pi0 := pi0 s; ls_mu := ls_mu s; num_state := num_state s;
     ls_sigma := ls_sigma s; Q_struct := Q_struct s; Q := Q s;
     Q_orig := Q_orig s; patients := patients s; method := method s;
     bound := bound s; time_intervals := ti; expm_Q_t := ex;
     U := u; D := d; V := v; TauI_end_state := te; Nij_end_state := ne |}.
Definition set_patients (s : Learner) (ps : list Patient) : Learner :=
  {| pi0 := pi0 s; ls_mu := ls_mu s; num_state := num_state s;
     ls_sigma := ls_sigma s; Q_struct := Q_struct s; Q := Q s;
     Q_orig := Q_orig s; patients := ps; method := method s;
     bound := bound s; time_intervals := time_intervals s;
     expm_Q_t := expm_Q_t s; U := U s; D := D s; V := V s;
     TauI_end_state := TauI_end_state s;
     Nij_end_state := Nij_end_state s |}.
Definition set_params (s : Learner) (q : mat) (p0 : vec)
    (mu sigma : Params T) : Learner :=
  {| pi0 := p0; ls_mu := mu; num_state := num_state s;
     ls_sigma := sigma; Q_struct := Q_struct s; Q := q;
     Q_orig := Q_orig s; patients := patients s; method := method s;
     bound := bound s; time_intervals := time_intervals s;
     expm_Q_t := expm_Q_t s; U := U s; D := D s; V := V s;
     TauI_end_state := TauI_end_state s;
     Nij_end_state := Nij_end_state s |}.

(** [l[i]] on a Python list. *)
Definition index {A} (what : string) (l : list A) (i : nat) : M A :=
  match nth_error l i with
  | Some x => ret x
  | None => raise (IndexError what)
  end.

(** *** [get_time_intervals] *)

(** The differences of consecutive observation times of one patient. *)
Definition gaps (times : list T) : list T :=
  zip_with (fun prev next => next - prev) times (tl times).

(** [np.unique(np.array(sorted(...)))]: ascending, without repeats. *)
Fixpoint insert_unique (x : T) (l : list T) : list T :=
  match l with
  | [] => [x]
  | y :: l' =>
      if x == y then l
      else if ltb x y then x :: l
      else y :: insert_unique x l'
  end.
Definition np_unique (l : list T) : list T :=
  fold_left (fun acc x => insert_unique x acc) l [].

Definition get_time_intervals (self : Learner) : M Learner :=
  tis <- for_each (patients self)
           (fun patient acc =>
              ot <- getattr "observation_times" (observation_times patient) ;;
              ret (acc ++ gaps ot))
           [] ;;
  ret (set_caches self (Some (np_unique tis)) (expm_Q_t self)
         (U self) (D self) (V self)
         (TauI_end_state self) (Nij_end_state self)).

(** *** [matrix_exponentials] *)

Definition matrix_exponentials (self : Learner) : M Learner :=
  tis <- getattr "time_intervals" (time_intervals self) ;;
  let expm_Q_t :=
    fold_left
      (fun d t => dict_set eqb d t (expm lib (mscale_r (Q self) t)))
      tis [] in
  ret (set_caches self (time_intervals self) (Some expm_Q_t)
         (U self) (D self) (V self)
         (TauI_end_state self) (Nij_end_state self)).

(** *** [set_eigendecomposition] *)

Definition set_eigendecomposition (self : Learner) : Learner :=
  let '(d, u) := eig lib (Q self) in
  set_caches self (time_intervals self) (expm_Q_t self)
    (Some u) (Some (np_diag d)) (Some (inv lib u))
    (TauI_end_state self) (Nij_end_state self).

(** *** [calculate_Psi_eigen] *)

(** One entry of Psi, from the eigenvalues [D]. *)
Definition Psi_entry (Dv : vec) (t : T) (p q : nat) : T :=
  if at1 Dv p == at1 Dv q
  then t * np_exp lib (t * at1 Dv p)
  else (np_exp lib (t * at1 Dv p) - np_exp lib (t * at1 Dv q))
       / (at1 Dv p - at1 Dv q).

Definition calculate_Psi_eigen (self : Learner) (t : T) : mat :=
  let num_state := length (Q self) in
  let '(Dv, _) := eig lib (Q self) in
  map (fun p => map (fun q => Psi_entry Dv t p q) (seq 0 num_state))
      (seq 0 num_state).

(** *** Emissions *)

Definition emission_Gaussian (ct_hmm_learner : Learner) (obs : Obs T)
  : M (list T) :=
  match ls_mu ct_hmm_learner with
  | PerMarker [mu0] =>
      match ls_sigma ct_hmm_learner with
      | PerMarker (sigma0 :: _) =>
          ret (zip_with (norm_pdf lib obs) mu0 sigma0)
      | PerMarker [] | Flat [] => raise (IndexError "ls_sigma_all[0]")
      | Flat (_ :: _) => raise (TypeError "zip argument is not iterable")
      end
  | Flat [_] => raise (TypeError "zip argument is not iterable")
  | Flat (_ :: _) =>
      raise (TypeError "product argument is not iterable")
  | PerMarker ls_mu_all =>
      match ls_sigma ct_hmm_learner with
      | PerMarker ls_sigma_all =>
          ret (zip_with
                 (fun mu sigma =>
                    mvn_pdf lib obs mu (map (fun s => s * s) sigma))
                 (itertools_product ls_mu_all)
                 (itertools_product ls_sigma_all))
      | Flat [] => ret (zip_with
                 (fun mu sigma =>
                    mvn_pdf lib obs mu (map (fun s => s * s) sigma))
                 (itertools_product ls_mu_all) [[]])
      | Flat (_ :: _) =>
          raise (TypeError "product argument is not iterable")
      end
  | Flat [] =>
      match ls_sigma ct_hmm_learner with
      | PerMarker ls_sigma_all =>
          ret (zip_with
                 (fun mu sigma =>
                    mvn_pdf lib obs mu (map (fun s => s * s) sigma))
                 [[]] (itertools_product ls_sigma_all))
      | Flat [] => ret [mvn_pdf lib obs [] []]
      | Flat (_ :: _) =>
          raise (TypeError "product argument is not iterable")
      end
  end.

Definition get_all_emissions_gaussian (self : Patient)
    (ct_hmm_learner : Learner) : M Patient :=
  obs <- getattr "O" (O self) ;;
  em <- for_each obs
          (fun o d =>
             e <- emission_Gaussian ct_hmm_learner o ;;
             ret (dict_set obs_eqb d o e))
          [] ;;
  ret (set_emissions self em).

Definition b_s (self : Patient) (obs : Obs T) : M (list T) :=
  em <- getattr "emissions" (emissions self) ;;
  dict_lookup obs_eqb "emissions" em obs.

(** [if t in expm_Q_t: expm_Q_t[t] else: expm(Q*t)]; the name [Q] is
    bound nowhere in [get_alpha_vector] and [get_beta_vector]. *)
Definition kernel_or_expm (locals : list string)
    (ct_hmm_learner : Learner) (t : T) : M mat :=
  d <- getattr "expm_Q_t" (expm_Q_t ct_hmm_learner) ;;
  match dict_get eqb d t with
  | Some m => ret m
  | None =>
      resolve locals "Q" ;;;
      raise (TypeError "unsupported operand type(s) for *")
  end.

(** [a[i] = x] with the bounds check of numpy. *)
Definition store {A} (what : string) (l : list A) (i : nat) (x : A)
  : M (list A) :=
  if i <? length l then ret (set_nth i x l) else raise (IndexError what).

(** *** Forward recursion *)

Definition locals_get_alpha_vector : list string :=
  ["self"; "t"; "obs"; "ct_hmm_learner"; "alpha_prev"; "pi0"; "alpha";
   "b"; "expm_matrix"; "c"]%string.

(** [get_alpha_vector] for an observation that is not [None] (every call
    of the training path).  [pi0] is [None] for the default [pi0=0]. *)
Definition get_alpha_vector (self : Patient) (t : T) (obs : Obs T)
    (ct_hmm_learner : Learner) (alpha_prev : vec) (pi0 : option vec)
  : M (vec * T) :=
  b <- b_s self obs ;;
  alpha <-
    (if negb (t == zero) then
       expm_matrix <- kernel_or_expm locals_get_alpha_vector
                        ct_hmm_learner t ;;
       ret (vmul b (np_dot_mv (np_transpose expm_matrix) alpha_prev))
     else
       match pi0 with
       | Some pi0 => ret (vmul pi0 b)
       | None =>
           (* [0 * b] is the empty list, and [[] / c] is not defined *)
           raise (TypeError "unsupported operand type(s) for /")
       end) ;;
  let c := np_sum alpha in
  ret (vdiv_scalar alpha c, c).

Definition alpha_forward_recursion (self : Patient)
    (ct_hmm_learner : Learner) : M Patient :=
  obs <- getattr "O" (O self) ;;
  T_ <- getattr "num_obs" (num_obs self) ;;
  let Alpha := np_zeros2 T_ (num_state ct_hmm_learner) in
  let C := np_zeros T_ in
  o0 <- index "O[0]" obs 0 ;;
  ac <- get_alpha_vector self zero o0 ct_hmm_learner []
          (Some (pi0 ct_hmm_learner)) ;;
  Alpha <- store "Alpha[0]" Alpha 0 (fst ac) ;;
  C <- store "C[0]" C 0 (snd ac) ;;
  times <- getattr "observation_times" (observation_times self) ;;
  AC <- for_each (seq 1 (length times - 1))
          (fun i '(Alpha, C) =>
             t_i <- index "observation_times[i]" times i ;;
             t_p <- index "observation_times[i-1]" times (i - 1) ;;
             let t := t_i - t_p in
             o <- index "O[i]" obs i ;;
             prev <- index "Alpha[i-1,:]" Alpha (i - 1) ;;
             ac <- get_alpha_vector self t o ct_hmm_learner prev None ;;
             Alpha <- store "Alpha[i,:]" Alpha i (fst ac) ;;
             C <- store "C[i]" C i (snd ac) ;;
             ret (Alpha, C))
          (Alpha, C) ;;
  ret (set_Alpha_C self (fst AC) (snd AC)).

(** *** Backward recursion *)

Definition locals_get_beta_vector : list string :=
  ["self"; "C"; "t"; "i"; "next_obs"; "ct_hmm_learner"; "beta_after";
   "b"; "expm_matrix"; "components"; "logSumExp"; "beta"]%string.

Definition get_beta_vector (self : Patient) (C : vec) (t : T) (i : nat)
    (next_obs : Obs T) (ct_hmm_learner : Learner) (beta_after : vec)
  : M vec :=
  b <- b_s self next_obs ;;
  expm_matrix <- kernel_or_expm locals_get_beta_vector ct_hmm_learner t ;;
  let components :=
    map (fun prow =>
           vadd (vadd (map (np_log lib) beta_after) (map (np_log lib) prow))
                (map (np_log lib) b))
        expm_matrix in
  let logSumExp := logsumexp_rows lib components in
  let beta := map (np_exp lib) logSumExp in
  c <- index "C[i+1]" C (i + 1) ;;
  let beta := vdiv_scalar beta c in
  (if any_isnan beta then emit (PdbSetTrace "get_beta_vector")
   else ret tt) ;;;
  ret beta.

Definition beta_backward_recursion (self : Patient)
    (ct_hmm_learner : Learner) : M Patient :=
  C <- getattr "C" (C self) ;;
  T_ <- getattr "num_obs" (num_obs self) ;;
  obs <- getattr "O" (O self) ;;
  let Beta := np_ones2 T_ (num_state ct_hmm_learner) in
  times <- getattr "observation_times" (observation_times self) ;;
  Beta <- for_each (rev (seq 0 (length times - 1)))
            (fun i Beta =>
               t_n <- index "observation_times[i+1]" times (i + 1) ;;
               t_i <- index "observation_times[i]" times i ;;
               let t := t_n - t_i in
               o <- index "O[i+1]" obs (i + 1) ;;
               after <- index "Beta[i+1,:]" Beta (i + 1) ;;
               beta <- get_beta_vector self C t i o ct_hmm_learner after ;;
               Beta <- store "Beta[i,:]" Beta i beta ;;
               (if any_isnan2 Beta
                then emit (PdbSetTrace "beta_backward_recursion")
                else ret tt) ;;;
               ret Beta)
            Beta ;;
  ret (set_Beta self Beta).

(** *** Pairwise beliefs *)

(** The arithmetic of [get_zeta], from the kernel [P] of the gap. *)
Definition zeta (P : mat) (alpha beta b : vec) : mat :=
  let likelihood := vdot alpha (np_dot_mv P (vmul beta b)) in
  mdiv_scalar (np_multiply P (np_outer alpha (vmul b beta))) likelihood.

Definition get_zeta (self : Learner) (t : T) (patient : Patient)
    (alpha beta : vec) (obs : Obs T) : M mat :=
  b <- b_s patient obs ;;
  d <- getattr "expm_Q_t" (expm_Q_t self) ;;
  P <- dict_lookup eqb "expm_Q_t" d t ;;
  ret (zeta P alpha beta b).

(** ** Sufficient statistics: the eigen method *)

(** [np.multiply(np.outer(V[:,i], U[j,:]), Psi_eigen)]. *)
Definition A_kernel (Vm Um Psi_eigen : mat) (i j : nat) : mat :=
  np_multiply (np_outer (col Vm i) (row Um j)) Psi_eigen.

(** [B = U^T . F . V^T] for [F = Zeta / expm_Q_t[t]]. *)
Definition contraction_B (Um Vm F : mat) : mat :=
  np_dot (np_dot (np_transpose Um) F) (np_transpose Vm).

Definition Eigen_Nij_time_interval (self : Learner) (Zeta_matrix : mat)
    (t : T) (Psi_eigen : mat) : M mat :=
  let num_state := num_state self in
  d <- getattr "expm_Q_t" (expm_Q_t self) ;;
  P <- dict_lookup eqb "expm_Q_t" d t ;;
  let F := mdiv Zeta_matrix P in
  Um <- getattr "U" (U self) ;;
  Vm <- getattr "V" (V self) ;;
  let B := contraction_B Um Vm F in
  ret (map (fun i =>
              map (fun j =>
                     let Aij := A_kernel Vm Um Psi_eigen i j in
                     let temp := np_multiply Aij B in
                     if negb (Nat.eqb i j)
                     then at2 (Q self) i j * np_sum2 temp
                     else zero)
                  (seq 0 num_state))
           (seq 0 num_state)).

Definition Eigen_TauI_time_interval (self : Learner) (Zeta_matrix : mat)
    (t : T) (Psi_eigen : mat) : M vec :=
  let num_state := length (Q self) in
  d <- getattr "expm_Q_t" (expm_Q_t self) ;;
  P <- dict_lookup eqb "expm_Q_t" d t ;;
  let F := mdiv Zeta_matrix P in
  Um <- getattr "U" (U self) ;;
  Vm <- getattr "V" (V self) ;;
  let B := contraction_B Um Vm F in
  ret (map (fun i =>
              let Ai := A_kernel Vm Um Psi_eigen i i in
              let temp := np_multiply Ai B in
              np_sum2 temp)
           (seq 0 num_state)).

(** *** The precomputed end-state kernels *)

Definition key2_eqb (a b : T * nat) : bool :=
  (fst a == fst b) && Nat.eqb (snd a) (snd b).
Definition key3_eqb (a b : T * nat * nat) : bool :=
  (fst (fst a) == fst (fst b)) && Nat.eqb (snd (fst a)) (snd (fst b))
  && Nat.eqb (snd a) (snd b).

Definition Eigen_Nij_time_interval_end_state (self : Learner) (t : T)
    (Psi_eigen : mat) (i j : nat) : M Learner :=
  Vm <- getattr "V" (V self) ;;
  Um <- getattr "U" (U self) ;;
  let Aij := A_kernel Vm Um Psi_eigen i j in
  d <- getattr "Nij_end_state" (Nij_end_state self) ;;
  let v :=
    if negb (Nat.eqb i j)
    then SArr (mscale (at2 (Q self) i j) (np_dot (np_dot Um Aij) Vm))
    else SInt 0 in
  ret (set_caches self (time_intervals self) (expm_Q_t self)
         (U self) (D self) (V self) (TauI_end_state self)
         (Some (dict_set key3_eqb d (t, i, j) v))).

Definition locals_Eigen_TauI_time_interval_end_state : list string :=
  ["self"; "t"; "Psi_eigen"; "i"; "Ai"]%string.

(** The test [i != j] reads a name [j] that is neither a parameter nor
    assigned in the function.  A module-level object found under that
    name could not index [self.Q]. *)
Definition Eigen_TauI_time_interval_end_state (self : Learner) (t : T)
    (Psi_eigen : mat) (i : nat) : M Learner :=
  Vm <- getattr "V" (V self) ;;
  Um <- getattr "U" (U self) ;;
  let Ai := A_kernel Vm Um Psi_eigen i i in
  resolve locals_Eigen_TauI_time_interval_end_state "j" ;;;
  raise (IndexError "only integers and slices are valid indices").

Definition Eigen_all_end_state_conditioned (self : Learner) : M Learner :=
  let self := set_caches self (time_intervals self) (expm_Q_t self)
                (U self) (D self) (V self) (Some []) (Some []) in
  tis <- getattr "time_intervals" (time_intervals self) ;;
  for_each tis
    (fun t self =>
       let Psi_eigen := calculate_Psi_eigen self t in
       for_each (seq 0 (num_state self))
         (fun i self =>
            self <- Eigen_TauI_time_interval_end_state self t Psi_eigen i ;;
            for_each (seq 0 (num_state self))
              (fun j self =>
                 Eigen_Nij_time_interval_end_state self t Psi_eigen i j)
              self)
         self)
    self.

(** *** Over all gaps of a patient *)

(** The gap before observation [i], the pairwise beliefs over it. *)
Definition gap_at (patient : Patient) (i : nat) : M T :=
  times <- getattr "observation_times" (observation_times patient) ;;
  t_i <- index "observation_times[i]" times i ;;
  t_p <- index "observation_times[i-1]" times (i - 1) ;;
  ret (t_i - t_p).

Definition zeta_at (self : Learner) (patient : Patient) (Alpha Beta : mat)
    (t : T) (i : nat) : M mat :=
  a <- index "Alpha[i-1]" Alpha (i - 1) ;;
  b <- index "Beta[i]" Beta i ;;
  obs <- getattr "O" (O patient) ;;
  o <- index "O[i]" obs i ;;
  get_zeta self t patient a b o.

(** [np.sum(np.multiply(kernel, F))] for a stored kernel. *)
Definition contract_stored (k : Stat mat) (F : mat) : T :=
  match k with
  | SArr k => np_sum2 (np_multiply k F)
  | SInt _ => np_sum2 (map (map (fun x => zero * x)) F)
  end.

Definition Eigen_Nij_all_times (self : Learner) (patient : Patient)
    (fast_eigen : bool) : M (Patient * mat) :=
  T_ <- getattr "num_obs" (num_obs patient) ;;
  let num_state := num_state self in
  let Nij_mat := np_zeros2 num_state num_state in
  patient <- alpha_forward_recursion patient self ;;
  Alpha <- getattr "Alpha" (Alpha patient) ;;
  patient <- beta_backward_recursion patient self ;;
  Beta <- getattr "Beta" (Beta patient) ;;
  patient <- get_all_emissions_gaussian patient self ;;
  Nij_mat <-
    (if fast_eigen then
       for_each (seq 1 (T_ - 1))
         (fun i Nij_mat =>
            t <- gap_at patient i ;;
            Zeta_matrix <- zeta_at self patient Alpha Beta t i ;;
            let Psi_eigen := calculate_Psi_eigen self t in
            N <- Eigen_Nij_time_interval self Zeta_matrix t Psi_eigen ;;
            ret (madd Nij_mat N))
         Nij_mat
     else
       for_each (seq 1 (T_ - 1))
         (fun l Nij_mat =>
            t <- gap_at patient l ;;
            Zeta_matrix <- zeta_at self patient Alpha Beta t l ;;
            d <- getattr "expm_Q_t" (expm_Q_t self) ;;
            P <- dict_lookup eqb "expm_Q_t" d t ;;
            let F := mdiv Zeta_matrix P in
            for_each (seq 0 num_state)
              (fun i Nij_mat =>
                 for_each (seq 0 num_state)
                   (fun j Nij_mat =>
                      es <- getattr "Nij_end_state" (Nij_end_state self) ;;
                      k <- dict_lookup key3_eqb "Nij_end_state" es (t, i, j) ;;
                      ret (set2 Nij_mat i j
                             (at2 Nij_mat i j + contract_stored k F)))
                   Nij_mat)
              Nij_mat)
         Nij_mat) ;;
  ret (patient, Nij_mat).

Definition Eigen_TauI_all_times (self : Learner) (patient : Patient)
    (fast_eigen : bool) : M (Patient * vec) :=
  T_ <- getattr "num_obs" (num_obs patient) ;;
  let num_state := num_state self in
  let TauI := np_zeros num_state in
  patient <- alpha_forward_recursion patient self ;;
  Alpha <- getattr "Alpha" (Alpha patient) ;;
  patient <- beta_backward_recursion patient self ;;
  Beta <- getattr "Beta" (Beta patient) ;;
  TauI <-
    (if fast_eigen then
       for_each (seq 1 (T_ - 1))
         (fun i TauI =>
            t <- gap_at patient i ;;
            Zeta_matrix <- zeta_at self patient Alpha Beta t i ;;
            let Psi_eigen := calculate_Psi_eigen self t in
            tau <- Eigen_TauI_time_interval self Zeta_matrix t Psi_eigen ;;
            ret (vadd TauI tau))
         TauI
     else
       for_each (seq 1 (T_ - 1))
         (fun l TauI =>
            t <- gap_at patient l ;;
            Zeta_matrix <- zeta_at self patient Alpha Beta t l ;;
            d <- getattr "expm_Q_t" (expm_Q_t self) ;;
            P <- dict_lookup eqb "expm_Q_t" d t ;;
            let F := mdiv Zeta_matrix P in
            for_each (seq 0 num_state)
              (fun i TauI =>
                 es <- getattr "TauI_end_state" (TauI_end_state self) ;;
                 k <- dict_lookup key2_eqb "TauI_end_state" es (t, i) ;;
                 ret (set1 TauI i (at1 TauI i + np_sum2 (np_multiply k F))))
              TauI)
         TauI) ;;
  ret (patient, TauI).

(** ** Sufficient statistics: the augmented-exponential method *)

(** [A]: [Q] in both diagonal blocks of a zero matrix of size [2n]. *)
Definition augmented (n : nat) (Qm : mat) : mat :=
  map (fun r => r ++ np_zeros n) Qm ++ map (fun r => np_zeros n ++ r) Qm.

(** The two inner loops over [k] and [l] that build [temp_sum]. *)
Definition expm_temp_sum (n : nat) (Pt_kl Zeta_matrix expm_A : mat) : T :=
  fold_left
    (fun temp_sum k =>
       fold_left
         (fun temp_sum l =>
            if negb (at2 Pt_kl k l == zero)
            then temp_sum
                 + at2 Zeta_matrix k l * at2 expm_A k (l + n) / at2 Pt_kl k l
            else temp_sum)
         (seq 0 n) temp_sum)
    (seq 0 n) zero.

(** [temp_sum] of one gap, for the unit entry at [(i, n + j)] of [A]. *)
Definition expm_gap_sum (self : Learner) (patient : Patient)
    (Alpha Beta : mat) (A : mat) (i j t_index : nat) : M T :=
  let n := num_state self in
  t <- gap_at patient t_index ;;
  let expm_A := expm lib (mscale_r (set2 A i (j + n) one) t) in
  d <- getattr "expm_Q_t" (expm_Q_t self) ;;
  Pt_kl <- dict_lookup eqb "expm_Q_t" d t ;;
  Zeta_matrix <- zeta_at self patient Alpha Beta t t_index ;;
  ret (expm_temp_sum n Pt_kl Zeta_matrix expm_A).

Definition Expm_TauI_Nij_all_times (self : Learner) (patient : Patient)
  : M (Patient * (vec * mat)) :=
  T_ <- getattr "num_obs" (num_obs patient) ;;
  let num_state := num_state self in
  patient <- alpha_forward_recursion patient self ;;
  Alpha <- getattr "Alpha" (Alpha patient) ;;
  patient <- beta_backward_recursion patient self ;;
  Beta <- getattr "Beta" (Beta patient) ;;
  patient <- get_all_emissions_gaussian patient self ;;
  let TauI := np_zeros num_state in
  let Nij_mat := np_zeros2 num_state num_state in
  let A := augmented num_state (Q self) in
  TN <- for_each (seq 0 num_state)
          (fun i TN =>
             for_each (seq 1 (T_ - 1))
               (fun t_index '(TauI, Nij_mat) =>
                  temp_sum <- expm_gap_sum self patient Alpha Beta A i i
                                t_index ;;
                  let TauI := set1 TauI i (at1 TauI i + temp_sum) in
                  let ni := temp_sum * (- at2 (Q self) i i) in
                  ret (TauI, set2 Nij_mat i i (at2 Nij_mat i i + ni)))
               TN)
          (TauI, Nij_mat) ;;
  Nij_mat <-
    for_each (seq 0 num_state)
      (fun i Nij_mat =>
         for_each (seq 0 num_state)
           (fun j Nij_mat =>
              if at2 (Q_struct self) i j == one then
                for_each (seq 1 (T_ - 1))
                  (fun t_index Nij_mat =>
                     temp_sum <- expm_gap_sum self patient Alpha Beta A i j
                                   t_index ;;
                     let nij := temp_sum * at2 (Q self) i j in
                     ret (set2 Nij_mat i j (at2 Nij_mat i j + nij)))
                  Nij_mat
              else ret Nij_mat)
           Nij_mat)
      (snd TN) ;;
  ret (patient, (fst TN, Nij_mat)).

(** ** The M-step *)

(** [x += a] on a statistic that may still be the integer it started
    as. *)
Definition of_int (z : Z) : T :=
  match z with
  | Z0 => zero
  | Zpos p => Pos.iter (add one) zero p
  | Zneg p => - Pos.iter (add one) zero p
  end.
Definition iadd_vec (s : Stat vec) (a : vec) : Stat vec :=
  match s with
  | SInt z => SArr (map (add (of_int z)) a)
  | SArr v => SArr (vadd v a)
  end.
Definition iadd_mat (s : Stat mat) (a : mat) : Stat mat :=
  match s with
  | SInt z => SArr (map (map (add (of_int z))) a)
  | SArr m => SArr (madd m a)
  end.

(** [Nij[i,j]] and [TauI[i]] on a statistic. *)
Definition subscript2 (s : Stat mat) (i j : nat) : M T :=
  match s with
  | SArr m => ret (at2 m i j)
  | SInt _ => raise (TypeError "'int' object is not subscriptable")
  end.
Definition subscript1 (s : Stat vec) (i : nat) : M T :=
  match s with
  | SArr v => ret (at1 v i)
  | SInt _ => raise (TypeError "'int' object is not subscriptable")
  end.

(** The body of the first double loop, for one allowed pair. *)
Definition update_rate (self_bound : bool) (Nij : Stat mat)
    (TauI : Stat vec) (i j : nat) (Qm : mat) : M mat :=
  nij <- subscript2 Nij i j ;;
  taui <- subscript1 TauI i ;;
  let Qm := set2 Qm i j (nij / taui) in
  (if isnan (at2 Qm i j) then emit (PdbSetTrace "update_model_params")
   else ret tt) ;;;
  ret (if self_bound
       then if ltb (at2 Qm i j) lit_1e_10 then set2 Qm i j lit_1e_10
            else Qm
       else Qm).

(** The second loop: the diagonal of [Q] and the emission quotients. *)
Definition second_loop (n : nat) (update_sigma update_mu : bool)
    (mu_numerator mu_denominator sigma_numerator sigma_denominator : vec)
    (Qm : mat) : mat * list T * list T :=
  fold_left
    (fun '(Qm, ls_mu', ls_sigma') i =>
       let Qm := set2 Qm i i zero in
       let Qm := set2 Qm i i (- np_sum (row Qm i)) in
       (Qm,
        if update_mu
        then ls_mu' ++ [at1 mu_numerator i / at1 mu_denominator i]
        else ls_mu',
        if update_sigma
        then ls_sigma' ++ [at1 sigma_numerator i / at1 sigma_denominator i]
        else ls_sigma'))
    (seq 0 n) (Qm, [], []).

Definition update_model_params (self : Learner) (Nij : Stat mat)
    (TauI : Stat vec)
    (mu_numerator mu_denominator pi0_numerator pi0_denominator
     sigma_numerator sigma_denominator : vec)
    (update_sigma update_mu : bool) : M Learner :=
  let n := num_state self in
  Qm <- for_each (seq 0 n)
          (fun i Qm =>
             for_each (seq 0 n)
               (fun j Qm =>
                  if at2 (Q_struct self) i j == one
                  then update_rate (bound self) Nij TauI i j Qm
                  else ret Qm)
               Qm)
          (Q self) ;;
  let '(Qm, ls_mu', ls_sigma') :=
    second_loop n update_sigma update_mu mu_numerator mu_denominator
      sigma_numerator sigma_denominator Qm in
  ret (set_params self Qm (zip_with div pi0_numerator pi0_denominator)
         (if update_mu then Flat ls_mu' else ls_mu self)
         (if update_sigma then Flat ls_sigma' else ls_sigma self)).

(** ** One EM step *)

(** The accumulators that the loop over the patients updates. *)
Record Accum : Type := mkAccum {
  acc_Nij : Stat (list (list T));
  acc_TauI : Stat (list T);
  acc_mu_numerator : list T;
  acc_mu_denominator : list T;
  acc_sigma_numerator : list T;
  acc_sigma_denominator : list T;
  acc_pi0_numerator : list T;
  acc_pi0_denominator : list T
}.

Definition EM_patient (self : Learner) (fast_eigen : bool)
    (patient : Patient) (a : Accum) : M (Patient * Accum) :=
  patient <- get_all_emissions_gaussian patient self ;;
  pNT <-
    (if String.eqb (method self) "eigen" then
       pn <- Eigen_Nij_all_times self patient fast_eigen ;;
       let Nij := iadd_mat (acc_Nij a) (snd pn) in
       pt <- Eigen_TauI_all_times self (fst pn) true ;;
       ret (fst pt, Nij, iadd_vec (acc_TauI a) (snd pt))
     else if String.eqb (method self) "expm" then
       ptn <- Expm_TauI_Nij_all_times self patient ;;
       let '(temptau, tempn) := snd ptn in
       ret (fst ptn, iadd_mat (acc_Nij a) tempn,
            iadd_vec (acc_TauI a) temptau)
     else ret (patient, acc_Nij a, acc_TauI a)) ;;
  let '(patient, Nij, TauI) := pNT in
  patient <- alpha_forward_recursion patient self ;;
  Alpha <- getattr "Alpha" (Alpha patient) ;;
  patient <- beta_backward_recursion patient self ;;
  Beta <- getattr "Beta" (Beta patient) ;;
  T_ <- getattr "num_obs" (num_obs patient) ;;
  pi0s <- for_each (seq 0 T_)
            (fun t '(pi0_numerator, pi0_denominator) =>
               al <- index "Alpha[t,:]" Alpha t ;;
               be <- index "Beta[t,:]" Beta t ;;
               let gamma_t := vmul al be in
               if Nat.eqb t 0
               then ret (vadd pi0_numerator gamma_t,
                         map (fun x => x + np_sum gamma_t) pi0_denominator)
               else ret (pi0_numerator, pi0_denominator))
            (acc_pi0_numerator a, acc_pi0_denominator a) ;;
  ret (patient,
       {| acc_Nij := Nij; acc_TauI := TauI;
          acc_mu_numerator := acc_mu_numerator a;
          acc_mu_denominator := acc_mu_denominator a;
          acc_sigma_numerator := acc_sigma_numerator a;
          acc_sigma_denominator := acc_sigma_denominator a;
          acc_pi0_numerator := fst pi0s;
          acc_pi0_denominator := snd pi0s |}).

(** The accumulators at the start of a step. *)
Definition initial_accum (num_state : nat) : Accum :=
  {| acc_Nij := SInt 0; acc_TauI := SInt 0;
     acc_mu_numerator := np_zeros num_state;
     acc_mu_denominator := np_zeros num_state;
     acc_sigma_numerator := np_zeros num_state;
     acc_sigma_denominator := np_zeros num_state;
     acc_pi0_numerator := np_zeros num_state;
     acc_pi0_denominator := np_zeros num_state |}.

(** The E-step: everything [EM_step] does before it calls
    [update_model_params]. *)
Definition E_step (self : Learner) (fast_eigen : bool)
  : M (Learner * Accum) :=
  let num_state := num_state self in
  self <- matrix_exponentials self ;;
  let self := set_eigendecomposition self in
  self <- (if negb fast_eigen && String.eqb (method self) "eigen"
           then Eigen_all_end_state_conditioned self
           else ret self) ;;
  pa <- for_each (patients self)
          (fun patient '(done, a) =>
             r <- EM_patient self fast_eigen patient a ;;
             ret (done ++ [fst r], snd r))
          ([], initial_accum num_state) ;;
  ret (set_patients self (fst pa), snd pa).

Definition EM_step (self : Learner) (update_sigma update_mu fast_eigen : bool)
  : M Learner :=
  sa <- E_step self fast_eigen ;;
  let a := snd sa in
  update_model_params (fst sa) (acc_Nij a) (acc_TauI a)
    (acc_mu_numerator a) (acc_mu_denominator a)
    (acc_pi0_numerator a) (acc_pi0_denominator a)
    (acc_sigma_numerator a) (acc_sigma_denominator a)
    update_sigma update_mu.

(** ** Training *)

Definition calculate_log_likelihood (self : Learner) : M T :=
  for_each (patients self)
    (fun patient log_likelihood =>
       c <- getattr "C" (C patient) ;;
       ret (log_likelihood + np_sum (map (np_log lib) c)))
    zero.

(** The body of the [while] loop of [run_EM]: the EM step and the new
    log-likelihood. *)
Definition EM_iteration (self : Learner)
    (verbose update_sigma update_mu fast_eigen : bool) : M (Learner * T) :=
  self' <- EM_step self update_sigma update_mu fast_eigen ;;
  ll <- calculate_log_likelihood self' ;;
  (if verbose
   then emit (Printed "log-likelihood") ;;;
        emit (Printed "new_log_likelihood")
   else ret tt) ;;;
  ret (self', ll).

(** The test of the [while] loop. *)
Definition not_converged (tol old_log_likelihood new_log_likelihood : T)
  : bool :=
  ltb tol (abs (old_log_likelihood - new_log_likelihood)).

(** The [while] loop of [run_EM], for at most [fuel] iterations: [None]
    when the loop is still running after [fuel] iterations. *)
Fixpoint run_EM_loop (fuel : nat) (fast_eigen : bool) (tol : T)
    (verbose update_sigma update_mu : bool)
    (self : Learner) (old_log_likelihood new_log_likelihood : T)
  : option (M (Learner * T)) :=
  if not_converged tol old_log_likelihood new_log_likelihood then
    match fuel with
    | 0%nat => None
    | S fuel' =>
        match EM_iteration self verbose update_sigma update_mu fast_eigen
        with
        | (log, Ok (self', ll)) =>
            match run_EM_loop fuel' fast_eigen tol verbose update_sigma
                    update_mu self' new_log_likelihood ll with
            | Some (log', r) => Some (log ++ log', r)
            | None => None
            end
        | (log, Raise e) => Some (log, Raise e)
        end
    end
  else Some (ret (self, new_log_likelihood)).

(** The state [(self, old, new)] of the loop after [k] iterations, when
    the test held before each of them and none raised. *)
Fixpoint EM_chain (k : nat) (fast_eigen : bool) (tol : T)
    (verbose update_sigma update_mu : bool)
    (self : Learner) (old_log_likelihood new_log_likelihood : T)
  : option (Learner * T * T) :=
  match k with
  | 0%nat => Some (self, old_log_likelihood, new_log_likelihood)
  | S k' =>
      if not_converged tol old_log_likelihood new_log_likelihood then
        match outcome (EM_iteration self verbose update_sigma update_mu
                         fast_eigen) with
        | Ok (self', ll) =>
            EM_chain k' fast_eigen tol verbose update_sigma update_mu
              self' new_log_likelihood ll
        | Raise _ => None
        end
      else None
  end.

Context `{HasInf T}.

Definition run_EM (fuel : nat) (self : Learner) (fast_eigen : bool)
    (tol : T) (verbose update_sigma update_mu : bool)
  : option (M (Learner * T)) :=
  run_EM_loop fuel fast_eigen tol verbose update_sigma update_mu self
    (- np_inf) zero.

End EStep.

(** ** The library in exact arithmetic, for two-state models

    Over [R] the scalar functions are the real exponential and logarithm.
    The linear algebra is given in closed form for the matrices a
    two-state model passes: a 2x2 matrix [X] of determinant 0 satisfies
    [X.X = tr(X).X], so [expm X = I + phi(tr X).X] with
    [phi l = (e^l - 1)/l]; and for the augmented matrix [[X, C], [0, X]]
    the upper right block of the exponential is the integral of
    [expm(sX).C.expm((1-s)X)] over [0,1]. *)

Module Exact.
Local Open Scope R_scope.

Definition trace2 (m : list (list R)) : R := at2 m 0 0 + at2 m 1 1.

Definition identity2 : list (list R) := [[1; 0]; [0; 1]].

(** The 2x2 block of [m] whose upper left corner is at [(r, c)]. *)
Definition block2 (r c : nat) (m : list (list R)) : list (list R) :=
  map (fun k => map (fun l => at2 m (r + k) (c + l)) [0%nat; 1%nat])
      [0%nat; 1%nat].

Definition phi (l : R) : R := (exp l - 1) / l.
(** The integrals of [phi s] and of [phi s * phi (1 - s)] over [0,1],
    with [phi s = (e^(s l) - 1)/l]. *)
Definition phi_1 (l : R) : R := (exp l - 1 - l) / (l * l).
Definition phi_2 (l : R) : R :=
  (exp l - 2 * ((exp l - 1) / l) + 1) / (l * l).

Definition expm2 (X : list (list R)) : list (list R) :=
  madd identity2 (mscale (phi (trace2 X)) X).

Definition expm_coupling (X Cm : list (list R)) : list (list R) :=
  madd (madd Cm (mscale (phi_1 (trace2 X))
                   (madd (np_dot X Cm) (np_dot Cm X))))
       (mscale (phi_2 (trace2 X)) (np_dot (np_dot X Cm) X)).

Definition expm_exact (m : list (list R)) : list (list R) :=
  if Nat.eqb (length m) 2 then expm2 m
  else
    let X := block2 0 0 m in
    let E := expm2 X in
    let L := expm_coupling X (block2 0 2 m) in
    zip_with (@app R) E L ++ map (fun r => [0; 0] ++ r) E.

(** Eigenvalues [0] and [tr X], eigenvectors [(1, 1)] and
    [(X01, -X10)] in the columns of [U]. *)
Definition eig_exact (m : list (list R)) : list R * list (list R) :=
  ([0; trace2 m], [[1; at2 m 0 1]; [1; - at2 m 1 0]]).

Definition inv_exact (m : list (list R)) : list (list R) :=
  let det := at2 m 0 0 * at2 m 1 1 - at2 m 0 1 * at2 m 1 0 in
  [[at2 m 1 1 / det; - at2 m 0 1 / det];
   [- at2 m 1 0 / det; at2 m 0 0 / det]].

Definition gaussian (x mu var : R) : R :=
  exp (- ((x - mu) * (x - mu)) / (2 * var)) / sqrt (2 * PI * var).

Definition norm_pdf_exact (obs : Obs R) (mu sigma : R) : R :=
  match obs with
  | ObsScalar x => gaussian x mu (sigma * sigma)
  | ObsTuple _ => 0
  end.

Definition mvn_pdf_exact (obs : Obs R) (mu var : list R) : R :=
  let xs := match obs with ObsScalar x => [x] | ObsTuple xs => xs end in
  fold_left Rmult
    (zip_with (fun x mv => gaussian x (fst mv) (snd mv)) xs (combine mu var))
    1.

Definition logsumexp_rows_exact (a : list (list R)) : list R :=
  map (fun r => ln (np_sum (map exp r))) a.

(** The seeded random draws are not a function of exact arithmetic; the
    examples all pass [Q] to the constructor. *)
Definition lib : NumLib R :=
  {| np_exp := exp;
     np_log := ln;
     expm := expm_exact;
     eig := eig_exact;
     inv := inv_exact;
     logsumexp_rows := logsumexp_rows_exact;
     norm_pdf := norm_pdf_exact;
     mvn_pdf := mvn_pdf_exact;
     random_rand := fun r c => repeat (repeat (/ 2) c) r |}.

End Exact.

(** ** The library in binary64, for one-state models

    On 1x1 matrices the linear algebra is exact: the eigenvalue of [[a]]
    is [a] with eigenvector [1], its inverse is [[1/a]], its exponential
    is [[exp a]].  The exponential and the logarithm are computed by a
    scaled Taylor series and by Halley's iteration; numpy's values may
    differ from them in the last bits. *)

Module Binary64.
Local Open Scope float_scope.

(** [sum of y^k / k!] for [k < terms], by Horner's rule. *)
Fixpoint exp_series (terms : nat) (k : float) (y : float) : float :=
  match terms with
  | 0%nat => 1
  | S terms' => 1 + y / k * exp_series terms' (k + 1) y
  end.

Definition exp64 (x : float) : float :=
  let y := exp_series 24 1 (x / 1024) in
  Nat.iter 10 (fun e => e * e) y.

Definition log64 (x : float) : float :=
  if x <? 0 then nan
  else if x =? 0 then neg_infinity
  else Nat.iter 64 (fun y => y + 2 * (x - exp64 y) / (x + exp64 y)) 0.

Definition expm64 (m : list (list float)) : list (list float) :=
  [[exp64 (at2 m 0 0)]].

Definition eig64 (m : list (list float))
  : list float * list (list float) :=
  ([at2 m 0 0], [[1]]).

Definition inv64 (m : list (list float)) : list (list float) :=
  [[1 / at2 m 0 0]].

Definition gaussian64 (x mu var : float) : float :=
  exp64 (- ((x - mu) * (x - mu)) / (2 * var))
  / PrimFloat.sqrt (2 * 0x1.921fb54442d18p+1 * var).

Definition norm_pdf64 (obs : Obs float) (mu sigma : float) : float :=
  match obs with
  | ObsScalar x => gaussian64 x mu (sigma * sigma)
  | ObsTuple _ => nan
  end.

Definition mvn_pdf64 (obs : Obs float) (mu var : list float) : float :=
  let xs := match obs with ObsScalar x => [x] | ObsTuple xs => xs end in
  fold_left PrimFloat.mul
    (zip_with (fun x mv => gaussian64 x (fst mv) (snd mv)) xs
       (combine mu var))
    1.

Definition logsumexp_rows64 (a : list (list float)) : list float :=
  map (fun r => log64 (np_sum (map exp64 r))) a.

(** The seeded random draws are not modelled; the examples all pass
    [Q] to the constructor. *)
Definition lib : NumLib float :=
  {| np_exp := exp64;
     np_log := log64;
     expm := expm64;
     eig := eig64;
     inv := inv64;
     logsumexp_rows := logsumexp_rows64;
     norm_pdf := norm_pdf64;
     mvn_pdf := mvn_pdf64;
     random_rand := fun r c => repeat (repeat 0.5 c) r |}.

End Binary64.

(** ** Concrete inputs *)

Module Inputs.

(** The constructor's defaults. *)
Definition default_structure : string := "fc".
Definition default_method : string := "eigen".
Definition default_bound : bool := true.

(** The recognized topology names. *)
Definition recognized (structure : string) : bool :=
  String.eqb structure "fc" || String.eqb structure "forward_step"
  || String.eqb structure "forward_any".

(** A two-state model in exact arithmetic: rates 1 in both directions,
    state means 0 and 1, one patient observed at times 0 and 1 with the
    value 1/2 both times.  [learner_two] is the learner after construction
    and [get_time_intervals]. *)
Definition patient_two : @Patient R :=
  {| end_time := 10%R; censored := false;
     observation_times := Some [0%R; 1%R]; num_obs := Some 2%nat;
     O := Some [ObsScalar (/ 2)%R; ObsScalar (/ 2)%R];
     emissions := None; Alpha := None; C := None; Beta := None |}.

Definition Q_two : list (list R) := [[-1; 1]; [1; -1]]%R.

Definition learner_two (method : string) : @Learner R :=
  {| pi0 := [/ 2; / 2]%R; ls_mu := PerMarker [[0; 1]]%R; num_state := 2;
     ls_sigma := PerMarker [[1; 1]]%R;
     Q_struct := [[0; 1]; [1; 0]]%R; Q := Q_two; Q_orig := Q_two;
     patients := [patient_two]; method := method; bound := true;
     time_intervals := Some [(1 - 0)%R]; expm_Q_t := None;
     U := None; D := None; V := None;
     TauI_end_state := None; Nij_end_state := None |}.

(** The caches of [learner_two] once the E-step has filled them: the
    kernel of the gap 1 with [e2 = exp(-2)], and the eigendecomposition. *)
Definition e2 : R := exp (-2).
Definition kernel_two : list (list R) :=
  [[(1 + e2) / 2; (1 - e2) / 2]; [(1 - e2) / 2; (1 + e2) / 2]]%R.
Definition U_two : list (list R) := [[1; 1]; [1; -1]]%R.
Definition V_two : list (list R) := [[/ 2; / 2]; [/ 2; - / 2]]%R.
Definition D_two : list (list R) := [[0; 0]; [0; -2]]%R.

Definition learner_two_cached (method : string) : @Learner R :=
  {| pi0 := [/ 2; / 2]%R; ls_mu := PerMarker [[0; 1]]%R; num_state := 2;
     ls_sigma := PerMarker [[1; 1]]%R;
     Q_struct := [[0; 1]; [1; 0]]%R; Q := Q_two; Q_orig := Q_two;
     patients := [patient_two]; method := method; bound := true;
     time_intervals := Some [(1 - 0)%R];
     expm_Q_t := Some [((1 - 0)%R, kernel_two)];
     U := Some U_two; D := Some D_two; V := Some V_two;
     TauI_end_state := None; Nij_end_state := None |}.

(** The density of the value 1/2 under either state, and the tables of
    [patient_two] after the emissions, the forward and the backward
    pass. *)
Definition pdf_half : R := Exact.gaussian (/ 2) 0 (1 * 1).

Definition patient_two_tables (al : option (list (list R)))
    (c : option (list R)) (be : option (list (list R))) : @Patient R :=
  {| end_time := 10%R; censored := false;
     observation_times := Some [0%R; 1%R]; num_obs := Some 2%nat;
     O := Some [ObsScalar (/ 2)%R; ObsScalar (/ 2)%R];
     emissions := Some [(ObsScalar (/ 2)%R, [pdf_half; pdf_half])];
     Alpha := al; C := c; Beta := be |}.

Definition Alpha_two : list (list R) := [[/ 2; / 2]; [/ 2; / 2]]%R.
Definition C_two : list R := [pdf_half; pdf_half].
Definition Beta_two : list (list R) := [[1; 1]; [1; 1]]%R.

Definition patient_two_done : @Patient R :=
  patient_two_tables (Some Alpha_two) (Some C_two) (Some Beta_two).

(** The pairwise beliefs over the gap, the Psi matrix of the gap, and what
    the E-step accumulates for each method string. *)
Definition Zeta_two : list (list R) :=
  [[(1 + e2) / 4; (1 - e2) / 4]; [(1 - e2) / 4; (1 + e2) / 4]]%R.

Definition Psi_two : list (list R) :=
  [[1; (1 - e2) / 2]; [(1 - e2) / 2; e2]]%R.

Definition accum_two (Nij : Stat (list (list R))) (TauI : Stat (list R))
  : @Accum R :=
  {| acc_Nij := Nij; acc_TauI := TauI;
     acc_mu_numerator := [0; 0]%R; acc_mu_denominator := [0; 0]%R;
     acc_sigma_numerator := [0; 0]%R; acc_sigma_denominator := [0; 0]%R;
     acc_pi0_numerator := [/ 2; / 2]%R;
     acc_pi0_denominator := [1; 1]%R |}.

Definition Nij_eigen_two : list (list R) := [[0; / 2]; [/ 2; 0]]%R.
Definition Nij_expm_two : list (list R) := [[/ 2; / 2]; [/ 2; / 2]]%R.
Definition TauI_two : list R := [/ 2; / 2]%R.

Definition stats_two (m : string) : Stat (list (list R)) * Stat (list R) :=
  if String.eqb m "eigen" then (SArr Nij_eigen_two, SArr TauI_two)
  else if String.eqb m "expm" then (SArr Nij_expm_two, SArr TauI_two)
       else (SInt 0, SInt 0).

(** A one-state model in binary64 without patients (the constructor's
    default), after construction and [get_time_intervals]. *)
Definition learner_idle : @Learner float :=
  {| pi0 := [1%float]; ls_mu := PerMarker [[0%float]]; num_state := 1;
     ls_sigma := PerMarker [[1%float]];
     Q_struct := [[0%float]]; Q := [[0%float]]; Q_orig := [[0%float]];
     patients := []; method := "eigen"; bound := true;
     time_intervals := Some []; expm_Q_t := None;
     U := None; D := None; V := None;
     TauI_end_state := None; Nij_end_state := None |}.

(** A two-state fully connected model in binary64, and the statistics of
    an E-step in which no patient has two observations: all zero. *)
Definition learner_flat : @Learner float :=
  {| pi0 := [0.5%float; 0.5%float];
     ls_mu := PerMarker [[0%float; 1%float]]; num_state := 2;
     ls_sigma := PerMarker [[1%float; 1%float]];
     Q_struct := [[0%float; 1%float]; [1%float; 0%float]];
     Q := [[(-1)%float; 1%float]; [1%float; (-1)%float]];
     Q_orig := [[(-1)%float; 1%float]; [1%float; (-1)%float]];
     patients := []; method := "expm"; bound := true;
     time_intervals := Some []; expm_Q_t := None;
     U := None; D := None; V := None;
     TauI_end_state := None; Nij_end_state := None |}.

End Inputs.

(** ** Predicates of the statements *)

(** The part of the learner that the E-step never changes. *)
Definition same_model {T : Type} (s s' : @Learner T) : Prop :=
  num_state s' = num_state s /\ Q_struct s' = Q_struct s /\
  Q s' = Q s /\ method s' = method s /\ bound s' = bound s /\
  ls_mu s' = ls_mu s /\ ls_sigma s' = ls_sigma s.

(** The reading of the Psi formula with a tolerance [tol] on the
    eigenvalues, in exact arithmetic: whenever two eigenvalues differ by at
    most [tol], the entry is the limiting form. *)
Definition Psi_limit_within (tol : R) : Prop :=
  forall (self : @Learner R) (t : R) (p q : nat),
    (p < length (Q self))%nat -> (q < length (Q self))%nat ->
    let Dv := fst (eig Exact.lib (Q self)) in
    (Rabs (at1 Dv p - at1 Dv q) <= tol)%R ->
    at2 (calculate_Psi_eigen Exact.lib self t) p q
    = (t * exp (t * at1 Dv p))%R.

(** One absorbing state reached at rate [r]: eigenvalues [0] and [-r]. *)
Definition learner_absorbing (r : R) : @Learner R :=
  {| pi0 := [1; 0]%R; ls_mu := PerMarker [[0; 1]]%R; num_state := 2;
     ls_sigma := PerMarker [[1; 1]]%R;
     Q_struct := [[0; 1]; [0; 0]]%R;
     Q := [[- r; r]; [0; 0]]%R; Q_orig := [[- r; r]; [0; 0]]%R;
     patients := []; method := "eigen"; bound := true;
     time_intervals := Some []; expm_Q_t := None;
     U := None; D := None; V := None;
     TauI_end_state := None; Nij_end_state := None |}.

(** The learners in which an EM step has nothing to do: one state and no
    patients. *)
Definition idle (s : @Learner float) : Prop :=
  patients s = [] /\ num_state s = 1%nat /\ Q_struct s = [[0%float]] /\
  time_intervals s = Some [].

(** Finite sums and shapes, for the algebra of the two methods. *)

(** The sum of [f 0], ..., [f (n - 1)]. *)
Definition rsum (n : nat) (f : nat -> R) : R :=
  fold_left Rplus (map f (seq 0 n)) 0%R.

(** The sum of a list of reals. *)
Definition lsum (l : list R) : R := fold_right Rplus 0%R l.

(** A matrix of [n] rows, each of [m] entries. *)
Definition shape (n m : nat) (a : list (list R)) : Prop :=
  length a = n /\ forall r, In r a -> length r = m.

(** No row is longer than the first one. *)
Definition uniform (a : list (list R)) : Prop :=
  forall k l, (ncols a <= l)%nat -> at2 a k l = 0%R.
(** All rows have the same length. *)
Definition rect (a : list (list R)) : Prop :=
  exists m, forall r, In r a -> length r = m.

(** ** What the statistics engine reads and assumes *)

Unset Implicit Arguments.

(** What the statistics engine reads for the gap before observation
    [idx] of a patient: the gap, its kernel, and the pairwise beliefs over
    it (0 and empty arrays where the engine would raise). *)
Definition gap_time (patient : @Patient R) (idx : nat) : R :=
  match outcome (gap_at patient idx) with
  | Ok t => t
  | Raise _ => 0%R
  end.

Definition gap_kernel (self : @Learner R) (patient : @Patient R)
    (idx : nat) : list (list R) :=
  match expm_Q_t self with
  | Some d =>
      match dict_get Reqb d (gap_time patient idx) with
      | Some P => P
      | None => []
      end
  | None => []
  end.

Definition gap_zeta (self : @Learner R) (patient : @Patient R)
    (Alpha Beta : list (list R)) (idx : nat) : list (list R) :=
  match outcome (zeta_at self patient Alpha Beta (gap_time patient idx) idx)
  with
  | Ok Z => Z
  | Raise _ => []
  end.

(** The sum [temp_sum] of the augmented-exponential method for the unit
    entry at [(i, n + j)] and the gap [idx]; the contraction of the eigen
    method for the pair [(i, j)] and the gap [idx]. *)
Definition expm_term (lib : NumLib R) (self : @Learner R)
    (patient : @Patient R) (Alpha Beta : list (list R)) (i j idx : nat)
  : R :=
  let n := num_state self in
  expm_temp_sum n (gap_kernel self patient idx)
    (gap_zeta self patient Alpha Beta idx)
    (expm lib
       (mscale_r (set2 (augmented n (Q self)) i (j + n) 1%R)
          (gap_time patient idx))).

Definition eigen_term (lib : NumLib R) (self : @Learner R)
    (Um Vm : list (list R)) (patient : @Patient R)
    (Alpha Beta : list (list R)) (i j idx : nat) : R :=
  np_sum2
    (np_multiply
       (A_kernel Vm Um (calculate_Psi_eigen lib self (gap_time patient idx))
          i j)
       (contraction_B Um Vm
          (mdiv (gap_zeta self patient Alpha Beta idx)
             (gap_kernel self patient idx)))).

(** The engine found the kernel of the gap and computed the beliefs from
    it. *)
Definition gap_ok (self : @Learner R) (patient : @Patient R)
    (Alpha Beta : list (list R)) (idx : nat) : Prop :=
  exists d a b bv,
    expm_Q_t self = Some d /\
    dict_get Reqb d (gap_time patient idx)
    = Some (gap_kernel self patient idx) /\
    gap_zeta self patient Alpha Beta idx
    = zeta (gap_kernel self patient idx) a b bv.
(** The patient is as [EM_step] hands it to the statistics engine: its
    emission table was just computed from the model. *)
Definition emissions_current (lib : NumLib R) (self : @Learner R)
    (patient : @Patient R) : Prop :=
  exists p0, outcome (get_all_emissions_gaussian lib p0 self) = Ok patient.

(** Two patient objects with the same data and the same emission table
    (the tables [Alpha], [C] and [Beta] may differ). *)
Definition same_reads (p p' : @Patient R) : Prop :=
  O p = O p' /\ num_obs p = num_obs p' /\
  observation_times p = observation_times p' /\
  emissions p = emissions p'.
(** The eigendecomposition that [set_eigendecomposition] caches, as
    [n x n] arrays. *)
Definition decomposition_cached (self : @Learner R) (n : nat)
    (Um Vm : list (list R)) : Prop :=
  U self = Some Um /\ V self = Some Vm /\ shape n n Um /\ shape n n Vm.

(** Every cached kernel is an [n x n] array without a zero entry (the
    eigen method divides by each entry, the augmented-exponential method
    skips the zero ones). *)
Definition kernels_nonzero (self : @Learner R) (n : nat) : Prop :=
  forall d t P,
    expm_Q_t self = Some d -> dict_get Reqb d t = Some P ->
    shape n n P /\
    forall k l, (k < n)%nat -> (l < n)%nat -> at2 P k l <> 0%R.

(** The contract between [expm], [eig] and [inv] that the two methods
    rest on (Van Loan): over a cached gap [t], the upper right block of
    [expm(A t)], for [A] with [Q] in both diagonal blocks and a unit entry
    at [(i, n + j)], is the integral of [e^(Q s) e_i e_j^T e^(Q (t - s))],
    which in the eigenbasis is [U (V[:,i] U[j,:] * Psi) V]. *)
Definition coupling_block_in_eigenbasis (lib : NumLib R)
    (self : @Learner R) (n : nat) (Um Vm : list (list R)) : Prop :=
  forall d t P i j k l,
    expm_Q_t self = Some d -> dict_get Reqb d t = Some P ->
    (i < n)%nat -> (j < n)%nat -> (k < n)%nat -> (l < n)%nat ->
    at2 (expm lib (mscale_r (set2 (augmented n (Q self)) i (j + n) 1%R) t))
      k (l + n)
    = rsum n (fun p => rsum n (fun q =>
        (at2 Um k p
         * (at2 Vm p i * at2 Um j q
            * at2 (calculate_Psi_eigen lib self t) p q)
         * at2 Vm q l)%R)).

(** The generator is consistent with the structural mask: the mask is
    not 1 on the diagonal, and off the diagonal the rate is 0 wherever the
    mask is not 1. *)
Definition mask_consistent (self : @Learner R) (n : nat) : Prop :=
  (forall i, (i < n)%nat -> at2 (Q_struct self) i i <> 1%R) /\
  (forall i j, (i < n)%nat -> (j < n)%nat -> i <> j ->
     at2 (Q_struct self) i j <> 1%R -> at2 (Q self) i j = 0%R).

(** Arrays without a negative entry. *)
Definition nonneg_vec (v : list R) : Prop := Forall (fun x => 0 <= x)%R v.
Definition nonneg_mat (a : list (list R)) : Prop := Forall nonneg_vec a.

(** The exponential and the densities of the library are not negative. *)
Definition library_nonneg (lib : NumLib R) : Prop :=
  (forall x, 0 <= np_exp lib x)%R /\
  (forall o mu sigma, 0 <= norm_pdf lib o mu sigma)%R /\
  (forall o mu var, 0 <= mvn_pdf lib o mu var)%R.

(** Every cached kernel is an [n x n] array of positive entries. *)
Definition kernels_positive (self : @Learner R) (n : nat) : Prop :=
  forall d t P,
    expm_Q_t self = Some d -> dict_get Reqb d t = Some P ->
    shape n n P /\
    forall k l, (k < n)%nat -> (l < n)%nat -> (0 < at2 P k l)%R.

(** Over a cached gap, the upper right block of [expm(A t)] (an integral
    of products of transition probabilities) has no negative entry. *)
Definition coupling_block_nonneg (lib : NumLib R) (self : @Learner R)
    (n : nat) : Prop :=
  forall d t P i j k l,
    expm_Q_t self = Some d -> dict_get Reqb d t = Some P ->
    (i < n)%nat -> (j < n)%nat -> (k < n)%nat -> (l < n)%nat ->
    (0 <= at2 (expm lib
                 (mscale_r (set2 (augmented n (Q self)) i (j + n) 1%R) t))
            k (l + n))%R.

(** [Q] is a matrix of rates: not negative off the diagonal, not positive
    on it. *)
Definition rates (self : @Learner R) (n : nat) : Prop :=
  (forall i j, (i < n)%nat -> (j < n)%nat -> i <> j ->
     (0 <= at2 (Q self) i j)%R) /\
  (forall i, (i < n)%nat -> (at2 (Q self) i i <= 0)%R).
(** An emission table whose densities are not negative. *)
Definition emissions_nonneg (em : list (Obs R * list R)) : Prop :=
  Forall (fun kv => nonneg_vec (snd kv)) em.

(** An array of [n] rows of [m] entries, over any carrier. *)
Definition dims {T : Type} (n m : nat) (a : list (list T)) : Prop :=
  length a = n /\ forall r, In r a -> length r = m.

(** What every loop of [create_Q_struct] keeps: the shape, the zero
    diagonal, and entries that are 0 or 1. *)
Definition mask_like {T : Type} `{Numeric T} (n : nat)
    (a : list (list T)) : Prop :=
  dims n n a /\
  (forall i, at2 a i i = zero) /\
  (forall i j, at2 a i j = zero \/ at2 a i j = one).
(** A two-state forward model in binary64 (state 0 can move to state 1,
    state 1 is absorbing), with its caches empty. *)
Module MoreInputs.
Definition learner_forward : @Learner float :=
  {| pi0 := [0.5%float; 0.5%float];
     ls_mu := PerMarker [[0%float; 1%float]]; num_state := 2;
     ls_sigma := PerMarker [[1%float; 1%float]];
     Q_struct := [[0%float; 1%float]; [0%float; 0%float]];
     Q := [[(-1)%float; 1%float]; [0%float; 0%float]];
     Q_orig := [[(-1)%float; 1%float]; [0%float; 0%float]];
     patients := []; method := "expm"; bound := true;
     time_intervals := Some []; expm_Q_t := None;
     U := None; D := None; V := None;
     TauI_end_state := None; Nij_end_state := None |}.

(** Statistics whose quotient for the pair (0, 1) is below 1e-10. *)
Definition Nij_small : list (list float) :=
  [[0.5%float; 0x1p-60%float]; [7%float; 0%float]].
Definition TauI_ones : list float := [1%float; 1%float].
End MoreInputs.

(** ** Decoding and prediction

    [Patient.viterbi_decoding] and [Patient.predict].  [observation_times]
    is a Python list here, as [viterbi_decoding] calls its method
    [index]. *)

Section Decoding.
Context {T : Type} `{Numeric T} (lib : NumLib T).
Local Open Scope num_scope.

(** Python's [x <= y] on floats. *)
Definition leb (x y : T) : bool := ltb x y || (x == y).

(** [bisect.insort(a, x)]: the binary search of [bisect_right], which
    halves [hi - lo] at least [len(a)] times at most, then
    [a.insert(lo, x)]. *)
Fixpoint bisect_right (fuel : nat) (a : list T) (x : T) (lo hi : nat)
  : nat :=
  match fuel with
  | 0%nat => lo
  | S fuel' =>
      if (lo <? hi)%nat then
        let mid := ((lo + hi) / 2)%nat in
        if ltb x (nth mid a zero) then bisect_right fuel' a x lo mid
        else bisect_right fuel' a x (S mid) hi
      else lo
  end.
Definition insort (a : list T) (x : T) : list T :=
  let lo := bisect_right (S (length a)) a x 0 (length a) in
  firstn lo a ++ x :: skipn lo a.

(** [np.argmax] of a non-empty list: the scan of numpy, which moves to a
    later entry that is not [<=] the current maximum and stops at the
    first NaN. *)
Fixpoint argmax_scan (mp : T) (best i : nat) (l : list T) : nat :=
  match l with
  | [] => best
  | x :: l' =>
      if isnan mp then best
      else if negb (leb x mp) then argmax_scan x i (S i) l'
           else argmax_scan mp best (S i) l'
  end.
Definition np_argmax (l : list T) : nat :=
  match l with
  | [] => 0%nat
  | x :: l' => argmax_scan x 0 1 l'
  end.

(** [a[i, j]] on a two-dimensional array, with the bounds check. *)
Definition index2 (what : string) (a : list (list T)) (i j : nat) : M T :=
  r <- index what a i ;; index what r j.

(** [curr_time in self.observation_times], then
    [self.observation_times.index(curr_time)]: both look for the first
    element that is the object [curr_time], which was read from position
    0, or that equals it. *)
Definition matches_time (curr_time : T) (ke : nat * T) : bool :=
  Nat.eqb (fst ke) 0 || (snd ke == curr_time).
Definition find_time (curr_time : T) (times : list T) : option nat :=
  option_map fst (find (matches_time curr_time) (enumerate times)).

(** The local state of [viterbi_decoding]: [enter_state_time],
    [miu_vals], [best_state_path]. *)
Definition Trellis : Type := (list T * list T * list (list nat))%type.

(** [np.arange(start, stop, 1).tolist()], which raises for bounds that
    are not finite. *)
Variable np_arange : T -> T -> M (list T).

(** The same for bounds at most 1 apart. *)
Definition arange_unit (start stop : T) : M (list T) :=
  ret (if ltb start stop then [start] else []).

(** Everything before the [while] loop: [(curr_time, state, times)]. *)
Definition viterbi_start (self : @Patient T) (ct_hmm_learner : @Learner T)
  : M (T * Trellis * list T) :=
  observation_times_ <- getattr "observation_times"
                          (observation_times self) ;;
  curr_time <- index "observation_times[0]" observation_times_ 0 ;;
  let n := num_state ct_hmm_learner in
  let enter_state_time := np_zeros n in
  let miu_vals := np_zeros n in
  let best_state_path := repeat ([] : list nat) n in
  obs <- getattr "O" (O self) ;;
  o0 <- index "O[0]" obs 0 ;;
  gaussian_emissions <- emission_Gaussian lib ct_hmm_learner o0 ;;
  em <- for_each (seq 0 n)
          (fun i '(enter_state_time, miu_vals) =>
             let enter_state_time := set1 enter_state_time i curr_time in
             state_pi0 <- index "pi0[i]" (pi0 ct_hmm_learner) i ;;
             e <- index "gaussian_emissions[i]" gaussian_emissions i ;;
             ret (enter_state_time, set1 miu_vals i (state_pi0 * e)))
          (enter_state_time, miu_vals) ;;
  last <- index "observation_times[-1]" observation_times_
            (length observation_times_ - 1) ;;
  times <- np_arange curr_time last ;;
  let times := fold_left insort (tl observation_times_) times in
  ret (curr_time, (fst em, snd em, best_state_path), times).

(** One pass through the body of the [while] loop. *)
Definition viterbi_pass (self : @Patient T) (ct_hmm_learner : @Learner T)
    (curr_time : T) (st : Trellis) : M Trellis :=
  let n := num_state ct_hmm_learner in
  observation_times_ <- getattr "observation_times"
                          (observation_times self) ;;
  gaussian_emissions <-
    match find_time curr_time observation_times_ with
    | Some idx =>
        obs <- getattr "O" (O self) ;;
        o <- index "O[idx]" obs idx ;;
        e <- emission_Gaussian lib ct_hmm_learner o ;;
        ret (Some e)
    | None => ret None      (* gaussian_emissions = 1 *)
    end ;;
  for_each (seq 0 n)
    (fun state_t '(enter_state_time, miu_vals, best_state_path) =>
       temp_miu_t_vals <-
         for_each (seq 0 n)
           (fun state_t_minus_1 temp_miu_t_vals =>
              q_t_minus_1_i <- index2 "Q[state_t_minus_1, state_t_minus_1]"
                                 (Q ct_hmm_learner)
                                 state_t_minus_1 state_t_minus_1 ;;
              transition_prob <-
                (if Nat.eqb state_t state_t_minus_1 then
                   ret ((- q_t_minus_1_i)
                        * np_exp lib
                            (q_t_minus_1_i
                             * (curr_time
                                - at1 enter_state_time state_t_minus_1)))
                 else
                   q <- index2 "Q[state_t_minus_1, state_t]"
                          (Q ct_hmm_learner) state_t_minus_1 state_t ;;
                   ret (q / q_t_minus_1_i)) ;;
              e <- match gaussian_emissions with
                   | Some l => index "gaussian_emissions[state_t]" l state_t
                   | None =>
                       raise (TypeError "'int' object is not subscriptable")
                   end ;;
              ret (temp_miu_t_vals
                   ++ [e * transition_prob * at1 miu_vals state_t_minus_1]))
           [] ;;
       let best := np_argmax temp_miu_t_vals in
       let enter_state_time :=
         if negb (Nat.eqb best state_t)
         then set1 enter_state_time state_t curr_time
         else enter_state_time in
       let miu_vals := set1 miu_vals state_t (at1 temp_miu_t_vals best) in
       ret (enter_state_time, miu_vals,
            set_nth state_t (nth state_t best_state_path [] ++ [best])
              best_state_path))
    st.

(** The [while curr_time <= self.end_time] loop, for at most [fuel]
    passes: [None] when it is still running after them.  No pass assigns
    [curr_time]. *)
Fixpoint viterbi_loop (fuel : nat) (self : @Patient T)
    (ct_hmm_learner : @Learner T) (curr_time : T) (st : Trellis)
  : option (M Trellis) :=
  if leb curr_time (end_time self) then
    match fuel with
    | 0%nat => None
    | S fuel' =>
        match viterbi_pass self ct_hmm_learner curr_time st with
        | (log, Ok st') =>
            match viterbi_loop fuel' self ct_hmm_learner curr_time st' with
            | Some (log', r) => Some (log ++ log', r)
            | None => None
            end
        | (log, Raise e) => Some (log, Raise e)
        end
    end
  else Some (ret st).

Definition viterbi_decoding (fuel : nat) (self : @Patient T)
    (ct_hmm_learner : @Learner T)
  : option (M (list (list nat) * list T)) :=
  match viterbi_start self ct_hmm_learner with
  | (log, Ok (curr_time, st, times)) =>
      match viterbi_loop fuel self ct_hmm_learner curr_time st with
      | Some (log', Ok st') => Some (log ++ log', Ok (snd st', times))
      | Some (log', Raise e) => Some (log ++ log', Raise e)
      | None => None
      end
  | (log, Raise e) => Some (log, Raise e)
  end.

(** *** [predict] *)

(** What [get_alpha_vector] returns first when [obs] is [None]: a vector,
    or the number [0 / 0] when [t] is 0 and [pi0] is left at its default
    0. *)
Inductive Predicted : Type :=
| PScalar (x : T)
| PVector (v : list T).

(** [get_alpha_vector(t, None, ct_hmm_learner, alpha_prev)]: [b] is the
    integer 1, [pi0] the integer 0. *)
Definition get_alpha_vector_None (t : T) (ct_hmm_learner : @Learner T)
    (alpha_prev : list T) : M (Predicted * T) :=
  if negb (t == zero) then
    expm_matrix <- kernel_or_expm locals_get_alpha_vector ct_hmm_learner t ;;
    let alpha :=
      map (mul one) (np_dot_mv (np_transpose expm_matrix) alpha_prev) in
    let c := np_sum alpha in
    ret (PVector (vdiv_scalar alpha c), c)
  else
    ret (PScalar (zero / zero), zero).

(** [np.array(ct_hmm_learner.ls_mu)] and [np.dot(mu, alpha_predict)]. *)
Variable Mu : Type.
Variable np_array : Params T -> M Mu.
Variable np_dot_mu : Mu -> Predicted -> M Predicted.

Definition predict (self : @Patient T) (t : T)
    (ct_hmm_learner : @Learner T) (predict_observations : bool)
  : M Predicted :=
  observation_times_ <- getattr "observation_times"
                          (observation_times self) ;;
  let prev_time :=
    fold_left
      (fun prev_time '(idx, obs_times) =>
         if ltb obs_times t then idx else prev_time)
      (enumerate observation_times_) 0%nat in
  last <- index "observation_times[-1]" observation_times_
            (length observation_times_ - 1) ;;
  Alpha_ <- getattr "Alpha" (Alpha self) ;;
  alpha_last <- index "Alpha[-1]" Alpha_ (length Alpha_ - 1) ;;
  ac <- get_alpha_vector_None (t - last) ct_hmm_learner alpha_last ;;
  let alpha_predict := fst ac in
  mu <- np_array (ls_mu ct_hmm_learner) ;;
  emit (Printed "alpha_predict") ;;;
  if predict_observations then np_dot_mu mu alpha_predict
  else ret alpha_predict.

End Decoding.

Set Implicit Arguments.

(** * Properties *)

(** ** The monad *)

Lemma bind_ret_l {A B} (a : A) (k : A -> M B) : bind (ret a) k = k a.
Proof. unfold bind, ret. destruct (k a) as [log r]. reflexivity. Qed.

Lemma bind_raise_l {A B} (e : PyExc) (k : A -> M B) :
  bind (raise e) k = raise e.
Proof. reflexivity. Qed.

Lemma outcome_bind_Ok {A B} (m : M A) (k : A -> M B) (b : B) :
  outcome (bind m k) = Ok b ->
  exists a, outcome m = Ok a /\ outcome (k a) = Ok b.
Proof.
  destruct m as [log [a | e]]; simpl.
  - destruct (k a) as [log' r] eqn:E. simpl. intros ->.
    exists a. rewrite E. auto.
  - discriminate.
Qed.

Lemma outcome_bind_intro {A B} (m : M A) (k : A -> M B) (a : A) :
  outcome m = Ok a -> outcome (bind m k) = outcome (k a).
Proof.
  destruct m as [log r]; simpl. intros ->.
  destruct (k a); reflexivity.
Qed.

Lemma outcome_bind_Raise {A B} (m : M A) (k : A -> M B) (e : PyExc) :
  outcome m = Raise e -> outcome (bind m k) = Raise e.
Proof. destruct m as [log r]; simpl. intros ->. reflexivity. Qed.

Lemma outcome_ret {A} (a b : A) : outcome (ret a) = Ok b -> a = b.
Proof. simpl. congruence. Qed.

Lemma outcome_getattr {A} name (o : option A) (a : A) :
  outcome (getattr name o) = Ok a -> o = Some a.
Proof. destruct o; simpl; congruence. Qed.

(** A loop keeps what every iteration keeps. *)
Lemma for_each_invariant {A S} (P : S -> Prop) (body : A -> S -> M S) :
  (forall x s s', P s -> outcome (body x s) = Ok s' -> P s') ->
  forall xs s s', P s -> outcome (for_each xs body s) = Ok s' -> P s'.
Proof.
  intros Hbody xs. induction xs as [| x xs IH]; intros s s' Hs Hrun.
  - apply outcome_ret in Hrun. now subst.
  - simpl in Hrun. apply outcome_bind_Ok in Hrun as (s1 & H1 & H2).
    eauto.
Qed.

(** A loop whose iterations either do nothing or raise [e] raises [e] as
    soon as one iteration raises. *)
Lemma for_each_ret_or_raise {A S} (e : PyExc) (body : A -> S -> M S) xs :
  (forall x s, body x s = ret s \/ body x s = raise e) ->
  forall s, for_each xs body s = ret s \/ for_each xs body s = raise e.
Proof.
  intros Hbody. induction xs as [| x xs IH]; intros s; simpl; [now left |].
  destruct (Hbody x s) as [-> | ->].
  - rewrite bind_ret_l. apply IH.
  - now right.
Qed.

Lemma for_each_raises {A S} (e : PyExc) (body : A -> S -> M S) xs x0 :
  (forall x s, body x s = ret s \/ body x s = raise e) ->
  In x0 xs -> (forall s, body x0 s = raise e) ->
  forall s, for_each xs body s = raise e.
Proof.
  intros Hbody Hin Hx0. induction xs as [| x xs IH]; intros s; [easy |].
  simpl. destruct (Hbody x s) as [E | E]; rewrite E.
  - rewrite bind_ret_l. destruct Hin as [-> | Hin].
    + rewrite Hx0 in E. discriminate.
    + now apply IH.
  - reflexivity.
Qed.

(** ** Construction *)

(** C9.  Whatever the [censored] argument of the constructor, the patient
    it builds has its [censored] attribute equal to [False]. *)
Theorem Patient_censored_is_False :
  forall (T : Type) (end_time : T) (censored_arg : bool),
    censored (Patient_init end_time censored_arg) = false.
Proof. reflexivity. Qed.

Lemma init_recognized_Ok {T : Type} `{Numeric T} (lib : NumLib T)
    Q0 pi0 mu0 mus ls_sigma (patients : list (@Patient T))
    structure m bound :
  Inputs.recognized structure = true ->
  exists l,
    outcome (CT_HMM_LEARNER_init lib Q0 pi0 (mu0 :: mus) ls_sigma
               patients structure m bound) = Ok l /\
    method l = m.
Proof.
  unfold Inputs.recognized, CT_HMM_LEARNER_init, create_Q_struct.
  intros Hrec.
  destruct (String.eqb structure "fc");
    [rewrite bind_ret_l; eexists; split; reflexivity |].
  destruct (String.eqb structure "forward_step");
    [rewrite bind_ret_l; eexists; split; reflexivity |].
  destruct (String.eqb structure "forward_any");
    [rewrite bind_ret_l; eexists; split; reflexivity |].
  discriminate.
Qed.

(** C7.  For a non-empty list of per-marker means, the constructor raises
    the exception of [create_Q_struct] (a plain [Exception], the
    structural configuration error of the specification) exactly when the
    topology name is none of the three recognized names; for a recognized
    name it returns a learner. *)
Theorem init_raises_iff_unknown_structure :
  forall (T : Type) (NT : Numeric T) (lib : NumLib T)
         (Q0 : option (list (list T))) (pi0 : list T)
         (mu0 : list T) (mus ls_sigma : list (list T))
         (patients : list (@Patient T))
         (structure method : string) (bound : bool),
    match outcome (CT_HMM_LEARNER_init lib Q0 pi0 (mu0 :: mus) ls_sigma
                     patients structure method bound) with
    | Ok _ => Inputs.recognized structure = true
    | Raise e =>
        Inputs.recognized structure = false /\
        e = Exception_
              "Unknown method, must be fc, forward_step, or forward_any"
    end.
Proof.
  intros. unfold CT_HMM_LEARNER_init, create_Q_struct, Inputs.recognized.
  destruct (String.eqb structure "fc") eqn:E1;
    [rewrite bind_ret_l; reflexivity |].
  destruct (String.eqb structure "forward_step") eqn:E2;
    [rewrite bind_ret_l; reflexivity |].
  destruct (String.eqb structure "forward_any") eqn:E3;
    [rewrite bind_ret_l; reflexivity |].
  simpl. auto.
Qed.

(** ** The precomputed end-state mode *)

Section EndState.
Context {T : Type} `{Numeric T} (lib : NumLib T).

Lemma Eigen_TauI_time_interval_end_state_raises (self : @Learner T) t Psi i :
  U self <> None -> V self <> None ->
  outcome (Eigen_TauI_time_interval_end_state self t Psi i)
  = Raise (NameError "j").
Proof.
  intros HU HV. unfold Eigen_TauI_time_interval_end_state.
  destruct (V self); [| congruence]. destruct (U self); [| congruence].
  reflexivity.
Qed.

Lemma Eigen_all_end_state_conditioned_raises (self : @Learner T) t ts n :
  time_intervals self = Some (t :: ts) -> num_state self = S n ->
  U self <> None -> V self <> None ->
  outcome (Eigen_all_end_state_conditioned lib self) = Raise (NameError "j").
Proof.
  intros Ht Hn HU HV. unfold Eigen_all_end_state_conditioned.
  cbn [time_intervals set_caches]. rewrite Ht. cbn [getattr].
  rewrite bind_ret_l. cbn [for_each num_state set_caches]. rewrite Hn.
  cbn [seq for_each].
  do 3 apply outcome_bind_Raise.
  now apply Eigen_TauI_time_interval_end_state_raises.
Qed.

End EndState.

(** C6.  With [fast_eigen=False] and the eigen method, the precomputation
    of the end-state kernels does not complete: as soon as there is one
    gap and one state, the first call of
    [Eigen_TauI_time_interval_end_state] raises [NameError] for the name
    [j], and so does the E-step. *)
Theorem precomputed_end_state_mode_raises_NameError :
  forall (T : Type) (NT : Numeric T) (lib : NumLib T) (self : @Learner T)
         (t : T) (ts : list T) (n : nat),
    method self = "eigen"%string ->
    time_intervals self = Some (t :: ts) ->
    num_state self = S n ->
    outcome (E_step lib self false) = Raise (NameError "j").
Proof.
  intros T NT lib self t ts n Hm Ht Hn. unfold E_step.
  unfold matrix_exponentials. rewrite Ht. cbn [getattr].
  rewrite !bind_ret_l. unfold set_eigendecomposition.
  cbn [Q set_caches]. destruct (eig lib (Q self)) as [d u].
  cbn [method set_caches negb andb]. rewrite Hm. cbn [String.eqb].
  apply outcome_bind_Raise.
  eapply Eigen_all_end_state_conditioned_raises; cbn; eauto; congruence.
Qed.

Lemma precomputed_end_state_mode_witness :
  outcome (E_step Exact.lib (Inputs.learner_two "eigen") false)
  = Raise (NameError "j").
Proof.
  apply (@precomputed_end_state_mode_raises_NameError R _ Exact.lib
           (Inputs.learner_two "eigen") (1 - 0)%R [] 1%nat);
    reflexivity.
Defined.

(** ** What the E-step hands to the M-step *)

Section Accumulators.
Context {T : Type} `{Numeric T} (lib : NumLib T).

Lemma outcome_matrix_exponentials (self s1 : @Learner T) :
  outcome (matrix_exponentials lib self) = Ok s1 ->
  exists ex, s1 = set_caches self (time_intervals self) (Some ex)
                    (U self) (D self) (V self)
                    (TauI_end_state self) (Nij_end_state self).
Proof.
  unfold matrix_exponentials. intros Hrun.
  apply outcome_bind_Ok in Hrun as (tis & _ & Hrun).
  apply outcome_ret in Hrun. eauto.
Qed.

Lemma same_model_refl (s : @Learner T) : same_model s s.
Proof. repeat split. Qed.

Lemma same_model_trans (s1 s2 s3 : @Learner T) :
  same_model s1 s2 -> same_model s2 s3 -> same_model s1 s3.
Proof. unfold same_model. intuition congruence. Qed.

Lemma same_model_set_caches (s : @Learner T) ti ex u d v te ne :
  same_model s (set_caches s ti ex u d v te ne).
Proof. repeat split. Qed.

Lemma Eigen_all_end_state_conditioned_same (s s' : @Learner T) :
  outcome (Eigen_all_end_state_conditioned lib s) = Ok s' -> same_model s s'.
Proof.
  unfold Eigen_all_end_state_conditioned. intros Hrun.
  apply outcome_bind_Ok in Hrun as (tis & _ & Hrun).
  revert Hrun.
  apply (for_each_invariant (same_model s)); [| repeat split].
  intros t s1 s2 Hs1. apply for_each_invariant; [| exact Hs1].
  intros i s3 s4 Hs3 Hrun.
  apply outcome_bind_Ok in Hrun as (s5 & H5 & Hrun).
  unfold Eigen_TauI_time_interval_end_state in H5.
  apply outcome_bind_Ok in H5 as (? & _ & H5).
  apply outcome_bind_Ok in H5 as (? & _ & H5).
  apply outcome_bind_Ok in H5 as (? & _ & H5). discriminate.
Qed.

(** The statistics and the emission accumulators that an iteration of the
    loop over the patients leaves untouched. *)
Lemma EM_patient_accum (self : @Learner T) fast_eigen patient a r :
  outcome (EM_patient lib self fast_eigen patient a) = Ok r ->
  acc_mu_numerator (snd r) = acc_mu_numerator a /\
  acc_mu_denominator (snd r) = acc_mu_denominator a /\
  acc_sigma_numerator (snd r) = acc_sigma_numerator a /\
  acc_sigma_denominator (snd r) = acc_sigma_denominator a /\
  (String.eqb (method self) "eigen" = false ->
   String.eqb (method self) "expm" = false ->
   acc_Nij (snd r) = acc_Nij a /\ acc_TauI (snd r) = acc_TauI a).
Proof.
  unfold EM_patient. intros Hrun.
  apply outcome_bind_Ok in Hrun as (p1 & _ & Hrun).
  apply outcome_bind_Ok in Hrun as ([[p2 Nij] TauI] & Hstat & Hrun).
  apply outcome_bind_Ok in Hrun as (p3 & _ & Hrun).
  apply outcome_bind_Ok in Hrun as (al & _ & Hrun).
  apply outcome_bind_Ok in Hrun as (p4 & _ & Hrun).
  apply outcome_bind_Ok in Hrun as (be & _ & Hrun).
  apply outcome_bind_Ok in Hrun as (T_ & _ & Hrun).
  apply outcome_bind_Ok in Hrun as (pi0s & _ & Hrun).
  apply outcome_ret in Hrun. subst r. cbn.
  repeat split; try reflexivity.
  - rewrite H0, H1 in Hstat. apply outcome_ret in Hstat. congruence.
  - rewrite H0, H1 in Hstat. apply outcome_ret in Hstat. congruence.
Qed.

Lemma E_step_accum (self s : @Learner T) fast_eigen a :
  outcome (E_step lib self fast_eigen) = Ok (s, a) ->
  same_model self s /\
  acc_mu_numerator a = np_zeros (num_state self) /\
  acc_mu_denominator a = np_zeros (num_state self) /\
  acc_sigma_numerator a = np_zeros (num_state self) /\
  acc_sigma_denominator a = np_zeros (num_state self) /\
  (String.eqb (method self) "eigen" = false ->
   String.eqb (method self) "expm" = false ->
   acc_Nij a = SInt 0 /\ acc_TauI a = SInt 0).
Proof.
  unfold E_step. intros Hrun.
  apply outcome_bind_Ok in Hrun as (s1 & H1 & Hrun).
  apply outcome_matrix_exponentials in H1 as (ex & ->).
  apply outcome_bind_Ok in Hrun as (s2 & H2 & Hrun).
  apply outcome_bind_Ok in Hrun as ([done a'] & Hloop & Hrun).
  apply outcome_ret in Hrun. injection Hrun as <- <-.
  assert (Hs2 : same_model self s2).
  { unfold set_eigendecomposition in H2. cbn [Q set_caches] in H2.
    destruct (eig lib (Q self)) as [d u].
    match type of H2 with
    | outcome (if ?c then _ else _) = _ => destruct c
    end.
    - apply Eigen_all_end_state_conditioned_same in H2.
      eapply same_model_trans; [| exact H2]. repeat split.
    - apply outcome_ret in H2. subst s2. repeat split. }
  split; [destruct Hs2 as (? & ? & ? & ? & ? & ? & ?); repeat split; cbn;
          assumption |].
  destruct Hs2 as (_ & _ & _ & Hm & _).
  revert Hloop.
  apply (for_each_invariant
           (fun da : list (@Patient T) * Accum =>
              acc_mu_numerator (snd da) = np_zeros (num_state self) /\
              acc_mu_denominator (snd da) = np_zeros (num_state self) /\
              acc_sigma_numerator (snd da) = np_zeros (num_state self) /\
              acc_sigma_denominator (snd da) = np_zeros (num_state self) /\
              (String.eqb (method self) "eigen" = false ->
               String.eqb (method self) "expm" = false ->
               acc_Nij (snd da) = SInt 0 /\ acc_TauI (snd da) = SInt 0)));
    [| cbn; auto 10].
  intros patient [done0 a0] [done1 a1] Hinv Hbody.
  apply outcome_bind_Ok in Hbody as (r & Hr & Hbody).
  apply outcome_ret in Hbody. injection Hbody as _ <-.
  apply EM_patient_accum in Hr as (E1 & E2 & E3 & E4 & E5).
  cbn [snd] in *. destruct Hinv as (I1 & I2 & I3 & I4 & I5).
  rewrite Hm in E5.
  repeat split; try congruence.
  - destruct (E5 H0 H1), (I5 H0 H1). congruence.
  - destruct (E5 H0 H1), (I5 H0 H1). congruence.
Qed.

End Accumulators.

(** ** The M-step on what the E-step hands over *)

Section MStep.
Context {T : Type} `{Numeric T} (lib : NumLib T).
Local Open Scope num_scope.

Lemma at1_np_zeros n i : at1 (np_zeros n) i = zero.
Proof.
  unfold at1, np_zeros. revert i.
  induction n as [| n IH]; intros [| i]; simpl; auto.
Qed.

Lemma map_const_seq {A} (x : A) n s : map (fun _ => x) (seq s n) = repeat x n.
Proof. revert s. induction n; intros s; simpl; [easy | now rewrite IHn]. Qed.

(** The quotients that the second loop appends. *)
Lemma second_loop_lists n us um mun mud sn sd Qm :
  snd (fst (second_loop n us um mun mud sn sd Qm))
  = (if um then map (fun i => at1 mun i / at1 mud i) (seq 0 n) else []) /\
  snd (second_loop n us um mun mud sn sd Qm)
  = (if us then map (fun i => at1 sn i / at1 sd i) (seq 0 n) else []).
Proof.
  unfold second_loop.
  assert (G : forall l Q0 a b,
             let r := fold_left
                        (fun '(Qm, ls_mu', ls_sigma') i =>
                           let Qm := set2 Qm i i zero in
                           let Qm := set2 Qm i i (- np_sum (row Qm i)) in
                           (Qm,
                            if um then ls_mu' ++ [at1 mun i / at1 mud i]
                            else ls_mu',
                            if us then ls_sigma' ++ [at1 sn i / at1 sd i]
                            else ls_sigma'))
                        l (Q0, a, b) in
             snd (fst r)
             = a ++ (if um then map (fun i => at1 mun i / at1 mud i) l
                     else []) /\
             snd r
             = b ++ (if us then map (fun i => at1 sn i / at1 sd i) l
                     else [])).
  { induction l as [| i l IH]; intros Q0 a b; cbn.
    - destruct um, us; rewrite !app_nil_r; auto.
    - destruct (IH (set2 (set2 Q0 i i zero) i i
                      (- np_sum (row (set2 Q0 i i zero) i)))
                   (if um then a ++ [at1 mun i / at1 mud i] else a)
                   (if us then b ++ [at1 sn i / at1 sd i] else b))
        as [E1 E2].
      cbn in E1, E2. rewrite E1, E2.
      destruct um, us; cbn; rewrite <- ?app_assoc, ?app_nil_r; auto. }
  apply (G (seq 0 n) Qm [] []).
Qed.

Lemma update_model_params_emissions (self self' : @Learner T) Nij TauI
    mun mud p0n p0d sn sd us um :
  outcome (update_model_params self Nij TauI mun mud p0n p0d sn sd us um)
  = Ok self' ->
  (um = true ->
   ls_mu self'
   = Flat (map (fun i => at1 mun i / at1 mud i) (seq 0 (num_state self)))) /\
  (us = true ->
   ls_sigma self'
   = Flat (map (fun i => at1 sn i / at1 sd i) (seq 0 (num_state self)))).
Proof.
  unfold update_model_params. intros Hrun.
  apply outcome_bind_Ok in Hrun as (Qm & _ & Hrun).
  destruct (second_loop_lists (num_state self) us um mun mud sn sd Qm)
    as [E1 E2].
  destruct (second_loop (num_state self) us um mun mud sn sd Qm)
    as [[Q1 m1] s1].
  cbn in E1, E2. apply outcome_ret in Hrun. subst self'. cbn.
  split; intros ->; congruence.
Qed.

(** With the integer statistics, the first allowed pair stops the
    M-step. *)
Lemma update_model_params_int_stats (self : @Learner T) z z'
    mun mud p0n p0d sn sd us um i j :
  (i < num_state self)%nat -> (j < num_state self)%nat ->
  (at2 (Q_struct self) i j == one) = true ->
  update_model_params self (SInt z) (SInt z') mun mud p0n p0d sn sd us um
  = raise (TypeError "'int' object is not subscriptable").
Proof.
  intros Hi Hj Hij. unfold update_model_params.
  set (e := TypeError "'int' object is not subscriptable").
  assert (Hbody : forall i' j' Qm',
             (if at2 (Q_struct self) i' j' == one
              then update_rate (bound self) (SInt z) (SInt z') i' j' Qm'
              else ret Qm') = ret Qm' \/
             (if at2 (Q_struct self) i' j' == one
              then update_rate (bound self) (SInt z) (SInt z') i' j' Qm'
              else ret Qm') = raise e).
  { intros i' j' Qm'. destruct (at2 (Q_struct self) i' j' == one); auto. }
  rewrite (@for_each_raises _ _ e _ (seq 0 (num_state self)) i).
  - reflexivity.
  - intros i' Qm. apply for_each_ret_or_raise. intros j' Qm'. apply Hbody.
  - apply in_seq. lia.
  - intros Qm. apply (@for_each_raises _ _ e _ _ j).
    + intros j' Qm'. apply Hbody.
    + apply in_seq. lia.
    + intros Qm'. rewrite Hij. reflexivity.
Qed.

End MStep.

(** C8.  In every EM step the emission accumulators that reach the M-step
    are the zero arrays they were created as; with mean re-estimation
    enabled each new emission mean is therefore the quotient [0/0], and the
    same holds for the variances when their re-estimation is enabled. *)
Theorem emission_update_divides_zero_by_zero :
  forall (T : Type) (NT : Numeric T) (lib : NumLib T) (self : @Learner T)
         (fast_eigen : bool),
    (forall s a,
        outcome (E_step lib self fast_eigen) = Ok (s, a) ->
        acc_mu_numerator a = np_zeros (num_state self) /\
        acc_mu_denominator a = np_zeros (num_state self) /\
        acc_sigma_numerator a = np_zeros (num_state self) /\
        acc_sigma_denominator a = np_zeros (num_state self)) /\
    (forall update_sigma self',
        outcome (EM_step lib self update_sigma true fast_eigen) = Ok self' ->
        ls_mu self' = Flat (repeat (div zero zero) (num_state self))) /\
    (forall update_mu self',
        outcome (EM_step lib self true update_mu fast_eigen) = Ok self' ->
        ls_sigma self' = Flat (repeat (div zero zero) (num_state self))).
Proof.
  intros T NT lib self fast_eigen. split; [| split].
  - intros s a Hrun. apply E_step_accum in Hrun. tauto.
  - intros us self' Hrun. unfold EM_step in Hrun.
    apply outcome_bind_Ok in Hrun as ([s a] & HE & Hrun).
    apply E_step_accum in HE as (Hsame & E1 & E2 & _).
    apply update_model_params_emissions in Hrun as [Hmu _].
    rewrite (Hmu eq_refl). cbn [fst snd]. rewrite E1, E2.
    destruct Hsame as (-> & _). f_equal.
    rewrite <- (map_const_seq _ _ 0). apply map_ext.
    intros i. now rewrite at1_np_zeros.
  - intros um self' Hrun. unfold EM_step in Hrun.
    apply outcome_bind_Ok in Hrun as ([s a] & HE & Hrun).
    apply E_step_accum in HE as (Hsame & _ & _ & E3 & E4 & _).
    apply update_model_params_emissions in Hrun as [_ Hsig].
    rewrite (Hsig eq_refl). cbn [fst snd]. rewrite E3, E4.
    destruct Hsame as (-> & _). f_equal.
    rewrite <- (map_const_seq _ _ 0). apply map_ext.
    intros i. now rewrite at1_np_zeros.
Qed.

(** In binary64 the quotient [0/0] is NaN. *)
Lemma float_zero_over_zero_is_nan :
  isnan (div (zero : float) zero) = true.
Proof. reflexivity. Qed.

(** C10.  A method string other than "eigen" and "expm" is accepted by the
    constructor unchecked; an E-step then leaves [Nij] and [TauI] the
    integer 0 they start as, and the M-step fails with a [TypeError] at
    the first allowed pair where it subscripts them. *)
Theorem unknown_method_fails_only_in_the_M_step :
  forall (T : Type) (NT : Numeric T) (lib : NumLib T) (m : string),
    m <> "eigen"%string -> m <> "expm"%string ->
    (forall Q0 pi0 mu0 mus ls_sigma patients structure bound,
        Inputs.recognized structure = true ->
        exists l,
          outcome (CT_HMM_LEARNER_init lib Q0 pi0 (mu0 :: mus) ls_sigma
                     patients structure m bound) = Ok l /\
          method l = m) /\
    (forall (self s : @Learner T) fast_eigen update_sigma update_mu a,
        method self = m ->
        outcome (E_step lib self fast_eigen) = Ok (s, a) ->
        acc_Nij a = SInt 0 /\ acc_TauI a = SInt 0 /\
        (forall i j,
            (i < num_state self)%nat -> (j < num_state self)%nat ->
            eqb (at2 (Q_struct self) i j) one = true ->
            outcome (EM_step lib self update_sigma update_mu fast_eigen)
            = Raise (TypeError "'int' object is not subscriptable"))).
Proof.
  intros T NT lib m Hne Hnx. split.
  - intros Q0 pi0 mu0 mus ls_sigma patients structure bound Hrec.
    now apply init_recognized_Ok.
  - intros self s fast_eigen us um a Hm Hrun.
    pose proof (E_step_accum _ _ _ Hrun) as (Hsame & _ & _ & _ & _ & Hstat).
    rewrite Hm in Hstat.
    destruct Hstat as [EN ET]; [now apply String.eqb_neq ..|].
    repeat split; [assumption .. |].
    intros i j Hi Hj Hij. unfold EM_step.
    rewrite (outcome_bind_intro _ _ Hrun). cbn [fst snd].
    rewrite EN, ET.
    destruct Hsame as (En & Es & _).
    rewrite (@update_model_params_int_stats T NT s 0 0 _ _ _ _ _ _ us um
               i j); [reflexivity | congruence | congruence | congruence].
Qed.

(** ** NaN handling *)

Lemma Reqb_refl (x : R) : Reqb x x = true.
Proof. unfold Reqb. destruct (Req_dec_T x x); congruence. Qed.

Lemma Reqb_neq (x y : R) : x <> y -> Reqb x y = false.
Proof. unfold Reqb. destruct (Req_dec_T x y); congruence. Qed.

Section NaN.
Context {T : Type} `{Numeric T} (lib : NumLib T).
Local Open Scope num_scope.

(** A loop whose iterations all return returns. *)
Lemma for_each_total {A S} (body : A -> S -> M S) xs :
  (forall x s, exists s', outcome (body x s) = Ok s') ->
  forall s, exists s', outcome (for_each xs body s) = Ok s'.
Proof.
  intros Hbody. induction xs as [| x xs IH]; intros s; simpl; [eauto |].
  destruct (Hbody x s) as [s1 E1]. destruct (IH s1) as [s2 E2].
  exists s2. now rewrite (outcome_bind_intro _ _ E1).
Qed.

Lemma update_rate_arrays self_bound (Nm : mat) (Tau : vec) i j (Qm : mat) :
  let Qm' := set2 Qm i j (at2 Nm i j / at1 Tau i) in
  let q := at2 Qm' i j in
  update_rate self_bound (SArr Nm) (SArr Tau) i j Qm
  = (if isnan q then [PdbSetTrace "update_model_params"] else [],
     Ok (if self_bound
         then if ltb q lit_1e_10 then set2 Qm' i j lit_1e_10 else Qm'
         else Qm')).
Proof.
  intros Qm' q. unfold update_rate. cbn [subscript2 subscript1].
  rewrite !bind_ret_l. fold Qm'. fold q.
  destruct (isnan q); reflexivity.
Qed.

Lemma update_model_params_arrays_total (self : @Learner T) (Nm : mat)
    (Tau : vec) mun mud p0n p0d sn sd us um :
  exists self',
    outcome (update_model_params self (SArr Nm) (SArr Tau)
               mun mud p0n p0d sn sd us um) = Ok self'.
Proof.
  unfold update_model_params.
  destruct (@for_each_total _ _
              (fun i Qm =>
                 for_each (seq 0 (num_state self))
                   (fun j Qm =>
                      if at2 (Q_struct self) i j == one
                      then update_rate (bound self) (SArr Nm) (SArr Tau)
                             i j Qm
                      else ret Qm) Qm)
              (seq 0 (num_state self))) with (s := Q self) as [Qm E].
  - intros i Qm. apply for_each_total. intros j Qm'.
    destruct (at2 (Q_struct self) i j == one); [| simpl; eauto].
    rewrite update_rate_arrays. simpl. eauto.
  - rewrite (outcome_bind_intro _ _ E).
    destruct (second_loop _ _ _ _ _ _ _ _) as [[Q1 m1] s1].
    simpl. eauto.
Qed.

Lemma get_beta_vector_checked (patient : @Patient T) (Cv : vec) t i o
    (learner : @Learner T) (after : vec) em b d P c :
  emissions patient = Some em -> dict_get obs_eqb em o = Some b ->
  expm_Q_t learner = Some d -> dict_get eqb d t = Some P ->
  nth_error Cv (i + 1) = Some c ->
  let beta :=
    vdiv_scalar
      (map (np_exp lib)
         (logsumexp_rows lib
            (map (fun prow =>
                    vadd (vadd (map (np_log lib) after)
                               (map (np_log lib) prow))
                         (map (np_log lib) b)) P))) c in
  get_beta_vector lib patient Cv t i o learner after
  = (if any_isnan beta then [PdbSetTrace "get_beta_vector"] else [],
     Ok beta).
Proof.
  intros Hem Hb Hd HP Hc beta. unfold get_beta_vector, b_s, kernel_or_expm.
  rewrite Hem. cbn [getattr]. rewrite bind_ret_l.
  unfold dict_lookup. rewrite Hb, bind_ret_l.
  rewrite Hd. cbn [getattr]. rewrite !bind_ret_l. rewrite HP, bind_ret_l.
  unfold index. rewrite Hc, bind_ret_l. fold beta.
  destruct (any_isnan beta); reflexivity.
Qed.

End NaN.

(** ** The two-state example, step by step

    The E-step of [Inputs.learner_two] in exact arithmetic: every function
    of the pipeline evaluated on the example, in the order [EM_step] calls
    them. *)

Module TwoState.
Import Inputs.
Local Open Scope R_scope.

Ltac struct_eq :=
  repeat match goal with
         | |- @eq ?A _ _ =>
             lazymatch A with
             | R => fail
             | _ => f_equal
             end
         end.

Lemma trace_Q_two_gap :
  Exact.trace2 (mscale_r Q_two (1 - 0)) = -2.
Proof. unfold Exact.trace2. cbn. lra. Qed.

Lemma expm_Q_two_gap :
  Exact.expm_exact (mscale_r Q_two (1 - 0)) = kernel_two.
Proof.
  unfold Exact.expm_exact.
  change (Nat.eqb (length (mscale_r Q_two (1 - 0))) 2) with true.
  cbv iota. unfold Exact.expm2. rewrite trace_Q_two_gap.
  unfold Exact.phi, kernel_two. fold e2. cbn. struct_eq; field.
Qed.

Lemma matrix_exponentials_two m :
  matrix_exponentials Exact.lib (learner_two m)
  = ret (set_caches (learner_two m) (Some [1 - 0])
           (Some [(1 - 0, kernel_two)]) None None None None None).
Proof.
  unfold matrix_exponentials. cbn [time_intervals learner_two getattr].
  rewrite bind_ret_l. cbn [fold_left dict_set].
  change (expm Exact.lib (mscale_r (Q (learner_two m)) (1 - 0)))
    with (Exact.expm_exact (mscale_r Q_two (1 - 0))).
  rewrite expm_Q_two_gap. reflexivity.
Qed.

Lemma set_eigendecomposition_two m :
  set_eigendecomposition Exact.lib
    (set_caches (learner_two m) (Some [1 - 0])
           (Some [(1 - 0, kernel_two)]) None None None None None)
  = learner_two_cached m.
Proof.
  unfold set_eigendecomposition, learner_two_cached. cbn.
  unfold Exact.trace2, Exact.inv_exact, set_caches, learner_two,
    U_two, V_two, D_two. cbn.
  struct_eq; try reflexivity; try lra; try (field; lra).
Qed.

Lemma pdf_half_pos : 0 < pdf_half.
Proof.
  unfold pdf_half, Exact.gaussian. apply Rdiv_lt_0_compat.
  - apply exp_pos.
  - apply sqrt_lt_R0. pose proof PI_RGT_0. nra.
Qed.

Lemma pdf_half_other : Exact.gaussian (/ 2) 1 (1 * 1) = pdf_half.
Proof.
  unfold pdf_half, Exact.gaussian. do 2 f_equal. field.
Qed.

Lemma get_all_emissions_two m :
  get_all_emissions_gaussian Exact.lib patient_two (learner_two_cached m)
  = ret (patient_two_tables None None None).
Proof.
  unfold get_all_emissions_gaussian. cbn.
  rewrite !Reqb_refl. cbn. rewrite pdf_half_other. fold pdf_half.
  reflexivity.
Qed.

#[local] Arguments bind : simpl never.
#[local] Arguments Reqb : simpl never.
#[local] Arguments Rltb : simpl never.
#[local] Arguments pdf_half : simpl never.

Ltac run := repeat (rewrite ?bind_ret_l, ?Reqb_refl; cbn).

Lemma Reqb_gap_zero : Reqb (1 - 0) 0 = false.
Proof. apply Reqb_neq. lra. Qed.

Lemma get_alpha_vector_first m al c be :
  get_alpha_vector (patient_two_tables al c be) 0 (ObsScalar (/ 2))
    (learner_two_cached m) [] (Some [/ 2; / 2])
  = ret ([/ 2; / 2], pdf_half).
Proof.
  unfold get_alpha_vector, b_s, dict_lookup. run.
  pose proof pdf_half_pos.
  unfold ret. struct_eq; field; lra.
Qed.

Lemma get_alpha_vector_second m al c be :
  get_alpha_vector (patient_two_tables al c be) (1 - 0) (ObsScalar (/ 2))
    (learner_two_cached m) [/ 2; / 2] None
  = ret ([/ 2; / 2], pdf_half).
Proof.
  unfold get_alpha_vector, b_s, dict_lookup, kernel_or_expm. run.
  rewrite Reqb_gap_zero. run.
  pose proof pdf_half_pos.
  unfold ret. struct_eq; field; lra.
Qed.

Lemma alpha_two m al c be :
  alpha_forward_recursion (patient_two_tables al c be) (learner_two_cached m)
  = ret (patient_two_tables (Some Alpha_two) (Some C_two) be).
Proof.
  unfold alpha_forward_recursion. run.
  rewrite get_alpha_vector_first. run.
  rewrite get_alpha_vector_second. run.
  reflexivity.
Qed.

Lemma e2_bounds : 0 < e2 < 1.
Proof.
  unfold e2. split; [apply exp_pos |].
  rewrite <- exp_0. apply exp_increasing. lra.
Qed.

Lemma exp_log_term (x g : R) :
  0 < x -> 0 < g -> exp (ln 1 + ln x + ln g) = x * g.
Proof.
  intros Hx Hg. rewrite ln_1, Rplus_0_l, exp_plus, !exp_ln by assumption.
  reflexivity.
Qed.

Lemma get_beta_vector_two m al c be :
  get_beta_vector Exact.lib (patient_two_tables al c be) C_two (1 - 0) 0
    (ObsScalar (/ 2)) (learner_two_cached m) [1; 1]
  = ret [1; 1].
Proof.
  unfold get_beta_vector, b_s, dict_lookup, kernel_or_expm. run.
  pose proof pdf_half_pos. pose proof e2_bounds.
  rewrite !exp_log_term by lra.
  rewrite !exp_ln by nra.
  unfold ret. struct_eq; field; lra.
Qed.

Lemma beta_two m al be :
  beta_backward_recursion Exact.lib
    (patient_two_tables al (Some C_two) be) (learner_two_cached m)
  = ret (patient_two_tables al (Some C_two) (Some Beta_two)).
Proof.
  unfold beta_backward_recursion. run.
  rewrite get_beta_vector_two. run.
  reflexivity.
Qed.

Lemma zeta_at_two m al c :
  zeta_at (learner_two_cached m) (patient_two_tables al c (Some Beta_two))
    Alpha_two Beta_two (1 - 0) 1
  = ret Zeta_two.
Proof.
  unfold zeta_at, get_zeta, b_s, dict_lookup. run.
  pose proof pdf_half_pos. pose proof e2_bounds.
  unfold ret, zeta, Zeta_two. cbn. struct_eq; field; lra.
Qed.

Lemma gap_at_two al c be : gap_at (patient_two_tables al c be) 1 = ret (1 - 0).
Proof. reflexivity. Qed.

Ltac fold_e2 :=
  repeat match goal with
         | |- context [exp ?a] =>
             replace (exp a) with e2 by (unfold e2; f_equal; lra)
         end.

Lemma kernel_two_nonzero k l :
  (k < 2)%nat -> (l < 2)%nat -> Reqb (at2 kernel_two k l) 0 = false.
Proof.
  intros Hk Hl. apply Reqb_neq. pose proof e2_bounds.
  destruct k as [| [| k]]; [| | lia];
    (destruct l as [| [| l]]; [| | lia]); cbn; lra.
Qed.

Lemma expm_gap_sum_two m al c i j :
  (i < 2)%nat -> (j < 2)%nat ->
  expm_gap_sum Exact.lib (learner_two_cached m)
    (patient_two_tables al c (Some Beta_two)) Alpha_two Beta_two
    (augmented 2 Q_two) i j 1
  = ret (/ 2).
Proof.
  intros Hi Hj. unfold expm_gap_sum. rewrite gap_at_two, bind_ret_l.
  cbn [expm_Q_t learner_two_cached getattr]. rewrite bind_ret_l.
  unfold dict_lookup. cbn [dict_get]. rewrite Reqb_refl, bind_ret_l.
  rewrite zeta_at_two, bind_ret_l.
  unfold expm_temp_sum. cbn [seq fold_left num_state learner_two_cached].
  rewrite !kernel_two_nonzero by lia. cbn [negb].
  pose proof e2_bounds.
  destruct i as [| [| i]]; [| | lia];
    (destruct j as [| [| j]]; [| | lia]).
  all: cbn; unfold Exact.phi, Exact.phi_1, Exact.phi_2, Exact.trace2; cbn;
    fold_e2; unfold ret; struct_eq; field; lra.
Qed.

Lemma get_all_emissions_tables m al c be :
  get_all_emissions_gaussian Exact.lib (patient_two_tables al c be)
    (learner_two_cached m)
  = ret (patient_two_tables al c be).
Proof.
  unfold get_all_emissions_gaussian. run.
  rewrite pdf_half_other. reflexivity.
Qed.

Lemma Expm_two m :
  Expm_TauI_Nij_all_times Exact.lib (learner_two_cached m)
    (patient_two_tables None None None)
  = ret (patient_two_done, (TauI_two, Nij_expm_two)).
Proof.
  unfold Expm_TauI_Nij_all_times.
  cbn [num_obs patient_two_tables getattr]. rewrite bind_ret_l.
  rewrite alpha_two, bind_ret_l.
  cbn [Alpha patient_two_tables getattr]. rewrite bind_ret_l.
  rewrite beta_two, bind_ret_l.
  cbn [Beta patient_two_tables getattr]. rewrite bind_ret_l.
  rewrite get_all_emissions_tables, bind_ret_l.
  cbn [num_state learner_two_cached seq for_each Nat.sub Q Q_struct].
  rewrite !expm_gap_sum_two by lia.
  rewrite !bind_ret_l. cbn -[bind Reqb expm_gap_sum augmented].
  rewrite (@Reqb_neq 0 1) by lra. run.
  unfold ret, patient_two_done, TauI_two, Nij_expm_two, Nij_eigen_two.
  struct_eq; lra.
Qed.

Lemma calculate_Psi_eigen_two m :
  calculate_Psi_eigen Exact.lib (learner_two_cached m) (1 - 0) = Psi_two.
Proof.
  unfold calculate_Psi_eigen, Psi_entry. cbn.
  unfold Exact.trace2. cbn.
  rewrite !Reqb_refl.
  rewrite (@Reqb_neq 0 (-1 + -1)), (@Reqb_neq (-1 + -1) 0) by lra.
  replace (exp ((1 - 0) * 0)) with 1 by (rewrite <- exp_0; f_equal; lra).
  fold_e2. unfold Psi_two. struct_eq; field.
Qed.

Lemma Eigen_Nij_time_interval_two m :
  Eigen_Nij_time_interval (learner_two_cached m) Zeta_two (1 - 0) Psi_two
  = ret Nij_eigen_two.
Proof.
  unfold Eigen_Nij_time_interval, dict_lookup. run.
  pose proof e2_bounds.
  unfold ret, Nij_eigen_two. struct_eq; try reflexivity; field; lra.
Qed.

Lemma Eigen_TauI_time_interval_two m :
  Eigen_TauI_time_interval (learner_two_cached m) Zeta_two (1 - 0) Psi_two
  = ret TauI_two.
Proof.
  unfold Eigen_TauI_time_interval, dict_lookup. run.
  pose proof e2_bounds.
  unfold ret, TauI_two. struct_eq; field; lra.
Qed.

Lemma Eigen_Nij_two m :
  Eigen_Nij_all_times Exact.lib (learner_two_cached m)
    (patient_two_tables None None None) true
  = ret (patient_two_done, Nij_eigen_two).
Proof.
  unfold Eigen_Nij_all_times.
  cbn [num_obs patient_two_tables getattr]. rewrite bind_ret_l.
  rewrite alpha_two, bind_ret_l.
  cbn [Alpha patient_two_tables getattr]. rewrite bind_ret_l.
  rewrite beta_two, bind_ret_l.
  cbn [Beta patient_two_tables getattr]. rewrite bind_ret_l.
  rewrite get_all_emissions_tables, bind_ret_l.
  cbn [num_state learner_two_cached seq for_each Nat.sub].
  rewrite gap_at_two, bind_ret_l, zeta_at_two, bind_ret_l.
  rewrite calculate_Psi_eigen_two, Eigen_Nij_time_interval_two.
  run. unfold ret, patient_two_done, TauI_two, Nij_expm_two, Nij_eigen_two.
  struct_eq; lra.
Qed.

Lemma Eigen_TauI_two m :
  Eigen_TauI_all_times Exact.lib (learner_two_cached m) patient_two_done true
  = ret (patient_two_done, TauI_two).
Proof.
  unfold Eigen_TauI_all_times, patient_two_done.
  cbn [num_obs patient_two_tables getattr]. rewrite bind_ret_l.
  rewrite alpha_two, bind_ret_l.
  cbn [Alpha patient_two_tables getattr]. rewrite bind_ret_l.
  rewrite beta_two, bind_ret_l.
  cbn [Beta patient_two_tables getattr]. rewrite bind_ret_l.
  cbn [num_state learner_two_cached seq for_each Nat.sub].
  rewrite gap_at_two, bind_ret_l, zeta_at_two, bind_ret_l.
  rewrite calculate_Psi_eigen_two, Eigen_TauI_time_interval_two.
  run. unfold ret, patient_two_done, TauI_two, Nij_expm_two, Nij_eigen_two.
  struct_eq; lra.
Qed.

Lemma get_all_emissions_patient_two m :
  get_all_emissions_gaussian Exact.lib patient_two (learner_two_cached m)
  = ret (patient_two_tables None None None).
Proof.
  unfold get_all_emissions_gaussian. run.
  rewrite pdf_half_other. reflexivity.
Qed.

Lemma EM_patient_two m :
  EM_patient Exact.lib (learner_two_cached m) true patient_two
    (initial_accum 2)
  = ret (patient_two_done,
         accum_two (fst (stats_two m)) (snd (stats_two m))).
Proof.
  unfold EM_patient. rewrite get_all_emissions_patient_two, bind_ret_l.
  cbn [method learner_two_cached]. unfold stats_two.
  destruct (String.eqb m "eigen").
  - rewrite Eigen_Nij_two, bind_ret_l. cbn [fst snd].
    rewrite Eigen_TauI_two, !bind_ret_l.
    unfold patient_two_done. cbn [fst snd]. rewrite alpha_two, bind_ret_l.
    cbn [Alpha patient_two_tables getattr]. rewrite bind_ret_l.
    rewrite beta_two, bind_ret_l. run.
    unfold ret, patient_two_done, accum_two, TauI_two, Nij_expm_two,
        Nij_eigen_two. struct_eq; lra.
  - destruct (String.eqb m "expm").
    + rewrite Expm_two, bind_ret_l. cbn [fst snd]. rewrite bind_ret_l.
      unfold patient_two_done. cbn [fst snd].
      rewrite alpha_two, bind_ret_l.
      cbn [Alpha patient_two_tables getattr]. rewrite bind_ret_l.
      rewrite beta_two, bind_ret_l. run.
      unfold ret, patient_two_done, accum_two, TauI_two, Nij_expm_two,
        Nij_eigen_two. struct_eq; lra.
    + rewrite !bind_ret_l. cbn [fst snd].
      rewrite alpha_two, bind_ret_l.
      cbn [Alpha patient_two_tables getattr]. rewrite bind_ret_l.
      rewrite beta_two, bind_ret_l. run.
      unfold ret, patient_two_done, accum_two, TauI_two, Nij_expm_two,
        Nij_eigen_two. struct_eq; lra.
Qed.

Lemma E_step_two m :
  E_step Exact.lib (learner_two m) true
  = ret (set_patients (learner_two_cached m) [patient_two_done],
         accum_two (fst (stats_two m)) (snd (stats_two m))).
Proof.
  unfold E_step. rewrite matrix_exponentials_two, bind_ret_l.
  rewrite set_eigendecomposition_two. cbn [negb andb]. rewrite bind_ret_l.
  cbn [patients learner_two_cached for_each].
  change (num_state (learner_two m)) with 2%nat.
  rewrite EM_patient_two. run. reflexivity.
Qed.

End TwoState.

(** ** The example as a witness *)

(** C8: the EM step of the example returns, with both new state means
    equal to the quotient [0/0]. *)
Lemma emission_update_witness :
  exists self',
    outcome (EM_step Exact.lib (Inputs.learner_two "expm") false true true)
    = Ok self' /\
    ls_mu self' = Flat [(0 / 0)%R; (0 / 0)%R].
Proof.
  destruct (update_model_params_arrays_total
              (set_patients (Inputs.learner_two_cached "expm")
                 [Inputs.patient_two_done])
              Inputs.Nij_expm_two Inputs.TauI_two
              [0; 0]%R [0; 0]%R [/ 2; / 2]%R [1; 1]%R [0; 0]%R [0; 0]%R
              false true) as [self' Hself'].
  assert (Hrun : outcome (EM_step Exact.lib (Inputs.learner_two "expm")
                            false true true) = Ok self').
  { unfold EM_step. rewrite TwoState.E_step_two, bind_ret_l. exact Hself'. }
  exists self'. split; [exact Hrun |].
  exact (proj1 (proj2 (@emission_update_divides_zero_by_zero R _ Exact.lib
                         (Inputs.learner_two "expm") true))
           false self' Hrun).
Defined.

(** C10: with the method string "viterbi" the constructor returns, the
    E-step of the example returns with integer statistics, and the EM step
    raises [TypeError]. *)
Lemma unknown_method_witness :
  outcome (EM_step Exact.lib (Inputs.learner_two "viterbi") false true true)
  = Raise (TypeError "'int' object is not subscriptable").
Proof.
  assert (Hne : "viterbi"%string <> "eigen"%string) by discriminate.
  assert (Hnx : "viterbi"%string <> "expm"%string) by discriminate.
  assert (Hrun : outcome (E_step Exact.lib (Inputs.learner_two "viterbi")
                            true)
                 = Ok (set_patients (Inputs.learner_two_cached "viterbi")
                         [Inputs.patient_two_done],
                       Inputs.accum_two (SInt 0) (SInt 0))).
  { rewrite TwoState.E_step_two. reflexivity. }
  refine (proj2 (proj2 (proj2 (@unknown_method_fails_only_in_the_M_step
                                 R _ Exact.lib "viterbi" Hne Hnx)
                          (Inputs.learner_two "viterbi") _ true false true _
                          eq_refl Hrun))
            0%nat 1%nat _ _ _).
  - simpl. lia.
  - simpl. lia.
  - simpl. apply Reqb_refl.
Defined.




(** ** The Psi matrix *)

Lemma at2_map_seq {T : Type} `{Numeric T} (f : nat -> nat -> T) n m p q :
  (p < n)%nat -> (q < m)%nat ->
  at2 (map (fun p => map (fun q => f p q) (seq 0 m)) (seq 0 n)) p q = f p q.
Proof.
  intros Hp Hq. unfold at2, row, at1.
  rewrite (nth_indep _ [] (map (fun q => f 0%nat q) (seq 0 m)))
    by (rewrite length_map, length_seq; lia).
  rewrite (map_nth (fun p => map (fun q => f p q) (seq 0 m)) (seq 0 n) 0%nat).
  rewrite seq_nth by lia. cbn [Nat.add].
  rewrite (nth_indep _ zero (f p 0%nat))
    by (rewrite length_map, length_seq; lia).
  rewrite (map_nth (fun q => f p q) (seq 0 m) 0%nat).
  now rewrite seq_nth by lia.
Qed.




(** ** Training *)

Section Training.
Context {T : Type} `{Numeric T} (lib : NumLib T).
Variables (fast_eigen verbose update_sigma update_mu : bool) (tol : T).

Local Abbreviation loop fuel :=
  (run_EM_loop lib fuel fast_eigen tol verbose update_sigma update_mu).
Local Abbreviation chain k :=
  (EM_chain lib k fast_eigen tol verbose update_sigma update_mu).
Local Abbreviation iteration s :=
  (EM_iteration lib s verbose update_sigma update_mu fast_eigen).

Lemma run_EM_loop_exit fuel (self : @Learner T) old new :
  not_converged tol old new = false ->
  loop fuel self old new = Some (ret (self, new)).
Proof. intros Hc. destruct fuel; simpl; now rewrite Hc. Qed.

(** The loop returns at the first state of the chain where the test
    fails. *)
Lemma run_EM_loop_returns k :
  forall fuel (self : @Learner T) old new s o n,
    chain k self old new = Some (s, o, n) ->
    not_converged tol o n = false -> (k <= fuel)%nat ->
    exists log, loop fuel self old new = Some (log, Ok (s, n)).
Proof.
  induction k as [| k IH];
    intros fuel self old new s o n Hchain Hstop Hfuel.
  - injection Hchain as -> -> ->. exists [].
    now apply run_EM_loop_exit.
  - destruct fuel as [| fuel]; [lia |]. simpl in Hchain |- *.
    destruct (not_converged tol old new); [| discriminate].
    destruct (EM_iteration lib self verbose update_sigma update_mu
                fast_eigen) as [log [[self' ll] | e]];
      simpl in Hchain; [| discriminate].
    destruct (IH fuel self' new ll s o n Hchain Hstop ltac:(lia))
      as [log' ->].
    eauto.
Qed.

(** An exception of an EM step ends the loop. *)
Lemma run_EM_loop_raises k :
  forall fuel (self : @Learner T) old new s o n e,
    chain k self old new = Some (s, o, n) ->
    not_converged tol o n = true ->
    outcome (iteration s) = Raise e -> (k < fuel)%nat ->
    exists log, loop fuel self old new = Some (log, Raise e).
Proof.
  induction k as [| k IH];
    intros fuel self old new s o n e Hchain Hgo Hraise Hfuel;
    (destruct fuel as [| fuel]; [lia |]).
  - injection Hchain as -> -> ->. simpl. rewrite Hgo.
    destruct (EM_iteration lib s verbose update_sigma update_mu fast_eigen)
      as [log r]. simpl in Hraise. subst r. eauto.
  - simpl in Hchain |- *.
    destruct (not_converged tol old new); [| discriminate].
    destruct (EM_iteration lib self verbose update_sigma update_mu
                fast_eigen) as [log [[self' ll] | e']];
      simpl in Hchain; [| discriminate].
    destruct (IH fuel self' new ll s o n e Hchain Hgo Hraise ltac:(lia))
      as [log' ->].
    eauto.
Qed.

(** No fuel is enough when an invariant keeps the test true and the steps
    returning. *)
Lemma run_EM_loop_diverges (I : @Learner T -> T -> T -> Prop) :
  (forall s o n,
      I s o n ->
      not_converged tol o n = true /\
      exists s' ll, outcome (iteration s) = Ok (s', ll) /\ I s' n ll) ->
  forall fuel s o n, I s o n -> loop fuel s o n = None.
Proof.
  intros Hinv.
  induction fuel as [| fuel IH]; intros s o n HI;
    destruct (Hinv s o n HI) as (Hgo & s' & ll & Hstep & HI').
  - simpl. now rewrite Hgo.
  - simpl. rewrite Hgo.
    destruct (EM_iteration lib s verbose update_sigma update_mu fast_eigen)
      as [log r]. simpl in Hstep. subst r.
    now rewrite (IH s' n ll HI').
Qed.

Lemma run_EM_loop_diverges_chain (self : @Learner T) old new :
  (forall k, exists s o n,
      chain k self old new = Some (s, o, n) /\
      not_converged tol o n = true) ->
  forall fuel, loop fuel self old new = None.
Proof.
  intros Hchain fuel.
  apply (run_EM_loop_diverges
           (fun s o n =>
              forall k, exists s' o' n',
                chain k s o n = Some (s', o', n') /\
                not_converged tol o' n' = true));
    [| exact Hchain].
  clear. intros s o n Hall.
  destruct (Hall 0%nat) as (s0 & o0 & n0 & E0 & Hgo).
  injection E0 as <- <- <-. split; [exact Hgo |].
  destruct (Hall 1%nat) as (s1 & o1 & n1 & E1 & _).
  simpl in E1. rewrite Hgo in E1.
  destruct (outcome (EM_iteration lib s verbose update_sigma update_mu
                       fast_eigen)) as [[s' ll] | e] eqn:Estep;
    [| discriminate].
  exists s', ll. split; [reflexivity |].
  intros k. destruct (Hall (S k)) as (sk & ok & nk & Ek & Hk).
  simpl in Ek. rewrite Hgo, Estep in Ek. eauto.
Qed.

End Training.

(** C2 (as amended).  [run_EM] has no iteration cap and no convergence
    error.  Along the states [(self, old, new)] that its loop goes
    through, starting from [(self, -inf, 0)]:
    - it returns at the first state where [abs(old - new) > tol] is false,
      after exactly that many EM steps, whatever the fuel beyond them;
    - it stops with the exception of an EM step that raises;
    - when the test holds at every state and no step raises, it returns
      for no amount of fuel. *)
Theorem run_EM_stops_only_at_the_tolerance_test :
  forall (T : Type) (NT : Numeric T) (HI : HasInf T) (lib : NumLib T)
         (self : @Learner T) (fast_eigen : bool) (tol : T)
         (verbose update_sigma update_mu : bool),
    let chain k :=
      EM_chain lib k fast_eigen tol verbose update_sigma update_mu
        self (neg np_inf) zero in
    let run fuel :=
      run_EM lib fuel self fast_eigen tol verbose update_sigma update_mu in
    (forall k s o n fuel,
        chain k = Some (s, o, n) -> not_converged tol o n = false ->
        (k <= fuel)%nat ->
        exists log, run fuel = Some (log, Ok (s, n))) /\
    (forall k s o n e fuel,
        chain k = Some (s, o, n) -> not_converged tol o n = true ->
        outcome (EM_iteration lib s verbose update_sigma update_mu
                   fast_eigen) = Raise e ->
        (k < fuel)%nat ->
        exists log, run fuel = Some (log, Raise e)) /\
    ((forall k, exists s o n,
         chain k = Some (s, o, n) /\ not_converged tol o n = true) ->
     forall fuel, run fuel = None).
Proof.
  intros T NT HI lib self fast_eigen tol verbose us um chain run.
  subst chain run. unfold run_EM. split; [| split].
  - intros k s o n fuel Hchain Hstop Hfuel.
    now apply run_EM_loop_returns with (k := k) (o := o).
  - intros k s o n e fuel Hchain Hgo Hraise Hfuel.
    now apply run_EM_loop_raises with (k := k) (s := s) (o := o) (n := n).
  - intros Hall fuel. now apply run_EM_loop_diverges_chain.
Qed.

(** With the tolerance 1e-4 the one-state model without patients returns
    after one EM step: both log-likelihoods are then 0. *)
Lemma run_EM_witness :
  exists log s,
    run_EM Binary64.lib 7 Inputs.learner_idle false
      0x1.a36e2eb1c432dp-14%float false false true
    = Some (log, Ok (s, 0%float)).
Proof.
  destruct (proj1 (@run_EM_stops_only_at_the_tolerance_test
                     float _ _ Binary64.lib Inputs.learner_idle false
                     0x1.a36e2eb1c432dp-14%float false false true)
              1%nat
              (set_params
                 (set_caches Inputs.learner_idle (Some []) (Some [])
                    (Some [[1%float]]) (Some [[0%float]])
                    (Some [[1%float]]) (Some []) (Some []))
                 [[(-0)%float]] [nan] (Flat [nan])
                 (PerMarker [[1%float]]))
              0%float 0%float 7%nat) as [log Hlog].
  - vm_compute. reflexivity.
  - vm_compute. reflexivity.
  - lia.
  - eauto.
Defined.

(** An EM step on a model with one state and no patients returns such a
    model, whatever the library computes. *)
Lemma idle_EM_iteration (lib : NumLib float) (s : @Learner float)
    (us um fe : bool) :
  idle s ->
  exists s',
    outcome (EM_iteration lib s false us um fe) = Ok (s', 0%float) /\
    idle s'.
Proof.
  destruct s as [pi0' mu' n' sg' Qs' Q' Qo' ps' m' b' ti' ex' U' D' V' te' ne'].
  unfold idle. cbn. intros (-> & -> & -> & ->).
  unfold EM_iteration, EM_step, E_step, matrix_exponentials,
    set_eigendecomposition. cbn.
  destruct (eig lib Q') as [d u]. cbn.
  destruct (negb fe && String.eqb m' "eigen"); cbn;
    eexists; (split; [reflexivity | repeat split]).
Qed.

(** C2, counterexample.  With the finite tolerance [-1] the training of
    the one-state model without patients does not terminate: the
    log-likelihood is 0 after every step, the test [abs(0 - 0) > -1] holds
    every time, and there is no iteration cap to stop the loop. *)
Lemma run_EM_has_no_iteration_cap :
  ~ exists (lib : NumLib float) (fuel : nat) r,
      run_EM lib fuel Inputs.learner_idle false (-1)%float false false true
      = Some r.
Proof.
  intros (lib & fuel & r & Hrun). unfold run_EM in Hrun.
  rewrite (@run_EM_loop_diverges float _ lib false false false true
             (-1)%float
             (fun s o n =>
                idle s /\ n = 0%float /\
                (o = neg_infinity \/ o = 0%float))) in Hrun;
    [discriminate | | ].
  - intros s o n (Hs & -> & Ho). split.
    + destruct Ho as [-> | ->]; reflexivity.
    + destruct (idle_EM_iteration lib false true false Hs)
        as (s' & Hstep & Hs').
      exists s', 0%float.
      split; [exact Hstep | split; [exact Hs' | split; auto]].
  - split; [repeat split | split; [reflexivity | now left]].
Qed.

(** ** The two methods on the example *)

(** C1, counterexample.  On the two-state example the E-step returns the
    same [TauI = (1/2, 1/2)] for both methods and the same off-diagonal
    [Nij], but the diagonal of [Nij] is [0] for the eigen method and [1/2]
    for the augmented-exponential method: they differ by more than
    [1e-6]. *)
Lemma methods_disagree_on_the_diagonal :
  outcome (E_step Exact.lib (Inputs.learner_two "eigen") true)
  = Ok (set_patients (Inputs.learner_two_cached "eigen")
          [Inputs.patient_two_done],
        Inputs.accum_two (SArr Inputs.Nij_eigen_two)
          (SArr Inputs.TauI_two)) /\
  outcome (E_step Exact.lib (Inputs.learner_two "expm") true)
  = Ok (set_patients (Inputs.learner_two_cached "expm")
          [Inputs.patient_two_done],
        Inputs.accum_two (SArr Inputs.Nij_expm_two)
          (SArr Inputs.TauI_two)) /\
  (Rabs (at2 Inputs.Nij_eigen_two 0 0 - at2 Inputs.Nij_expm_two 0 0)
   > 1 / 10 ^ 6)%R.
Proof.
  rewrite !TwoState.E_step_two. repeat split.
  cbn. unfold Rabs. destruct (Rcase_abs (0 - / 2)); lra.
Qed.


(** ** The algebra behind the two methods

    Over [R], every array operation of the statistics engine is read entry
    by entry as a finite sum.  Entries outside an array read as 0, so the
    truncating operations need no side condition. *)

Unset Implicit Arguments.

Module Sums.
Local Open Scope R_scope.

Lemma fold_left_Rplus_acc (l : list R) (a : R) :
  fold_left Rplus l a = a + fold_left Rplus l 0.
Proof.
  revert a. induction l as [| x l IH]; intros a; simpl; [lra |].
  rewrite (IH (a + x)), (IH (0 + x)). lra.
Qed.

Lemma rsum_0 f : rsum 0 f = 0.
Proof. reflexivity. Qed.

Lemma rsum_S n f : rsum (S n) f = rsum n f + f n.
Proof.
  unfold rsum. rewrite seq_S, map_app, fold_left_app. reflexivity.
Qed.

Lemma rsum_ext n f g :
  (forall i, (i < n)%nat -> f i = g i) -> rsum n f = rsum n g.
Proof.
  induction n as [| n IH]; intros Hfg; [reflexivity |].
  rewrite !rsum_S, IH, Hfg by auto. reflexivity.
Qed.

Lemma rsum_zero n : rsum n (fun _ => 0) = 0.
Proof. induction n as [| n IH]; [reflexivity |]. rewrite rsum_S, IH. lra. Qed.

Lemma rsum_all_zero n f :
  (forall i, (i < n)%nat -> f i = 0) -> rsum n f = 0.
Proof.
  intros Hf. rewrite (rsum_ext n f (fun _ => 0)) by exact Hf.
  apply rsum_zero.
Qed.

Lemma rsum_plus n f g :
  rsum n (fun i => f i + g i) = rsum n f + rsum n g.
Proof.
  induction n as [| n IH]; [rewrite !rsum_0; lra |].
  rewrite !rsum_S, IH. lra.
Qed.

Lemma rsum_scal_l n c f : rsum n (fun i => c * f i) = c * rsum n f.
Proof.
  induction n as [| n IH]; [rewrite !rsum_0; lra |].
  rewrite !rsum_S, IH. lra.
Qed.

Lemma rsum_scal_r n c f : rsum n (fun i => f i * c) = rsum n f * c.
Proof.
  induction n as [| n IH]; [rewrite !rsum_0; lra |].
  rewrite !rsum_S, IH. lra.
Qed.

Lemma rsum_exchange n m (f : nat -> nat -> R) :
  rsum n (fun i => rsum m (fun j => f i j))
  = rsum m (fun j => rsum n (fun i => f i j)).
Proof.
  induction n as [| n IH].
  - rewrite rsum_0. symmetry. apply rsum_zero.
  - rewrite rsum_S, IH, <- rsum_plus. apply rsum_ext.
    intros j _. now rewrite rsum_S.
Qed.

Lemma rsum_shift n f : rsum (S n) f = f 0%nat + rsum n (fun i => f (S i)).
Proof.
  induction n as [| n IH].
  - rewrite rsum_S, !rsum_0. lra.
  - rewrite rsum_S, IH, rsum_S. lra.
Qed.

(** Terms beyond [n] that vanish do not count. *)
Lemma rsum_more n m f :
  (n <= m)%nat -> (forall i, (n <= i)%nat -> f i = 0) -> rsum m f = rsum n f.
Proof.
  intros Hnm Hz. induction m as [| m IH].
  - now replace n with 0%nat by lia.
  - destruct (Nat.eq_dec n (S m)) as [-> | Hne]; [reflexivity |].
    rewrite rsum_S, IH, Hz by lia. lra.
Qed.

Lemma rsum_nonneg n f : (forall i, (i < n)%nat -> 0 <= f i) -> 0 <= rsum n f.
Proof.
  induction n as [| n IH]; intros Hf; [rewrite rsum_0; lra |].
  rewrite rsum_S. pose proof (Hf n ltac:(lia)).
  assert (0 <= rsum n f) by (apply IH; auto). lra.
Qed.

(** *** Arrays of reals, entry by entry *)

Lemma at1_nil i : at1 ([] : list R) i = 0.
Proof. destruct i; reflexivity. Qed.

Lemma at1_overflow (l : list R) i : (length l <= i)%nat -> at1 l i = 0.
Proof. intros. unfold at1. now apply nth_overflow. Qed.

Lemma row_overflow (a : list (list R)) i : (length a <= i)%nat -> row a i = [].
Proof. intros. unfold row. now apply nth_overflow. Qed.

Lemma at2_overflow_row (a : list (list R)) i j :
  (length a <= i)%nat -> at2 a i j = 0.
Proof. intros. unfold at2. rewrite row_overflow by assumption. apply at1_nil. Qed.

Lemma row_In (a : list (list R)) i : (i < length a)%nat -> In (row a i) a.
Proof. intros. unfold row. now apply nth_In. Qed.

Lemma np_sum_rsum (l : list R) n :
  (length l <= n)%nat -> np_sum l = rsum n (at1 l).
Proof.
  unfold np_sum. cbn [add zero R_Numeric].
  revert n. induction l as [| x l IH]; intros n Hn.
  - cbn [fold_left]. symmetry. apply rsum_all_zero.
    intros i _. apply at1_nil.
  - destruct n as [| n]; [simpl in Hn; lia |].
    rewrite rsum_shift. cbn [fold_left].
    rewrite fold_left_Rplus_acc, (IH n) by (simpl in Hn; lia).
    cbn [at1 nth]. unfold at1. lra.
Qed.

Lemma length_zip_with {A B C} (f : A -> B -> C) xs ys :
  length (zip_with f xs ys) = Nat.min (length xs) (length ys).
Proof.
  revert ys. induction xs as [| x xs IH]; intros [| y ys]; simpl; auto.
Qed.

Lemma at1_zip_with (f : R -> R -> R) (u v : list R) i :
  (forall x, f 0 x = 0) -> (forall x, f x 0 = 0) ->
  at1 (zip_with f u v) i = f (at1 u i) (at1 v i).
Proof.
  intros Hl Hr. revert v i.
  induction u as [| x u IH]; intros [| y v] i; cbn [zip_with].
  - rewrite at1_nil. symmetry. apply Hl.
  - rewrite !at1_nil. symmetry. apply Hl.
  - rewrite !at1_nil. symmetry. apply Hr.
  - destruct i as [| i]; [reflexivity |]. apply (IH v i).
Qed.

Lemma at1_vmul (u v : list R) i : at1 (vmul u v) i = at1 u i * at1 v i.
Proof. apply at1_zip_with; intros; cbn; lra. Qed.

Lemma at1_vadd (u v : list R) i :
  (i < length u)%nat -> (i < length v)%nat ->
  at1 (vadd u v) i = at1 u i + at1 v i.
Proof.
  revert v i. induction u as [| x u IH]; intros [| y v] i Hu Hv;
    simpl in Hu, Hv; try lia.
  destruct i as [| i]; [reflexivity |]. apply (IH v i); lia.
Qed.

Lemma at1_vdiv (u v : list R) i :
  at1 (zip_with Rdiv u v) i = at1 u i / at1 v i.
Proof.
  apply at1_zip_with; intros; unfold Rdiv; [lra |].
  rewrite Rinv_0. lra.
Qed.

Lemma at1_map (f : R -> R) (l : list R) i :
  f 0 = 0 -> at1 (map f l) i = f (at1 l i).
Proof.
  intros Hf. revert i. induction l as [| x l IH]; intros i.
  - cbn [map]. now rewrite at1_nil.
  - destruct i; [reflexivity | apply IH].
Qed.

Lemma vdot_rsum (u v : list R) n :
  (length u <= n)%nat \/ (length v <= n)%nat ->
  vdot u v = rsum n (fun i => at1 u i * at1 v i).
Proof.
  intros Hn. unfold vdot. rewrite (np_sum_rsum _ n).
  - apply rsum_ext. intros i _. apply at1_vmul.
  - unfold vmul. rewrite length_zip_with. lia.
Qed.

Lemma row_zip_with (f : list R -> list R -> list R) (a b : list (list R)) i :
  (forall x, f [] x = []) -> (forall x, f x [] = []) ->
  row (zip_with f a b) i = f (row a i) (row b i).
Proof.
  intros Hl Hr. unfold row. revert b i.
  induction a as [| x a IH]; intros [| y b] i; cbn [zip_with].
  - destruct i; cbn; now rewrite Hl.
  - destruct i; cbn [nth]; now rewrite Hl.
  - destruct i; cbn [nth]; now rewrite Hr.
  - destruct i as [| i]; [reflexivity | cbn [nth]; apply IH].
Qed.

Lemma zip_with_nil_r {A B C} (f : A -> B -> C) xs : zip_with f xs [] = [].
Proof. destruct xs; reflexivity. Qed.

Lemma at2_np_multiply (a b : list (list R)) i j :
  at2 (np_multiply a b) i j = at2 a i j * at2 b i j.
Proof.
  unfold at2, np_multiply. rewrite row_zip_with.
  - apply at1_vmul.
  - reflexivity.
  - intros. apply zip_with_nil_r.
Qed.

Lemma at2_mdiv (a b : list (list R)) i j :
  at2 (mdiv a b) i j = at2 a i j / at2 b i j.
Proof.
  unfold at2, mdiv. rewrite row_zip_with.
  - apply at1_vdiv.
  - reflexivity.
  - intros. apply zip_with_nil_r.
Qed.

Lemma row_map (f : list R -> list R) (a : list (list R)) i :
  f [] = [] -> row (map f a) i = f (row a i).
Proof.
  intros Hf. unfold row. revert i. induction a as [| x a IH]; intros i.
  - destruct i; cbn; now rewrite Hf.
  - destruct i; [reflexivity | apply IH].
Qed.

Lemma at2_np_outer (u v : list R) i j :
  at2 (np_outer u v) i j = at1 u i * at1 v j.
Proof.
  unfold at2, np_outer, row. revert i.
  induction u as [| x u IH]; intros i.
  - cbn [map]. destruct i; cbn [nth]; rewrite !at1_nil; lra.
  - destruct i as [| i]; [| apply IH]. cbn [map nth].
    rewrite at1_map by (cbn; lra). reflexivity.
Qed.

Lemma at2_mdiv_scalar (a : list (list R)) c i j :
  at2 (mdiv_scalar a c) i j = at2 a i j / c.
Proof.
  unfold at2, mdiv_scalar. rewrite row_map by reflexivity.
  unfold vdiv_scalar. rewrite at1_map; [reflexivity |].
  cbn. unfold Rdiv. lra.
Qed.

Lemma at1_col (a : list (list R)) j i : at1 (col a j) i = at2 a i j.
Proof.
  unfold col, at2, row. revert i. induction a as [| r a IH]; intros i.
  - cbn [map]. destruct i; cbn [nth]; now rewrite !at1_nil.
  - destruct i; [reflexivity | apply IH].
Qed.

Lemma length_col (a : list (list R)) j : length (col a j) = length a.
Proof. apply length_map. Qed.

Lemma np_sum2_rsum (a : list (list R)) n m :
  (length a <= n)%nat -> (forall r, In r a -> (length r <= m)%nat) ->
  np_sum2 a = rsum n (fun i => rsum m (fun j => at2 a i j)).
Proof.
  unfold np_sum2, np_sum. cbn [add zero R_Numeric].
  revert n. induction a as [| r a IH]; intros n Hn Hm.
  - cbn [concat fold_left]. symmetry. apply rsum_all_zero. intros i _.
    apply rsum_all_zero. intros j _.
    apply at2_overflow_row. simpl. lia.
  - destruct n as [| n]; [simpl in Hn; lia |].
    rewrite rsum_shift. cbn [concat]. rewrite fold_left_app.
    rewrite fold_left_Rplus_acc.
    rewrite (IH n) by (simpl in Hn; try lia; intros; apply Hm; now right).
    f_equal.
    change (fold_left Rplus r 0) with (np_sum r).
    rewrite (np_sum_rsum r m) by (apply Hm; now left). reflexivity.
Qed.

(** Entries of a table built row by row. *)
Lemma at2_table (f : nat -> nat -> R) n m i j :
  at2 (map (fun i => map (fun j => f i j) (seq 0 m)) (seq 0 n)) i j
  = if (i <? n)%nat && (j <? m)%nat then f i j else 0.
Proof.
  destruct (i <? n)%nat eqn:Hi; cbn [andb].
  - apply Nat.ltb_lt in Hi. destruct (j <? m)%nat eqn:Hj.
    + apply Nat.ltb_lt in Hj. now apply at2_map_seq.
    + apply Nat.ltb_ge in Hj. unfold at2, row.
      rewrite (nth_indep _ [] (map (fun j => f 0%nat j) (seq 0 m)))
        by (rewrite length_map, length_seq; lia).
      rewrite (map_nth (fun i => map (fun j => f i j) (seq 0 m))).
      apply at1_overflow. rewrite length_map, length_seq. lia.
  - apply Nat.ltb_ge in Hi. apply at2_overflow_row.
    rewrite length_map, length_seq. lia.
Qed.

Lemma at1_table (f : nat -> R) n i :
  at1 (map f (seq 0 n)) i = if (i <? n)%nat then f i else 0.
Proof.
  destruct (i <? n)%nat eqn:Hi.
  - apply Nat.ltb_lt in Hi. unfold at1.
    change (zero (T := R)) with 0.
    rewrite (nth_indep _ 0 (f 0%nat)) by (rewrite length_map, length_seq; lia).
    rewrite (map_nth f (seq 0 n) 0%nat). now rewrite seq_nth.
  - apply Nat.ltb_ge in Hi. apply at1_overflow.
    rewrite length_map, length_seq. lia.
Qed.

Lemma at2_np_transpose (a : list (list R)) i j :
  at2 (np_transpose a) i j = if (i <? ncols a)%nat then at2 a j i else 0.
Proof.
  unfold np_transpose, at2, row.
  destruct (i <? ncols a)%nat eqn:Hi.
  - apply Nat.ltb_lt in Hi.
    rewrite (nth_indep _ [] (col a 0%nat))
      by (rewrite length_map, length_seq; lia).
    rewrite (map_nth (col a) (seq 0 (ncols a)) 0%nat), seq_nth by lia.
    apply at1_col.
  - apply Nat.ltb_ge in Hi.
    rewrite nth_overflow by (rewrite length_map, length_seq; lia).
    apply at1_nil.
Qed.

Lemma nth_map_lt {A B} (f : A -> B) (l : list A) i da db :
  (i < length l)%nat -> nth i (map f l) db = f (nth i l da).
Proof.
  revert i. induction l as [| x l IH]; intros i Hi; [simpl in Hi; lia |].
  destruct i; [reflexivity |]. simpl in Hi |- *. apply IH. lia.
Qed.

Lemma at2_np_dot (a b : list (list R)) i j :
  at2 (np_dot a b) i j
  = if (i <? length a)%nat && (j <? ncols b)%nat
    then vdot (row a i) (col b j) else 0.
Proof.
  unfold np_dot, at2.
  destruct (i <? length a)%nat eqn:Hi; cbn [andb].
  - apply Nat.ltb_lt in Hi. unfold row at 1.
    rewrite (nth_map_lt _ a i [] []) by assumption.
    fold (row a i).
    apply (at1_table (fun j => vdot (row a i) (col b j))).
  - apply Nat.ltb_ge in Hi. rewrite row_overflow.
    + apply at1_nil.
    + rewrite length_map. exact Hi.
Qed.

Lemma shape_ncols n m (a : list (list R)) :
  shape n m a -> (0 < n)%nat -> ncols a = m.
Proof.
  intros [Hn Hm] Hpos. unfold ncols. apply Hm, row_In. lia.
Qed.

Lemma shape_row n m (a : list (list R)) i :
  shape n m a -> (i < n)%nat -> length (row a i) = m.
Proof. intros [Hn Hm] Hi. apply Hm, row_In. lia. Qed.

Lemma rect_uniform (a : list (list R)) : rect a -> uniform a.
Proof.
  intros [m Hm] k l Hl. unfold at2.
  destruct (Nat.lt_ge_cases k (length a)) as [Hk | Hk].
  - apply at1_overflow. rewrite (Hm (row a k)) by now apply row_In.
    destruct a as [| r a]; [simpl in Hk; lia |].
    unfold ncols, row in Hl. cbn [nth] in Hl.
    rewrite (Hm r) in Hl by now left. exact Hl.
  - rewrite row_overflow by assumption. apply at1_nil.
Qed.

Lemma rect_zip_with (f : list R -> list R -> list R) (a b : list (list R)) :
  (forall u v, length (f u v) = Nat.min (length u) (length v)) ->
  rect a -> rect b -> rect (zip_with f a b).
Proof.
  intros Hf [ma Ha] [mb Hb]. exists (Nat.min ma mb).
  revert b Hb. induction a as [| x a IH]; intros [| y b] Hb r Hr;
    cbn [zip_with] in Hr; try contradiction.
  destruct Hr as [<- | Hr].
  - rewrite Hf, (Ha x), (Hb y) by now left. reflexivity.
  - apply (IH (fun r Hr => Ha r (or_intror Hr)) b
             (fun r Hr => Hb r (or_intror Hr)) r Hr).
Qed.

Lemma rect_map (f : list R -> list R) (a : list (list R)) :
  (forall u, length (f u) = length u) -> rect a -> rect (map f a).
Proof.
  intros Hf [m Hm]. exists m. intros r Hr.
  apply in_map_iff in Hr as (u & <- & Hu). now rewrite Hf, Hm.
Qed.

Lemma rect_np_outer (u v : list R) : rect (np_outer u v).
Proof.
  exists (length v). intros r Hr. unfold np_outer in Hr.
  apply in_map_iff in Hr as (x & <- & _). apply length_map.
Qed.

Lemma shape_rect n m a : shape n m a -> rect a.
Proof. intros [_ Hm]. now exists m. Qed.

Lemma rect_zeta (P : list (list R)) alpha beta b :
  rect P -> rect (zeta P alpha beta b).
Proof.
  intros HP. unfold zeta, mdiv_scalar. apply rect_map.
  - intros u. apply length_map.
  - apply rect_zip_with; [| exact HP | apply rect_np_outer].
    intros u v. apply length_zip_with.
Qed.

Lemma rect_mdiv (Z P : list (list R)) : rect Z -> rect P -> rect (mdiv Z P).
Proof.
  intros HZ HP. apply rect_zip_with; auto.
  intros u v. apply length_zip_with.
Qed.

(** *** The contraction through [U] and [V] *)

Lemma length_np_transpose (a : list (list R)) :
  length (np_transpose a) = ncols a.
Proof. unfold np_transpose. now rewrite length_map, length_seq. Qed.

Lemma length_np_dot (a b : list (list R)) : length (np_dot a b) = length a.
Proof. apply length_map. Qed.

Lemma ncols_le n m (a : list (list R)) : shape n m a -> (ncols a <= m)%nat.
Proof.
  intros [Hn Hm]. unfold ncols. destruct a as [| r a]; [simpl; lia |].
  unfold row. cbn [nth]. rewrite (Hm r) by now left. lia.
Qed.

Lemma length_row_np_transpose (a : list (list R)) i :
  (length (row (np_transpose a) i) <= length a)%nat.
Proof.
  unfold np_transpose.
  destruct (Nat.lt_ge_cases i (ncols a)) as [Hi | Hi].
  - unfold row. rewrite (nth_map_lt _ _ i 0%nat []) by now rewrite length_seq.
    now rewrite length_col.
  - rewrite row_overflow by now rewrite length_map, length_seq.
    simpl. lia.
Qed.

Lemma length_row_np_dot (a b : list (list R)) i :
  (length (row (np_dot a b) i) <= ncols b)%nat.
Proof.
  unfold np_dot.
  destruct (Nat.lt_ge_cases i (length a)) as [Hi | Hi].
  - unfold row. rewrite (nth_map_lt _ a i [] []) by assumption.
    now rewrite length_map, length_seq.
  - rewrite row_overflow by now rewrite length_map.
    simpl. lia.
Qed.

Lemma In_row (a : list (list R)) r : In r a -> exists i, r = row a i.
Proof.
  intros Hr. apply (In_nth _ _ []) in Hr as (i & _ & <-). now exists i.
Qed.

Lemma contraction_B_entry n (Um Vm F : list (list R)) p q :
  shape n n Um -> shape n n Vm -> uniform F ->
  (p < n)%nat -> (q < n)%nat ->
  at2 (contraction_B Um Vm F) p q
  = rsum n (fun l => rsum n (fun k => at2 Um k p * at2 F k l) * at2 Vm q l).
Proof.
  intros HU HV HF Hp Hq. unfold contraction_B.
  assert (HcU : ncols Um = n) by (apply (shape_ncols n n Um HU); lia).
  assert (HcV : ncols Vm = n) by (apply (shape_ncols n n Vm HV); lia).
  assert (HcVt : ncols (np_transpose Vm) = n).
  { unfold ncols, np_transpose, row. rewrite HcV.
    rewrite (nth_map_lt _ _ 0%nat 0%nat []) by (rewrite length_seq; lia).
    rewrite length_col. apply HV. }
  rewrite at2_np_dot, length_np_dot, length_np_transpose, HcU, HcVt.
  replace (p <? n)%nat with true by (symmetry; apply Nat.ltb_lt; lia).
  replace (q <? n)%nat with true by (symmetry; apply Nat.ltb_lt; lia).
  cbn [andb].
  rewrite (vdot_rsum _ _ n)
    by (right; rewrite length_col, length_np_transpose; lia).
  apply rsum_ext. intros l Hl.
  rewrite at1_col, at2_np_transpose, HcV.
  replace (l <? n)%nat with true by (symmetry; apply Nat.ltb_lt; lia).
  f_equal. change (at1 (row ?a p) l) with (at2 a p l).
  rewrite at2_np_dot, length_np_transpose, HcU.
  replace (p <? n)%nat with true by (symmetry; apply Nat.ltb_lt; lia).
  cbn [andb].
  assert (Hdot : vdot (row (np_transpose Um) p) (col F l)
                 = rsum n (fun k => at2 Um k p * at2 F k l)).
  { rewrite (vdot_rsum _ _ n).
    - apply rsum_ext. intros k Hk.
      change (at1 (row ?a p) k) with (at2 a p k).
      rewrite at2_np_transpose, HcU, at1_col.
      replace (p <? n)%nat with true by (symmetry; apply Nat.ltb_lt; lia).
      reflexivity.
    - left. pose proof (length_row_np_transpose Um p) as Hlen.
      destruct HU as [HUn _]. lia. }
  destruct (l <? ncols F)%nat eqn:HlF; [exact Hdot |].
  apply Nat.ltb_ge in HlF. symmetry. apply rsum_all_zero.
  intros k _. rewrite (HF k l HlF). lra.
Qed.

Lemma at2_A_kernel (Vm Um Psi : list (list R)) i j p q :
  at2 (A_kernel Vm Um Psi i j) p q
  = at2 Vm p i * at2 Um j q * at2 Psi p q.
Proof.
  unfold A_kernel. rewrite at2_np_multiply, at2_np_outer, at1_col.
  reflexivity.
Qed.

Lemma eigen_sum_index n (Um Vm Psi F : list (list R)) i j :
  shape n n Um -> shape n n Vm -> uniform F ->
  np_sum2 (np_multiply (A_kernel Vm Um Psi i j) (contraction_B Um Vm F))
  = rsum n (fun p => rsum n (fun q =>
      at2 Vm p i * at2 Um j q * at2 Psi p q
      * rsum n (fun l =>
          rsum n (fun k => at2 Um k p * at2 F k l) * at2 Vm q l))).
Proof.
  intros HU HV HF.
  rewrite (np_sum2_rsum _ n n).
  - apply rsum_ext. intros p Hp. apply rsum_ext. intros q Hq.
    rewrite at2_np_multiply, at2_A_kernel.
    now rewrite (contraction_B_entry n Um Vm F p q HU HV HF Hp Hq).
  - unfold np_multiply, contraction_B.
    rewrite length_zip_with, length_np_dot, length_np_dot,
      length_np_transpose.
    pose proof (ncols_le n n Um HU). lia.
  - intros r Hr. apply In_row in Hr as (k & ->).
    unfold np_multiply. rewrite row_zip_with;
      [| reflexivity | intros; apply zip_with_nil_r].
    unfold vmul. rewrite length_zip_with.
    pose proof (length_row_np_dot
                  (np_dot (np_transpose Um) F) (np_transpose Vm) k) as Hk.
    fold (contraction_B Um Vm F) in Hk.
    assert (ncols (np_transpose Vm) <= n)%nat.
    { unfold ncols. pose proof (length_row_np_transpose Vm 0) as H0.
      destruct HV as [HVn _]. lia. }
    lia.
Qed.

Lemma fold_left_step_seq (step : R -> nat -> R) (g : nat -> R) n a :
  (forall x acc, (x < n)%nat -> step acc x = acc + g x) ->
  fold_left step (seq 0 n) a = a + rsum n g.
Proof.
  induction n as [| n IH]; intros Hstep.
  - rewrite rsum_0. cbn. lra.
  - rewrite seq_S, fold_left_app, IH, rsum_S by auto.
    cbn [fold_left Nat.add]. rewrite Hstep by lia. lra.
Qed.

Lemma expm_temp_sum_index n (P Z E : list (list R)) :
  (forall k l, (k < n)%nat -> (l < n)%nat -> at2 P k l <> 0) ->
  expm_temp_sum n P Z E
  = rsum n (fun k => rsum n (fun l =>
      at2 Z k l * at2 E k (l + n) / at2 P k l)).
Proof.
  intros HP. unfold expm_temp_sum.
  rewrite (fold_left_step_seq _
             (fun k => rsum n (fun l =>
                at2 Z k l * at2 E k (l + n) / at2 P k l))).
  - change (zero (T := R)) with 0. lra.
  - intros k acc Hk.
    apply (fold_left_step_seq _
             (fun l => at2 Z k l * at2 E k (l + n) / at2 P k l)).
    intros l acc' Hl.
    change (eqb (at2 P k l) zero) with (Reqb (at2 P k l) 0).
    rewrite (Reqb_neq (HP k l Hk Hl)). reflexivity.
Qed.

(** Both sides are the sum over [p, q, k, l] of
    [a p q * U k p * F k l * V q l]. *)
Lemma contraction_exchange n (a F Um Vm : nat -> nat -> R) :
  rsum n (fun k => rsum n (fun l =>
    F k l * rsum n (fun p => rsum n (fun q => Um k p * a p q * Vm q l))))
  = rsum n (fun p => rsum n (fun q =>
      a p q * rsum n (fun l => rsum n (fun k => Um k p * F k l) * Vm q l))).
Proof.
  transitivity
    (rsum n (fun k => rsum n (fun l => rsum n (fun p => rsum n (fun q =>
       a p q * Um k p * F k l * Vm q l))))).
  { apply rsum_ext. intros k _. apply rsum_ext. intros l _.
    rewrite <- rsum_scal_l. apply rsum_ext. intros p _.
    rewrite <- rsum_scal_l. apply rsum_ext. intros q _. lra. }
  transitivity
    (rsum n (fun p => rsum n (fun q => rsum n (fun l => rsum n (fun k =>
       a p q * Um k p * F k l * Vm q l))))).
  { (* k l p q -> k p l q *)
    rewrite (rsum_ext n _
               (fun k => rsum n (fun p => rsum n (fun l => rsum n (fun q =>
                  a p q * Um k p * F k l * Vm q l)))))
      by (intros k _; apply rsum_exchange).
    (* -> p k l q *)
    rewrite rsum_exchange.
    apply rsum_ext. intros p _.
    (* k l q -> k q l *)
    rewrite (rsum_ext n _
               (fun k => rsum n (fun q => rsum n (fun l =>
                  a p q * Um k p * F k l * Vm q l))))
      by (intros k _; apply rsum_exchange).
    (* -> q k l *)
    rewrite rsum_exchange.
    apply rsum_ext. intros q _.
    (* k l -> l k *)
    apply rsum_exchange. }
  apply rsum_ext. intros p _. apply rsum_ext. intros q _.
  rewrite <- rsum_scal_l. apply rsum_ext. intros l _.
  rewrite <- rsum_scal_r, <- rsum_scal_l. apply rsum_ext. intros k _. lra.
Qed.

(** The sum that the augmented-exponential method builds for a gap is the
    contraction that the eigen method computes for it, when the upper
    right block of the exponential of the augmented matrix is the
    conjugate, by the eigenvectors, of the Psi-weighted coupling. *)
Lemma gap_identity n (Um Vm Psi P Z E : list (list R)) i j :
  shape n n Um -> shape n n Vm -> shape n n P -> rect Z ->
  (forall k l, (k < n)%nat -> (l < n)%nat -> at2 P k l <> 0) ->
  (forall k l, (k < n)%nat -> (l < n)%nat ->
     at2 E k (l + n)
     = rsum n (fun p => rsum n (fun q =>
         at2 Um k p * (at2 Vm p i * at2 Um j q * at2 Psi p q)
         * at2 Vm q l))) ->
  expm_temp_sum n P Z E
  = np_sum2 (np_multiply (A_kernel Vm Um Psi i j)
               (contraction_B Um Vm (mdiv Z P))).
Proof.
  intros HU HV HP HZ Hnz HE.
  rewrite (expm_temp_sum_index n P Z E Hnz).
  rewrite (eigen_sum_index n Um Vm Psi (mdiv Z P) i j HU HV)
    by (apply rect_uniform, rect_mdiv; [assumption | eapply shape_rect; eauto]).
  rewrite <- (contraction_exchange n
                (fun p q => at2 Vm p i * at2 Um j q * at2 Psi p q)
                (fun k l => at2 (mdiv Z P) k l)
                (fun k p => at2 Um k p) (fun q l => at2 Vm q l)).
  apply rsum_ext. intros k Hk. apply rsum_ext. intros l Hl.
  rewrite (HE k l Hk Hl), at2_mdiv. unfold Rdiv. ring.
Qed.

End Sums.

(** ** Loops that accumulate *)

Module Loops.
Import Sums.
Local Open Scope R_scope.

Lemma lsum_app (l1 l2 : list R) : lsum (l1 ++ l2) = lsum l1 + lsum l2.
Proof. induction l1 as [| x l1 IH]; simpl; [lra | rewrite IH; lra]. Qed.

Lemma lsum_map_ext {A} (f g : A -> R) (l : list A) :
  (forall x, In x l -> f x = g x) -> lsum (map f l) = lsum (map g l).
Proof.
  induction l as [| x l IH]; intros Hfg; [reflexivity |].
  simpl. rewrite (Hfg x) by now left.
  rewrite IH by (intros; apply Hfg; now right). reflexivity.
Qed.

Lemma lsum_map_zero {A} (l : list A) : lsum (map (fun _ => 0) l) = 0.
Proof. induction l as [| x l IH]; simpl; [| rewrite IH]; lra. Qed.

Lemma lsum_map_scal_r {A} (f : A -> R) c (l : list A) :
  lsum (map (fun x => f x * c) l) = lsum (map f l) * c.
Proof. induction l as [| x l IH]; simpl; [| rewrite IH]; lra. Qed.

Lemma lsum_map_scal_l {A} (f : A -> R) c (l : list A) :
  lsum (map (fun x => c * f x) l) = c * lsum (map f l).
Proof. induction l as [| x l IH]; simpl; [| rewrite IH]; lra. Qed.

Lemma lsum_map_nonneg {A} (f : A -> R) (l : list A) :
  (forall x, In x l -> 0 <= f x) -> 0 <= lsum (map f l).
Proof.
  induction l as [| x l IH]; intros Hf; simpl; [lra |].
  pose proof (Hf x (or_introl eq_refl)).
  assert (0 <= lsum (map f l)) by (apply IH; intros; apply Hf; now right).
  lra.
Qed.

(** The sum of a term that is [d x] at [a] and 0 elsewhere. *)
Lemma lsum_indicator_notin (d : nat -> R) (a : nat) (l : list nat) :
  ~ In a l -> lsum (map (fun i => if Nat.eqb i a then d i else 0) l) = 0.
Proof.
  induction l as [| x l IH]; intros Hnin; [reflexivity |].
  simpl. rewrite IH by (intros Hin; apply Hnin; now right).
  destruct (Nat.eqb x a) eqn:E; [| lra].
  apply Nat.eqb_eq in E. exfalso. apply Hnin. now left.
Qed.

Lemma lsum_indicator_once (d : nat -> R) (a : nat) (l : list nat) :
  NoDup l -> In a l ->
  lsum (map (fun i => if Nat.eqb i a then d i else 0) l) = d a.
Proof.
  induction l as [| x l IH]; intros Hnd Hin; [contradiction |].
  inversion Hnd as [| ? ? Hx Hl]; subst. simpl.
  destruct Hin as [-> | Hin].
  - rewrite Nat.eqb_refl, lsum_indicator_notin by assumption. lra.
  - rewrite IH by assumption.
    destruct (Nat.eqb x a) eqn:E; [| lra].
    apply Nat.eqb_eq in E. subst x. contradiction.
Qed.

Lemma lsum_indicator_seq (d : nat -> R) (a n : nat) :
  (a < n)%nat ->
  lsum (map (fun i => if Nat.eqb i a then d i else 0) (seq 0 n)) = d a.
Proof.
  intros Ha. apply lsum_indicator_once; [apply seq_NoDup |].
  apply in_seq. lia.
Qed.

(** A loop whose iterations each add a term, independent of the state, to
    a measure of the state. *)
Lemma for_each_measure {A S} (I : S -> Prop) (m : S -> R) (g : A -> R)
    (body : A -> S -> M S) xs :
  (forall x s s',
      In x xs -> I s -> outcome (body x s) = Ok s' ->
      I s' /\ m s' = m s + g x) ->
  forall s s',
    I s -> outcome (for_each xs body s) = Ok s' ->
    I s' /\ m s' = m s + lsum (map g xs).
Proof.
  induction xs as [| x xs IH]; intros Hbody s s' Hs Hrun.
  - apply outcome_ret in Hrun. subst s'. simpl. split; [assumption | lra].
  - simpl in Hrun. apply outcome_bind_Ok in Hrun as (s1 & H1 & H2).
    destruct (Hbody x s s1 (or_introl eq_refl) Hs H1) as [Hs1 Hm1].
    destruct (IH (fun y t t' Hy => Hbody y t t' (or_intror Hy)) s1 s' Hs1 H2)
      as [Hs' Hm'].
    split; [assumption |]. simpl. lra.
Qed.

(** Every iteration of a loop that returns has returned. *)
Lemma for_each_all_ok {A S} (body : A -> S -> M S) xs :
  forall s s',
    outcome (for_each xs body s) = Ok s' ->
    forall x, In x xs -> exists s1 s2, outcome (body x s1) = Ok s2.
Proof.
  induction xs as [| x xs IH]; intros s s' Hrun y Hy; [contradiction |].
  simpl in Hrun. apply outcome_bind_Ok in Hrun as (s1 & H1 & H2).
  destruct Hy as [<- | Hy]; [eauto | eapply IH; eauto].
Qed.

(** *** Updates of arrays *)

Lemma length_set_nth {A} i (x : A) l : length (set_nth i x l) = length l.
Proof.
  revert i. induction l as [| y l IH]; intros [| i]; simpl; auto.
Qed.

Lemma nth_set_nth {A} i (x d : A) l a :
  (i < length l)%nat ->
  nth a (set_nth i x l) d = if Nat.eqb a i then x else nth a l d.
Proof.
  revert i a. induction l as [| y l IH]; intros i a Hi; [simpl in Hi; lia |].
  destruct i as [| i], a as [| a]; cbn; try reflexivity.
  apply IH. simpl in Hi. lia.
Qed.

Lemma at1_set1 (v : list R) i x a :
  (i < length v)%nat ->
  at1 (set1 v i x) a = if Nat.eqb a i then x else at1 v a.
Proof. intros. unfold at1, set1. now apply nth_set_nth. Qed.

Lemma at2_set2 (a : list (list R)) i j x p q :
  (i < length a)%nat -> (j < length (row a i))%nat ->
  at2 (set2 a i j x) p q
  = if Nat.eqb p i && Nat.eqb q j then x else at2 a p q.
Proof.
  intros Hi Hj. unfold at2, set2, row at 1.
  rewrite nth_set_nth by assumption.
  destruct (Nat.eqb p i) eqn:Epi; cbn [andb]; [| reflexivity].
  apply Nat.eqb_eq in Epi. subst p.
  now rewrite at1_set1.
Qed.

Lemma shape_set2 n m (a : list (list R)) i j x :
  shape n m a -> shape n m (set2 a i j x).
Proof.
  intros [Hn Hm]. unfold set2. split.
  - now rewrite length_set_nth.
  - intros r Hr. apply (In_nth _ _ []) in Hr as (k & Hk & <-).
    rewrite length_set_nth in Hk.
    destruct (Nat.lt_ge_cases i (length a)) as [Hi | Hi].
    + rewrite nth_set_nth by assumption.
      destruct (Nat.eqb k i).
      * unfold set1. rewrite length_set_nth. apply Hm, row_In. lia.
      * apply Hm, nth_In. lia.
    + assert (Hsame : forall (v : list R) (l : list (list R)) k',
                 (length l <= k')%nat -> set_nth k' v l = l).
      { intros v l. induction l as [| y l IH]; intros k' Hk';
          [destruct k'; reflexivity |].
        destruct k'; simpl in Hk'; [lia |]. simpl. f_equal. apply IH. lia. }
      rewrite Hsame by assumption. apply Hm, nth_In. lia.
Qed.

Lemma shape_np_zeros2 n m : shape n m (np_zeros2 n m).
Proof.
  unfold np_zeros2, np_zeros. split; [apply repeat_length |].
  intros r Hr. apply repeat_spec in Hr. subst r. apply repeat_length.
Qed.

Lemma at1_zeros n i : at1 (np_zeros n : list R) i = 0.
Proof. exact (@at1_np_zeros R _ n i). Qed.

Lemma at2_zeros n m i j : at2 (np_zeros2 n m : list (list R)) i j = 0.
Proof.
  unfold at2, row, np_zeros2.
  destruct (Nat.lt_ge_cases i n) as [Hi | Hi].
  - rewrite nth_repeat_lt by assumption. apply at1_zeros.
  - rewrite nth_overflow by (rewrite repeat_length; lia). apply at1_nil.
Qed.

Lemma shape_table (f : nat -> nat -> R) n m :
  shape n m (map (fun i => map (fun j => f i j) (seq 0 m)) (seq 0 n)).
Proof.
  split; [now rewrite length_map, length_seq |].
  intros r Hr. apply in_map_iff in Hr as (i & <- & _).
  now rewrite length_map, length_seq.
Qed.

Lemma shape_madd n m (a b : list (list R)) :
  shape n m a -> shape n m b -> shape n m (madd a b).
Proof.
  intros [Han Ham] [Hbn Hbm]. unfold madd, vadd. split.
  - rewrite length_zip_with. unfold vec in *. rewrite Han, Hbn.
    apply Nat.min_id.
  - clear Han Hbn. revert b Hbm.
    induction a as [| x a IH]; intros [| y b] Hbm r Hr;
      cbn [zip_with] in Hr; try contradiction.
    destruct Hr as [<- | Hr].
    + unfold vadd. rewrite length_zip_with.
      rewrite (Ham x), (Hbm y) by now left. apply Nat.min_id.
    + apply (IH (fun r Hr => Ham r (or_intror Hr)) b
               (fun r Hr => Hbm r (or_intror Hr)) r Hr).
Qed.

Lemma at2_madd n m (a b : list (list R)) p q :
  shape n m a -> shape n m b -> (p < n)%nat -> (q < m)%nat ->
  at2 (madd a b) p q = at2 a p q + at2 b p q.
Proof.
  intros Ha Hb Hp Hq. unfold at2, madd.
  rewrite row_zip_with; [| reflexivity | intros; apply zip_with_nil_r].
  apply at1_vadd.
  - rewrite (shape_row n m a p Ha Hp). exact Hq.
  - rewrite (shape_row n m b p Hb Hp). exact Hq.
Qed.

End Loops.

Module Gaps.
Import Sums Loops.
Local Open Scope R_scope.

Lemma outcome_dict_lookup {K V} (keq : K -> K -> bool) name
    (d : list (K * V)) k v :
  outcome (dict_lookup keq name d k) = Ok v -> dict_get keq d k = Some v.
Proof.
  unfold dict_lookup. destruct (dict_get keq d k); simpl; congruence.
Qed.

Lemma outcome_index {A} what (l : list A) i x :
  outcome (index what l i) = Ok x -> nth_error l i = Some x.
Proof. unfold index. destruct (nth_error l i); simpl; congruence. Qed.

Section PerGap.
Variables (lib : NumLib R) (self : @Learner R) (pz : @Patient R)
          (Alpha Beta : list (list R)).

Lemma zeta_at_value t idx Z :
  outcome (zeta_at self pz Alpha Beta t idx) = Ok Z ->
  exists d P a b bv,
    expm_Q_t self = Some d /\ dict_get Reqb d t = Some P /\
    Z = zeta P a b bv.
Proof.
  unfold zeta_at, get_zeta. intros Hrun.
  apply outcome_bind_Ok in Hrun as (a & _ & Hrun).
  apply outcome_bind_Ok in Hrun as (b & _ & Hrun).
  apply outcome_bind_Ok in Hrun as (obs & _ & Hrun).
  apply outcome_bind_Ok in Hrun as (o & _ & Hrun).
  apply outcome_bind_Ok in Hrun as (bv & _ & Hrun).
  apply outcome_bind_Ok in Hrun as (d & Hd & Hrun).
  apply outcome_bind_Ok in Hrun as (P & HP & Hrun).
  apply outcome_getattr in Hd. apply outcome_dict_lookup in HP.
  apply outcome_ret in Hrun. exists d, P, a, b, bv. auto.
Qed.

Lemma gap_facts t idx Z :
  outcome (gap_at pz idx) = Ok t ->
  outcome (zeta_at self pz Alpha Beta t idx) = Ok Z ->
  gap_time pz idx = t /\ gap_zeta self pz Alpha Beta idx = Z /\
  gap_ok self pz Alpha Beta idx.
Proof.
  intros Ht HZ.
  assert (Et : gap_time pz idx = t) by (unfold gap_time; now rewrite Ht).
  assert (EZ : gap_zeta self pz Alpha Beta idx = Z)
    by (unfold gap_zeta; now rewrite Et, HZ).
  repeat split; try assumption.
  destruct (zeta_at_value _ _ _ HZ) as (d & P & a & b & bv & Hd & HP & ->).
  exists d, a, b, bv.
  assert (EP : gap_kernel self pz idx = P)
    by (unfold gap_kernel; now rewrite Hd, Et, HP).
  rewrite Et, EP, EZ. auto.
Qed.

Lemma expm_gap_sum_value A i j idx s :
  outcome (expm_gap_sum lib self pz Alpha Beta A i j idx) = Ok s ->
  s = expm_temp_sum (num_state self) (gap_kernel self pz idx)
        (gap_zeta self pz Alpha Beta idx)
        (expm lib (mscale_r (set2 A i (j + num_state self) 1)
                     (gap_time pz idx))) /\
  gap_ok self pz Alpha Beta idx.
Proof.
  unfold expm_gap_sum. intros Hrun.
  apply outcome_bind_Ok in Hrun as (t & Ht & Hrun).
  apply outcome_bind_Ok in Hrun as (d & Hd & Hrun).
  apply outcome_bind_Ok in Hrun as (P & HP & Hrun).
  apply outcome_bind_Ok in Hrun as (Z & HZ & Hrun).
  apply outcome_ret in Hrun. apply outcome_getattr in Hd.
  apply outcome_dict_lookup in HP.
  change (dict_get Reqb d t = Some P) in HP.
  destruct (gap_facts _ _ _ Ht HZ) as (Et & EZ & Hok).
  assert (EP : gap_kernel self pz idx = P)
    by (unfold gap_kernel; now rewrite Hd, Et, HP).
  rewrite Et, EZ, EP. split; [now symmetry | assumption].
Qed.

Lemma Eigen_Nij_time_interval_value Um Vm Z t Psi N :
  U self = Some Um -> V self = Some Vm ->
  outcome (Eigen_Nij_time_interval self Z t Psi) = Ok N ->
  exists d P,
    expm_Q_t self = Some d /\ dict_get Reqb d t = Some P /\
    N = map (fun i =>
               map (fun j =>
                      if negb (Nat.eqb i j)
                      then at2 (Q self) i j
                           * np_sum2 (np_multiply (A_kernel Vm Um Psi i j)
                                        (contraction_B Um Vm (mdiv Z P)))
                      else 0)
                   (seq 0 (num_state self)))
            (seq 0 (num_state self)).
Proof.
  intros HU HV. unfold Eigen_Nij_time_interval. rewrite HU, HV.
  intros Hrun.
  apply outcome_bind_Ok in Hrun as (d & Hd & Hrun).
  apply outcome_bind_Ok in Hrun as (P & HP & Hrun).
  cbn [getattr] in Hrun. rewrite !bind_ret_l in Hrun.
  apply outcome_ret in Hrun. apply outcome_getattr in Hd.
  apply outcome_dict_lookup in HP. exists d, P. auto.
Qed.

Lemma Eigen_TauI_time_interval_value Um Vm Z t Psi tau :
  U self = Some Um -> V self = Some Vm ->
  outcome (Eigen_TauI_time_interval self Z t Psi) = Ok tau ->
  exists d P,
    expm_Q_t self = Some d /\ dict_get Reqb d t = Some P /\
    tau = map (fun i =>
                 np_sum2 (np_multiply (A_kernel Vm Um Psi i i)
                            (contraction_B Um Vm (mdiv Z P))))
              (seq 0 (length (Q self))).
Proof.
  intros HU HV. unfold Eigen_TauI_time_interval. rewrite HU, HV.
  intros Hrun.
  apply outcome_bind_Ok in Hrun as (d & Hd & Hrun).
  apply outcome_bind_Ok in Hrun as (P & HP & Hrun).
  cbn [getattr] in Hrun. rewrite !bind_ret_l in Hrun.
  apply outcome_ret in Hrun. apply outcome_getattr in Hd.
  apply outcome_dict_lookup in HP. exists d, P. auto.
Qed.

(** One iteration of the loop of [Eigen_Nij_all_times] (on demand). *)
Lemma Eigen_Nij_step Um Vm idx acc acc' :
  U self = Some Um -> V self = Some Vm ->
  outcome (t <- gap_at pz idx ;;
           Zeta_matrix <- zeta_at self pz Alpha Beta t idx ;;
           N <- Eigen_Nij_time_interval self Zeta_matrix t
                  (calculate_Psi_eigen lib self t) ;;
           ret (madd acc N)) = Ok acc' ->
  acc' = madd acc
           (map (fun i =>
                   map (fun j =>
                          if negb (Nat.eqb i j)
                          then at2 (Q self) i j
                               * eigen_term lib self Um Vm pz Alpha Beta
                                   i j idx
                          else 0)
                       (seq 0 (num_state self)))
                (seq 0 (num_state self))) /\
  gap_ok self pz Alpha Beta idx.
Proof.
  intros HU HV Hrun.
  apply outcome_bind_Ok in Hrun as (t & Ht & Hrun).
  apply outcome_bind_Ok in Hrun as (Z & HZ & Hrun).
  apply outcome_bind_Ok in Hrun as (N & HN & Hrun).
  apply outcome_ret in Hrun.
  destruct (gap_facts _ _ _ Ht HZ) as (Et & EZ & Hok).
  destruct (Eigen_Nij_time_interval_value _ _ _ _ _ _ HU HV HN)
    as (d & P & Hd & HP & ->).
  assert (EP : gap_kernel self pz idx = P)
    by (unfold gap_kernel; now rewrite Hd, Et, HP).
  split; [| assumption]. subst acc'. unfold eigen_term.
  now rewrite Et, EZ, EP.
Qed.

Lemma Eigen_TauI_step Um Vm idx acc acc' :
  U self = Some Um -> V self = Some Vm ->
  outcome (t <- gap_at pz idx ;;
           Zeta_matrix <- zeta_at self pz Alpha Beta t idx ;;
           tau <- Eigen_TauI_time_interval self Zeta_matrix t
                    (calculate_Psi_eigen lib self t) ;;
           ret (vadd acc tau)) = Ok acc' ->
  acc' = vadd acc
           (map (fun i => eigen_term lib self Um Vm pz Alpha Beta i i idx)
              (seq 0 (length (Q self)))) /\
  gap_ok self pz Alpha Beta idx.
Proof.
  intros HU HV Hrun.
  apply outcome_bind_Ok in Hrun as (t & Ht & Hrun).
  apply outcome_bind_Ok in Hrun as (Z & HZ & Hrun).
  apply outcome_bind_Ok in Hrun as (tau & Htau & Hrun).
  apply outcome_ret in Hrun.
  destruct (gap_facts _ _ _ Ht HZ) as (Et & EZ & Hok).
  destruct (Eigen_TauI_time_interval_value _ _ _ _ _ _ HU HV Htau)
    as (d & P & Hd & HP & ->).
  assert (EP : gap_kernel self pz idx = P)
    by (unfold gap_kernel; now rewrite Hd, Et, HP).
  split; [| assumption]. subst acc'. unfold eigen_term.
  now rewrite Et, EZ, EP.
Qed.

(** *** The loops over the gaps *)

Variables (Um Vm : list (list R)) (n : nat) (idxs : list nat).
Hypotheses (HU : U self = Some Um) (HV : V self = Some Vm)
           (Hn : num_state self = n) (HQ : length (Q self) = n).

Lemma Eigen_Nij_loop Ne :
  outcome
    (for_each idxs
       (fun i Nij_mat =>
          t <- gap_at pz i ;;
          Zeta_matrix <- zeta_at self pz Alpha Beta t i ;;
          N <- Eigen_Nij_time_interval self Zeta_matrix t
                 (calculate_Psi_eigen lib self t) ;;
          ret (madd Nij_mat N))
       (np_zeros2 n n)) = Ok Ne ->
  (forall a b, (a < n)%nat -> (b < n)%nat ->
     at2 Ne a b
     = lsum (map (fun idx =>
                    if negb (Nat.eqb a b)
                    then at2 (Q self) a b
                         * eigen_term lib self Um Vm pz Alpha Beta a b idx
                    else 0) idxs)) /\
  (forall idx, In idx idxs -> gap_ok self pz Alpha Beta idx).
Proof.
  intros Hrun. split.
  - intros a b Ha Hb.
    assert (Hm : shape n n Ne /\
                 at2 Ne a b
                 = at2 (np_zeros2 n n) a b
                   + lsum (map (fun idx =>
                        if negb (Nat.eqb a b)
                        then at2 (Q self) a b
                             * eigen_term lib self Um Vm pz Alpha Beta a b idx
                        else 0) idxs)).
    { revert Hrun.
      apply (for_each_measure (shape n n) (fun acc => at2 acc a b)
               (fun idx =>
                  if negb (Nat.eqb a b)
                  then at2 (Q self) a b
                       * eigen_term lib self Um Vm pz Alpha Beta a b idx
                  else 0)); [| apply shape_np_zeros2].
      intros idx acc acc' _ Hacc Hstep.
      apply (Eigen_Nij_step Um Vm) in Hstep as [-> _]; [| assumption ..].
      rewrite Hn.
      split; [apply shape_madd; [assumption | apply shape_table] |].
      rewrite (at2_madd n n) by (try assumption; apply shape_table).
      f_equal.
      rewrite (at2_table
                 (fun i j =>
                    if negb (Nat.eqb i j)
                    then at2 (Q self) i j
                         * eigen_term lib self Um Vm pz Alpha Beta i j idx
                    else 0)).
      replace (a <? n)%nat with true by (symmetry; apply Nat.ltb_lt; lia).
      replace (b <? n)%nat with true by (symmetry; apply Nat.ltb_lt; lia).
      reflexivity. }
    destruct Hm as [_ Hm]. rewrite Hm, at2_zeros. lra.
  - intros idx Hidx.
    destruct (for_each_all_ok _ _ _ _ Hrun idx Hidx) as (s1 & s2 & Hstep).
    now apply (Eigen_Nij_step Um Vm) in Hstep as [_ Hok].
Qed.

Lemma Eigen_TauI_loop Te :
  outcome
    (for_each idxs
       (fun i TauI =>
          t <- gap_at pz i ;;
          Zeta_matrix <- zeta_at self pz Alpha Beta t i ;;
          tau <- Eigen_TauI_time_interval self Zeta_matrix t
                   (calculate_Psi_eigen lib self t) ;;
          ret (vadd TauI tau))
       (np_zeros n)) = Ok Te ->
  (forall a, (a < n)%nat ->
     at1 Te a
     = lsum (map (fun idx =>
                    eigen_term lib self Um Vm pz Alpha Beta a a idx) idxs)) /\
  (forall idx, In idx idxs -> gap_ok self pz Alpha Beta idx).
Proof.
  intros Hrun. split.
  - intros a Ha.
    assert (Hm : length Te = n /\
                 at1 Te a
                 = at1 (np_zeros n : list R) a
                   + lsum (map (fun idx =>
                        eigen_term lib self Um Vm pz Alpha Beta a a idx)
                        idxs)).
    { revert Hrun.
      apply (for_each_measure (fun acc : list R => length acc = n)
               (fun acc => at1 acc a)
               (fun idx => eigen_term lib self Um Vm pz Alpha Beta a a idx));
        [| apply repeat_length].
      intros idx acc acc' _ Hacc Hstep.
      apply (Eigen_TauI_step Um Vm) in Hstep as [-> _]; [| assumption ..].
      rewrite HQ. split.
      - unfold vadd. rewrite length_zip_with, length_map, length_seq.
        unfold vec in *. rewrite Hacc. apply Nat.min_id.
      - rewrite at1_vadd
          by (rewrite ?length_map, ?length_seq; unfold vec in *; lia).
        f_equal.
        rewrite (at1_table
                   (fun i => eigen_term lib self Um Vm pz Alpha Beta i i idx)).
        replace (a <? n)%nat with true by (symmetry; apply Nat.ltb_lt; lia).
        reflexivity. }
    destruct Hm as [_ Hm]. rewrite Hm, at1_zeros. lra.
  - intros idx Hidx.
    destruct (for_each_all_ok _ _ _ _ Hrun idx Hidx) as (s1 & s2 & Hstep).
    now apply (Eigen_TauI_step Um Vm) in Hstep as [_ Hok].
Qed.

(** *** The loops of the augmented-exponential method *)

Lemma add_at1 (v : list R) i x a :
  (i < length v)%nat ->
  at1 (set1 v i (at1 v i + x)) a
  = at1 v a + (if Nat.eqb a i then x else 0).
Proof.
  intros Hi. rewrite at1_set1 by assumption.
  destruct (Nat.eqb a i) eqn:E; [| lra].
  apply Nat.eqb_eq in E. now subst a.
Qed.

Lemma add_at2 m (N : list (list R)) i j x a b :
  shape m m N -> (i < m)%nat -> (j < m)%nat ->
  at2 (set2 N i j (at2 N i j + x)) a b
  = at2 N a b + (if Nat.eqb a i && Nat.eqb b j then x else 0).
Proof.
  intros HN Hi Hj.
  rewrite at2_set2
    by (try rewrite (shape_row m m N i HN Hi); destruct HN; unfold vec in *;
        lia).
  destruct (Nat.eqb a i) eqn:Ea; cbn [andb]; [| lra].
  destruct (Nat.eqb b j) eqn:Eb; [| lra].
  apply Nat.eqb_eq in Ea, Eb. now subst a b.
Qed.

(** The first pair of loops: the holding times, and their share of the
    diagonal of [Nij_mat]. *)
Lemma Expm_loop1_measure (m : list R * list (list R) -> R)
    (d : nat -> nat -> R) TN TN' :
  (forall i idx Tv N, (i < n)%nat -> length Tv = n -> shape n n N ->
     m (set1 Tv i (at1 Tv i + expm_term lib self pz Alpha Beta i i idx),
        set2 N i i
          (at2 N i i
           + expm_term lib self pz Alpha Beta i i idx
             * (- at2 (Q self) i i)))
     = m (Tv, N) + d i idx) ->
  length (fst TN) = n -> shape n n (snd TN) ->
  outcome
    (for_each (seq 0 n)
       (fun i TN =>
          for_each idxs
            (fun t_index '(TauI, Nij_mat) =>
               temp_sum <- expm_gap_sum lib self pz Alpha Beta
                             (augmented (num_state self) (Q self)) i i
                             t_index ;;
               let TauI := set1 TauI i (at1 TauI i + temp_sum) in
               let ni := temp_sum * (- at2 (Q self) i i) in
               ret (TauI, set2 Nij_mat i i (at2 Nij_mat i i + ni)))
            TN)
       TN) = Ok TN' ->
  (length (fst TN') = n /\ shape n n (snd TN')) /\
  m TN' = m TN + lsum (map (fun i => lsum (map (d i) idxs)) (seq 0 n)).
Proof.
  intros Hd HT HN.
  apply (for_each_measure
           (fun s : list R * list (list R) =>
              length (fst s) = n /\ shape n n (snd s))
           m (fun i => lsum (map (d i) idxs))); [| now split].
  intros i s s' Hi Hs.
  apply in_seq in Hi.
  apply (for_each_measure
           (fun s : list R * list (list R) =>
              length (fst s) = n /\ shape n n (snd s))
           m (d i)); [| assumption].
  clear s s' Hs. intros idx [Tv N] s' _ [HTv HNs] Hstep.
  cbn [fst snd] in HTv, HNs.
  apply outcome_bind_Ok in Hstep as (x & Hx & Hstep).
  apply outcome_ret in Hstep.
  apply expm_gap_sum_value in Hx as [Hx _].
  fold (expm_term lib self pz Alpha Beta i i idx) in Hx. subst x s'.
  cbn [fst snd]. split.
  - split; [unfold set1; now rewrite length_set_nth | now apply shape_set2].
  - apply Hd; [lia | assumption ..].
Qed.

(** The last loops: the off-diagonal entries that the mask allows. *)
Lemma Expm_loop2_measure (m : list (list R) -> R)
    (d : nat -> nat -> nat -> R) N N' :
  (forall i j idx Nm, (i < n)%nat -> (j < n)%nat -> shape n n Nm ->
     m (set2 Nm i j
          (at2 Nm i j
           + expm_term lib self pz Alpha Beta i j idx * at2 (Q self) i j))
     = m Nm + d i j idx) ->
  shape n n N ->
  outcome
    (for_each (seq 0 n)
       (fun i Nij_mat =>
          for_each (seq 0 n)
            (fun j Nij_mat =>
               if Reqb (at2 (Q_struct self) i j) 1 then
                 for_each idxs
                   (fun t_index Nij_mat =>
                      temp_sum <- expm_gap_sum lib self pz Alpha Beta
                                    (augmented (num_state self) (Q self))
                                    i j t_index ;;
                      let nij := temp_sum * at2 (Q self) i j in
                      ret (set2 Nij_mat i j (at2 Nij_mat i j + nij)))
                   Nij_mat
               else ret Nij_mat)
            Nij_mat)
       N) = Ok N' ->
  shape n n N' /\
  m N' = m N
         + lsum (map (fun i =>
                   lsum (map (fun j =>
                           if Reqb (at2 (Q_struct self) i j) 1
                           then lsum (map (d i j) idxs) else 0)
                         (seq 0 n)))
                 (seq 0 n)).
Proof.
  intros Hd HN.
  apply (for_each_measure (shape n n) m
           (fun i =>
              lsum (map (fun j =>
                      if Reqb (at2 (Q_struct self) i j) 1
                      then lsum (map (d i j) idxs) else 0)
                    (seq 0 n)))); [| assumption].
  intros i s s' Hi Hs. apply in_seq in Hi.
  apply (for_each_measure (shape n n) m
           (fun j =>
              if Reqb (at2 (Q_struct self) i j) 1
              then lsum (map (d i j) idxs) else 0)); [| assumption].
  clear s s' Hs. intros j s s' Hj Hs. apply in_seq in Hj.
  destruct (Reqb (at2 (Q_struct self) i j) 1).
  - apply (for_each_measure (shape n n) m (d i j)); [| assumption].
    clear s s' Hs. intros idx Nm s' _ HNm Hstep.
    apply outcome_bind_Ok in Hstep as (x & Hx & Hstep).
    apply outcome_ret in Hstep.
    apply expm_gap_sum_value in Hx as [Hx _].
    fold (expm_term lib self pz Alpha Beta i j idx) in Hx. subst x s'.
    split; [now apply shape_set2 |].
    apply Hd; [lia | lia | assumption].
  - intros Hrun. apply outcome_ret in Hrun. subst s'.
    split; [assumption | lra].
Qed.

Lemma lsum_indicator_inner {A} (f : A -> R) (c : bool) (l : list A) :
  lsum (map (fun x => if c then f x else 0) l)
  = if c then lsum (map f l) else 0.
Proof. destruct c; [reflexivity | apply lsum_map_zero]. Qed.

(** What the two groups of loops leave in [TauI] and [Nij_mat]. *)
Lemma Expm_loops_value Tx N1 Nx :
  outcome
    (for_each (seq 0 n)
       (fun i TN =>
          for_each idxs
            (fun t_index '(TauI, Nij_mat) =>
               temp_sum <- expm_gap_sum lib self pz Alpha Beta
                             (augmented (num_state self) (Q self)) i i
                             t_index ;;
               let TauI := set1 TauI i (at1 TauI i + temp_sum) in
               let ni := temp_sum * (- at2 (Q self) i i) in
               ret (TauI, set2 Nij_mat i i (at2 Nij_mat i i + ni)))
            TN)
       (np_zeros n, np_zeros2 n n)) = Ok (Tx, N1) ->
  outcome
    (for_each (seq 0 n)
       (fun i Nij_mat =>
          for_each (seq 0 n)
            (fun j Nij_mat =>
               if Reqb (at2 (Q_struct self) i j) 1 then
                 for_each idxs
                   (fun t_index Nij_mat =>
                      temp_sum <- expm_gap_sum lib self pz Alpha Beta
                                    (augmented (num_state self) (Q self))
                                    i j t_index ;;
                      let nij := temp_sum * at2 (Q self) i j in
                      ret (set2 Nij_mat i j (at2 Nij_mat i j + nij)))
                   Nij_mat
               else ret Nij_mat)
            Nij_mat)
       N1) = Ok Nx ->
  (forall a, (a < n)%nat ->
     at1 Tx a
     = lsum (map (fun idx => expm_term lib self pz Alpha Beta a a idx)
               idxs)) /\
  (forall a b, (a < n)%nat -> (b < n)%nat ->
     at2 Nx a b
     = (if Nat.eqb a b
        then lsum (map (fun idx => expm_term lib self pz Alpha Beta a a idx)
                     idxs) * (- at2 (Q self) a a)
        else 0)
       + (if Reqb (at2 (Q_struct self) a b) 1
          then lsum (map (fun idx => expm_term lib self pz Alpha Beta a b idx)
                       idxs) * at2 (Q self) a b
          else 0)).
Proof.
  intros H1 H2.
  assert (H0T : length (fst (np_zeros n : list R, np_zeros2 n n
                               : list (list R))) = n)
    by apply repeat_length.
  assert (H0N : shape n n (snd (np_zeros n : list R, np_zeros2 n n
                                  : list (list R))))
    by apply shape_np_zeros2.
  split.
  - intros a Ha.
    destruct (Expm_loop1_measure (fun s => at1 (fst s) a)
                (fun i idx =>
                   if Nat.eqb a i
                   then expm_term lib self pz Alpha Beta i i idx else 0)
                _ _
                (fun i idx Tv N Hi HT HN =>
                   add_at1 Tv i _ a
                     (eq_ind_r (fun k => (i < k)%nat) Hi HT))
                H0T H0N H1) as [_ Hm].
    cbn [fst] in Hm. rewrite Hm, at1_zeros.
    rewrite (lsum_map_ext _
               (fun i => if Nat.eqb i a
                         then lsum (map (fun idx =>
                                 expm_term lib self pz Alpha Beta i i idx)
                                 idxs)
                         else 0))
      by (intros i _; rewrite lsum_indicator_inner, Nat.eqb_sym;
          reflexivity).
    rewrite (lsum_indicator_seq
               (fun i => lsum (map (fun idx =>
                    expm_term lib self pz Alpha Beta i i idx) idxs)))
      by assumption.
    lra.
  - intros a b Ha Hb.
    destruct (Expm_loop1_measure (fun s => at2 (snd s) a b)
                (fun i idx =>
                   if Nat.eqb a i && Nat.eqb b i
                   then expm_term lib self pz Alpha Beta i i idx
                        * (- at2 (Q self) i i)
                   else 0)
                _ _
                (fun i idx Tv N Hi HT HN => add_at2 n N i i _ a b HN Hi Hi)
                H0T H0N H1) as [[_ HN1] Hm1].
    cbn [snd] in Hm1, HN1.
    destruct (Expm_loop2_measure (fun N => at2 N a b)
                (fun i j idx =>
                   if Nat.eqb a i && Nat.eqb b j
                   then expm_term lib self pz Alpha Beta i j idx
                        * at2 (Q self) i j
                   else 0)
                _ _
                (fun i j idx Nm Hi Hj HN => add_at2 n Nm i j _ a b HN Hi Hj)
                HN1 H2) as [_ Hm2].
    rewrite Hm2, Hm1, at2_zeros. clear Hm1 Hm2.
    rewrite (lsum_map_ext _
               (fun i => if Nat.eqb i a
                         then (if Nat.eqb b i
                               then lsum (map (fun idx =>
                                       expm_term lib self pz Alpha Beta
                                         i i idx) idxs)
                                    * (- at2 (Q self) i i)
                               else 0)
                         else 0) (seq 0 n)).
    2:{ intros i _. rewrite lsum_indicator_inner, (Nat.eqb_sym i a).
        destruct (Nat.eqb a i), (Nat.eqb b i); cbn [andb]; try reflexivity.
        apply lsum_map_scal_r. }
    rewrite (lsum_indicator_seq
               (fun i => if Nat.eqb b i
                         then lsum (map (fun idx =>
                                 expm_term lib self pz Alpha Beta i i idx)
                                 idxs)
                              * (- at2 (Q self) i i)
                         else 0)) by assumption.
    rewrite (lsum_map_ext
               (fun i =>
                  lsum (map (fun j =>
                          if Reqb (at2 (Q_struct self) i j) 1
                          then lsum (map (fun idx =>
                                  if Nat.eqb a i && Nat.eqb b j
                                  then expm_term lib self pz Alpha Beta
                                         i j idx * at2 (Q self) i j
                                  else 0) idxs)
                          else 0) (seq 0 n)))
               (fun i => if Nat.eqb i a
                         then (if Reqb (at2 (Q_struct self) i b) 1
                               then lsum (map (fun idx =>
                                       expm_term lib self pz Alpha Beta
                                         i b idx) idxs)
                                    * at2 (Q self) i b
                               else 0)
                         else 0) (seq 0 n)).
    2:{ intros i _. rewrite (Nat.eqb_sym i a).
        rewrite (lsum_map_ext _
                   (fun j => if Nat.eqb j b
                             then (if Nat.eqb a i
                                   then (if Reqb (at2 (Q_struct self) i j) 1
                                         then lsum (map (fun idx =>
                                                 expm_term lib self pz Alpha
                                                   Beta i j idx) idxs)
                                              * at2 (Q self) i j
                                         else 0)
                                   else 0)
                             else 0) (seq 0 n)).
        2:{ intros j _. rewrite lsum_indicator_inner, (Nat.eqb_sym j b).
            destruct (Reqb (at2 (Q_struct self) i j) 1), (Nat.eqb a i),
              (Nat.eqb b j); cbn [andb]; try reflexivity.
            apply lsum_map_scal_r. }
        rewrite (lsum_indicator_seq
                   (fun j => if Nat.eqb a i
                             then (if Reqb (at2 (Q_struct self) i j) 1
                                   then lsum (map (fun idx =>
                                           expm_term lib self pz Alpha
                                             Beta i j idx) idxs)
                                        * at2 (Q self) i j
                                   else 0)
                             else 0)) by assumption.
        reflexivity. }
    rewrite (lsum_indicator_seq
               (fun i => if Reqb (at2 (Q_struct self) i b) 1
                         then lsum (map (fun idx =>
                                 expm_term lib self pz Alpha Beta i b idx)
                                 idxs)
                              * at2 (Q self) i b
                         else 0)) by assumption.
    rewrite (Nat.eqb_sym b a). lra.
Qed.

End PerGap.
End Gaps.

Module Runs.
Import Sums Loops Gaps.
Local Open Scope R_scope.

Ltac unbind H :=
  repeat (let x := fresh "x" in
          let Hx := fresh "Hx" in
          apply outcome_bind_Ok in H as (x & Hx & H)).

Ltac rebind :=
  repeat match goal with
         | H : outcome ?m = Ok ?a |- context [bind ?m ?k] =>
             rewrite (@outcome_bind_intro _ _ m k a H); cbv beta
         end.

Section Frames.
Variables (lib : NumLib R) (self : @Learner R).

Lemma same_reads_refl p : same_reads p p.
Proof. repeat split. Qed.

Lemma same_reads_sym p p' : same_reads p p' -> same_reads p' p.
Proof. intros (H1 & H2 & H3 & H4). repeat split; now symmetry. Qed.

Lemma same_reads_trans p p' p'' :
  same_reads p p' -> same_reads p' p'' -> same_reads p p''.
Proof.
  intros (H1 & H2 & H3 & H4) (K1 & K2 & K3 & K4).
  repeat split; etransitivity; eassumption.
Qed.

(** The forward pass reads the data and the emission table, and writes
    [Alpha] and [C]. *)
Lemma alpha_transport p p' pa :
  same_reads p p' ->
  outcome (alpha_forward_recursion p self) = Ok pa ->
  exists A Cv,
    pa = set_Alpha_C p A Cv /\
    outcome (alpha_forward_recursion p' self) = Ok (set_Alpha_C p' A Cv).
Proof.
  intros (HO & Hn & Ht & He).
  unfold alpha_forward_recursion, get_alpha_vector, b_s.
  rewrite <- HO, <- Hn, <- Ht, <- He. intros H.
  unbind H. apply outcome_ret in H.
  eexists _, _. split; [symmetry; exact H |].
  rebind. reflexivity.
Qed.

(** The backward pass reads, in addition, [C], and writes [Beta]. *)
Lemma beta_transport p p' pb :
  same_reads p p' -> C p = C p' ->
  outcome (beta_backward_recursion lib p self) = Ok pb ->
  exists B,
    pb = set_Beta p B /\
    outcome (beta_backward_recursion lib p' self) = Ok (set_Beta p' B).
Proof.
  intros (HO & Hn & Ht & He) HC.
  unfold beta_backward_recursion, get_beta_vector, b_s.
  rewrite <- HO, <- Hn, <- Ht, <- He, <- HC. intros H.
  unbind H. apply outcome_ret in H.
  eexists. split; [symmetry; exact H |].
  rebind. reflexivity.
Qed.

(** The emission table is a function of the observations and the model. *)
Lemma emissions_transport p p' pe :
  O p = O p' ->
  outcome (get_all_emissions_gaussian lib p self) = Ok pe ->
  exists em,
    pe = set_emissions p em /\
    outcome (get_all_emissions_gaussian lib p' self)
    = Ok (set_emissions p' em).
Proof.
  intros HO. unfold get_all_emissions_gaussian. rewrite <- HO. intros H.
  unbind H. apply outcome_ret in H.
  eexists. split; [symmetry; exact H |].
  rebind. reflexivity.
Qed.

(** What the engine reads for a gap depends on the data and the emission
    table only. *)
Lemma gap_time_reads p p' idx :
  same_reads p p' -> gap_time p idx = gap_time p' idx.
Proof.
  intros (HO & Hn & Ht & He). unfold gap_time, gap_at. now rewrite Ht.
Qed.

Lemma gap_kernel_reads p p' idx :
  same_reads p p' -> gap_kernel self p idx = gap_kernel self p' idx.
Proof.
  intros H. unfold gap_kernel. now rewrite (gap_time_reads p p' idx H).
Qed.

Lemma gap_zeta_reads p p' A B idx :
  same_reads p p' -> gap_zeta self p A B idx = gap_zeta self p' A B idx.
Proof.
  intros H. unfold gap_zeta. rewrite (gap_time_reads p p' idx H).
  destruct H as (HO & Hn & Ht & He).
  unfold zeta_at, get_zeta, b_s. now rewrite HO, He.
Qed.

Lemma eigen_term_reads Um Vm p p' A B i j idx :
  same_reads p p' ->
  eigen_term lib self Um Vm p A B i j idx
  = eigen_term lib self Um Vm p' A B i j idx.
Proof.
  intros H. unfold eigen_term.
  now rewrite (gap_time_reads p p' idx H), (gap_kernel_reads p p' idx H),
    (gap_zeta_reads p p' A B idx H).
Qed.

End Frames.
(** *** The three functions of the engine, run on one patient *)

Section Engine.
Variables (lib : NumLib R) (self : @Learner R).

Lemma Eigen_Nij_run patient p1 Ne :
  outcome (Eigen_Nij_all_times lib self patient true) = Ok (p1, Ne) ->
  exists T_ A Cv B em,
    num_obs patient = Some T_ /\
    outcome (alpha_forward_recursion patient self)
    = Ok (set_Alpha_C patient A Cv) /\
    outcome (beta_backward_recursion lib (set_Alpha_C patient A Cv) self)
    = Ok (set_Beta (set_Alpha_C patient A Cv) B) /\
    outcome (get_all_emissions_gaussian lib
               (set_Beta (set_Alpha_C patient A Cv) B) self)
    = Ok p1 /\
    p1 = set_emissions (set_Beta (set_Alpha_C patient A Cv) B) em /\
    outcome
      (for_each (seq 1 (T_ - 1))
         (fun i Nij_mat =>
            t <- gap_at p1 i ;;
            Zeta_matrix <- zeta_at self p1 A B t i ;;
            N <- Eigen_Nij_time_interval self Zeta_matrix t
                   (calculate_Psi_eigen lib self t) ;;
            ret (madd Nij_mat N))
         (np_zeros2 (num_state self) (num_state self))) = Ok Ne.
Proof.
  unfold Eigen_Nij_all_times. intros H.
  apply outcome_bind_Ok in H as (T_ & HT & H).
  apply outcome_bind_Ok in H as (pa & Hpa & H).
  apply outcome_bind_Ok in H as (A & HA & H).
  apply outcome_bind_Ok in H as (pb & Hpb & H).
  apply outcome_bind_Ok in H as (B & HB & H).
  apply outcome_bind_Ok in H as (pe & Hpe & H).
  apply outcome_bind_Ok in H as (N & HN & H).
  apply outcome_ret in H. injection H as <- <-.
  apply outcome_getattr in HT, HA, HB.
  destruct (alpha_transport self patient patient pa (same_reads_refl _) Hpa)
    as (A' & Cv & -> & _).
  cbn in HA. injection HA as ->.
  destruct (beta_transport lib self _ _ pb (same_reads_refl _) eq_refl Hpb)
    as (B' & -> & _).
  cbn in HB. injection HB as ->.
  destruct (emissions_transport lib self _ _ pe eq_refl Hpe)
    as (em & Epe & _).
  exists T_, A, Cv, B, em. repeat split; assumption.
Qed.

Lemma Eigen_TauI_run patient p2 Te :
  outcome (Eigen_TauI_all_times lib self patient true) = Ok (p2, Te) ->
  exists T_ A Cv B,
    num_obs patient = Some T_ /\
    outcome (alpha_forward_recursion patient self)
    = Ok (set_Alpha_C patient A Cv) /\
    outcome (beta_backward_recursion lib (set_Alpha_C patient A Cv) self)
    = Ok p2 /\
    p2 = set_Beta (set_Alpha_C patient A Cv) B /\
    outcome
      (for_each (seq 1 (T_ - 1))
         (fun i TauI =>
            t <- gap_at p2 i ;;
            Zeta_matrix <- zeta_at self p2 A B t i ;;
            tau <- Eigen_TauI_time_interval self Zeta_matrix t
                     (calculate_Psi_eigen lib self t) ;;
            ret (vadd TauI tau))
         (np_zeros (num_state self))) = Ok Te.
Proof.
  unfold Eigen_TauI_all_times. intros H.
  apply outcome_bind_Ok in H as (T_ & HT & H).
  apply outcome_bind_Ok in H as (pa & Hpa & H).
  apply outcome_bind_Ok in H as (A & HA & H).
  apply outcome_bind_Ok in H as (pb & Hpb & H).
  apply outcome_bind_Ok in H as (B & HB & H).
  apply outcome_bind_Ok in H as (Tv & HTv & H).
  apply outcome_ret in H. injection H as <- <-.
  apply outcome_getattr in HT, HA, HB.
  destruct (alpha_transport self patient patient pa (same_reads_refl _) Hpa)
    as (A' & Cv & -> & _).
  cbn in HA. injection HA as ->.
  destruct (beta_transport lib self _ _ pb (same_reads_refl _) eq_refl Hpb)
    as (B' & Epb & _).
  rewrite Epb in HB. cbn in HB. injection HB as ->.
  exists T_, A, Cv, B. repeat split; assumption.
Qed.

Lemma Expm_run patient p3 Tx Nx :
  outcome (Expm_TauI_Nij_all_times lib self patient) = Ok (p3, (Tx, Nx)) ->
  exists T_ A Cv B N1,
    num_obs patient = Some T_ /\
    outcome (alpha_forward_recursion patient self)
    = Ok (set_Alpha_C patient A Cv) /\
    outcome (beta_backward_recursion lib (set_Alpha_C patient A Cv) self)
    = Ok (set_Beta (set_Alpha_C patient A Cv) B) /\
    outcome (get_all_emissions_gaussian lib
               (set_Beta (set_Alpha_C patient A Cv) B) self)
    = Ok p3 /\
    outcome
      (for_each (seq 0 (num_state self))
         (fun i TN =>
            for_each (seq 1 (T_ - 1))
              (fun t_index '(TauI, Nij_mat) =>
                 temp_sum <- expm_gap_sum lib self p3 A B
                               (augmented (num_state self) (Q self)) i i
                               t_index ;;
                 let TauI := set1 TauI i (at1 TauI i + temp_sum) in
                 let ni := temp_sum * (- at2 (Q self) i i) in
                 ret (TauI, set2 Nij_mat i i (at2 Nij_mat i i + ni)))
              TN)
         (np_zeros (num_state self),
          np_zeros2 (num_state self) (num_state self))) = Ok (Tx, N1) /\
    outcome
      (for_each (seq 0 (num_state self))
         (fun i Nij_mat =>
            for_each (seq 0 (num_state self))
              (fun j Nij_mat =>
                 if Reqb (at2 (Q_struct self) i j) 1 then
                   for_each (seq 1 (T_ - 1))
                     (fun t_index Nij_mat =>
                        temp_sum <- expm_gap_sum lib self p3 A B
                                      (augmented (num_state self) (Q self))
                                      i j t_index ;;
                        let nij := temp_sum * at2 (Q self) i j in
                        ret (set2 Nij_mat i j (at2 Nij_mat i j + nij)))
                     Nij_mat
                 else ret Nij_mat)
              Nij_mat)
         N1) = Ok Nx.
Proof.
  unfold Expm_TauI_Nij_all_times. intros H.
  apply outcome_bind_Ok in H as (T_ & HT & H).
  apply outcome_bind_Ok in H as (pa & Hpa & H).
  apply outcome_bind_Ok in H as (A & HA & H).
  apply outcome_bind_Ok in H as (pb & Hpb & H).
  apply outcome_bind_Ok in H as (B & HB & H).
  apply outcome_bind_Ok in H as (pe & Hpe & H).
  apply outcome_bind_Ok in H as ([Tv N1] & HTN & H).
  apply outcome_bind_Ok in H as (N & HN & H).
  apply outcome_ret in H. injection H as <- <- <-.
  apply outcome_getattr in HT, HA, HB.
  destruct (alpha_transport self patient patient pa (same_reads_refl _) Hpa)
    as (A' & Cv & -> & _).
  cbn in HA. injection HA as ->.
  destruct (beta_transport lib self _ _ pb (same_reads_refl _) eq_refl Hpb)
    as (B' & -> & _).
  cbn in HB. injection HB as ->.
  exists T_, A, Cv, B, N1. repeat split; assumption.
Qed.

End Engine.

(** *** The two methods in closed form *)

Lemma Ok_inj {A} (a b : A) : Ok a = Ok b -> a = b.
Proof. congruence. Qed.

Lemma set_Alpha_C_inj (p : @Patient R) A Cv A' Cv' :
  set_Alpha_C p A Cv = set_Alpha_C p A' Cv' -> A = A' /\ Cv = Cv'.
Proof.
  unfold set_Alpha_C, set_patient_tables. intros H.
  injection H as -> ->. auto.
Qed.

Lemma set_Beta_inj (p : @Patient R) B B' :
  set_Beta p B = set_Beta p B' -> B = B'.
Proof.
  unfold set_Beta, set_patient_tables. intros H. now injection H.
Qed.

(** Over a gap that the engine could process, the sum of the
    augmented-exponential method is the contraction of the eigen method. *)
Lemma term_identity (lib : NumLib R) (self : @Learner R) n Um Vm p A B
    i j idx :
  num_state self = n ->
  decomposition_cached self n Um Vm -> kernels_nonzero self n ->
  coupling_block_in_eigenbasis lib self n Um Vm ->
  gap_ok self p A B idx -> (i < n)%nat -> (j < n)%nat ->
  expm_term lib self p A B i j idx
  = eigen_term lib self Um Vm p A B i j idx.
Proof.
  intros Hn (HU & HV & HUs & HVs) Hker Hvl (d & a & b & bv & Hd & HP & HZ)
    Hi Hj.
  unfold expm_term, eigen_term. rewrite Hn.
  destruct (Hker d _ _ Hd HP) as [HPs Hnz].
  apply gap_identity; try assumption.
  - rewrite HZ. apply rect_zeta. exact (shape_rect n n _ HPs).
  - intros k l Hk Hl. exact (Hvl d _ _ i j k l Hd HP Hi Hj Hk Hl).
Qed.

Lemma engine_values (lib : NumLib R) (self : @Learner R)
    (patient : @Patient R) n Um Vm p1 p2 p3 Ne Te Tx Nx :
  num_state self = n -> length (Q self) = n ->
  decomposition_cached self n Um Vm -> kernels_nonzero self n ->
  coupling_block_in_eigenbasis lib self n Um Vm ->
  emissions_current lib self patient ->
  outcome (Eigen_Nij_all_times lib self patient true) = Ok (p1, Ne) ->
  outcome (Eigen_TauI_all_times lib self p1 true) = Ok (p2, Te) ->
  outcome (Expm_TauI_Nij_all_times lib self patient) = Ok (p3, (Tx, Nx)) ->
  exists idxs A B,
    Alpha p3 = Some A /\ Beta p3 = Some B /\
    (forall idx, In idx idxs -> gap_ok self p3 A B idx) /\
    (forall a, (a < n)%nat ->
       at1 Te a
       = lsum (map (fun idx => expm_term lib self p3 A B a a idx) idxs) /\
       at1 Tx a
       = lsum (map (fun idx => expm_term lib self p3 A B a a idx) idxs)) /\
    (forall a b, (a < n)%nat -> (b < n)%nat ->
       at2 Ne a b
       = (if Nat.eqb a b then 0
          else at2 (Q self) a b
               * lsum (map (fun idx => expm_term lib self p3 A B a b idx)
                         idxs)) /\
       at2 Nx a b
       = (if Nat.eqb a b
          then lsum (map (fun idx => expm_term lib self p3 A B a a idx)
                       idxs) * (- at2 (Q self) a a)
          else 0)
         + (if Reqb (at2 (Q_struct self) a b) 1
            then lsum (map (fun idx => expm_term lib self p3 A B a b idx)
                         idxs) * at2 (Q self) a b
            else 0)).
Proof.
  intros Hn HQ Hdec Hker Hvl [p0 Hcur] HNe HTe HX. subst n.
  set (n := num_state self) in *.
  assert (Hn : num_state self = n) by reflexivity.
  pose proof Hdec as (HU & HV & HUs & HVs).
  apply Eigen_Nij_run in HNe
    as (T_ & A & Cv & B & em & HT & Hpa & Hpb & Hpe & Ep1 & HNe).
  apply Expm_run in HX
    as (T' & A' & Cv' & B' & N1 & HT' & Hpa' & Hpb' & Hpe' & HX1 & HX2).
  rewrite HT in HT'. injection HT' as <-.
  rewrite Hpa in Hpa'. apply Ok_inj in Hpa'.
  apply set_Alpha_C_inj in Hpa' as [<- <-].
  rewrite Hpb in Hpb'. apply Ok_inj in Hpb'.
  apply set_Beta_inj in Hpb' as <-.
  rewrite Hpe in Hpe'. apply Ok_inj in Hpe'. subst p3.
  (* the emission table of the patient is the one the engine recomputes *)
  destruct (emissions_transport lib self p0
              (set_Beta (set_Alpha_C patient A Cv) B) patient)
    as (em0 & Epat & Hpe0); [| exact Hcur |].
  { destruct (emissions_transport lib self p0 p0 patient eq_refl Hcur)
      as (e & -> & _). reflexivity. }
  rewrite Hpe in Hpe0. apply Ok_inj in Hpe0. rename Hpe0 into Ep1'.
  assert (Hreads : same_reads patient p1).
  { rewrite Ep1'. unfold same_reads. cbn. repeat split.
    rewrite Epat. reflexivity. }
  (* the second function of the eigen method, on the patient it is given *)
  apply Eigen_TauI_run in HTe
    as (T'' & A'' & Cv'' & B'' & HT'' & Hqa & Hqb & Ep2 & HTe).
  assert (ET : T'' = T_).
  { destruct Hreads as (_ & Hno & _). rewrite <- Hno, HT in HT''.
    now injection HT''. }
  subst T''.
  destruct (alpha_transport self patient p1 _ Hreads Hpa)
    as (A1 & C1 & E1 & Hqa').
  apply set_Alpha_C_inj in E1 as [<- <-].
  rewrite Hqa' in Hqa. apply Ok_inj in Hqa.
  apply set_Alpha_C_inj in Hqa as [<- <-].
  assert (Hreads' : same_reads (set_Alpha_C patient A Cv)
                      (set_Alpha_C p1 A Cv)).
  { destruct Hreads as (H1 & H2 & H3 & H4). unfold same_reads. cbn.
    auto. }
  destruct (beta_transport lib self _ _ _ Hreads' eq_refl Hpb)
    as (B1 & E1 & Hqb').
  apply set_Beta_inj in E1 as <-.
  rewrite Hqb' in Hqb. apply Ok_inj in Hqb. rename Hqb into Ep2'.
  assert (Hreads2 : same_reads p2 p1).
  { rewrite <- Ep2'. unfold same_reads. cbn. auto. }
  rewrite <- Ep2' in Ep2. apply set_Beta_inj in Ep2 as <-.
  (* the loops *)
  destruct (@Gaps.Eigen_Nij_loop lib self p1 A B Um Vm n (seq 1 (T_ - 1))
              HU HV Hn HQ Ne HNe) as [HNv Hok].
  destruct (@Gaps.Eigen_TauI_loop lib self p2 A B Um Vm n (seq 1 (T_ - 1))
              HU HV Hn HQ Te HTe) as [HTv _].
  destruct (@Gaps.Expm_loops_value lib self p1 A B n (seq 1 (T_ - 1))
              Hn HQ Tx N1 Nx) as [HXT HXN].
  { exact HX1. }
  { exact HX2. }
  exists (seq 1 (T_ - 1)), A, B.
  split; [rewrite Ep1; reflexivity |].
  split; [rewrite Ep1; reflexivity |].
  split; [exact Hok |]. split.
  - intros a Ha. split; [| exact (HXT a Ha)].
    rewrite (HTv a Ha). apply lsum_map_ext. intros idx Hidx.
    rewrite (eigen_term_reads lib self Um Vm p2 p1 A B a a idx Hreads2).
    symmetry. apply (term_identity lib self n); auto.
  - intros a b Ha Hb. split; [| exact (HXN a b Ha Hb)].
    rewrite (HNv a b Ha Hb).
    destruct (Nat.eqb a b); cbn [negb]; [apply lsum_map_zero |].
    rewrite lsum_map_scal_l. f_equal.
    apply lsum_map_ext. intros idx Hidx.
    symmetry. apply (term_identity lib self n); auto.
Qed.

End Runs.

(** ** The contracts on the two-state example *)

Module TwoStateContracts.
Import Inputs.
Local Open Scope R_scope.

Lemma Reqb_true (x y : R) : Reqb x y = true -> x = y.
Proof. unfold Reqb. destruct (Req_dec_T x y); congruence. Qed.

Lemma shape_two (a b c d : R) : shape 2 2 [[a; b]; [c; d]].
Proof.
  split; [reflexivity |].
  intros r [<- | [<- | []]]; reflexivity.
Qed.

Lemma decomposition_two m :
  decomposition_cached (learner_two_cached m) 2 U_two V_two.
Proof. repeat split; try apply shape_two; intros r [<- | [<- | []]];
  reflexivity. Qed.

Lemma cached_gap_two m d t P :
  expm_Q_t (learner_two_cached m) = Some d ->
  dict_get Reqb d t = Some P -> t = 1 - 0 /\ P = kernel_two.
Proof.
  cbn. intros Hd. injection Hd as <-. cbn.
  destruct (Reqb t (1 - 0)) eqn:E; cbn; [| discriminate].
  intros HP. injection HP as <-. apply Reqb_true in E. auto.
Qed.

Lemma kernels_two m : kernels_nonzero (learner_two_cached m) 2.
Proof.
  intros d t P Hd HP.
  destruct (cached_gap_two m d t P Hd HP) as [_ ->].
  split; [apply shape_two |].
  intros k l Hk Hl. pose proof TwoState.e2_bounds.
  destruct k as [| [| k]]; [| | lia];
    (destruct l as [| [| l]]; [| | lia]); cbn; lra.
Qed.

Lemma coupling_two m :
  coupling_block_in_eigenbasis Exact.lib (learner_two_cached m) 2
    U_two V_two.
Proof.
  intros d t P i j k l Hd HP Hi Hj Hk Hl.
  destruct (cached_gap_two m d t P Hd HP) as [-> _].
  rewrite TwoState.calculate_Psi_eigen_two.
  destruct i as [| [| i]]; [| | lia];
    (destruct j as [| [| j]]; [| | lia]);
    (destruct k as [| [| k]]; [| | lia]);
    (destruct l as [| [| l]]; [| | lia]).
  all: cbn; unfold Exact.phi, Exact.phi_1, Exact.phi_2, Exact.trace2; cbn;
    TwoState.fold_e2; field; lra.
Qed.

Lemma mask_two m : mask_consistent (learner_two_cached m) 2.
Proof.
  split.
  - intros i Hi. destruct i as [| [| i]]; [| | lia]; cbn; lra.
  - intros i j Hi Hj Hij.
    destruct i as [| [| i]]; [| | lia];
      (destruct j as [| [| j]]; [| | lia]); cbn; intros H; lra || lia.
Qed.

Lemma emissions_current_two m :
  emissions_current Exact.lib (learner_two_cached m)
    (patient_two_tables None None None).
Proof.
  exists patient_two. now rewrite TwoState.get_all_emissions_patient_two.
Qed.

End TwoStateContracts.

(** ** The two methods of the statistics engine *)

(** C1 (as amended).  In exact arithmetic, on a patient whose emission
    table is current, and under the contract that ties [expm] to [eig] and
    [inv] (the upper right block of the exponential of the augmented
    matrix, in the eigenbasis), with cached kernels that have no zero
    entry and a generator that is consistent with the mask: when the
    eigen method ([Eigen_Nij_all_times], then [Eigen_TauI_all_times] on
    the patient it returns) and the augmented-exponential method
    ([Expm_TauI_Nij_all_times]) all return, they return the same [TauI]
    and the same [Nij] off the diagonal.  On the diagonal they differ:
    the eigen method leaves [0], the augmented-exponential method writes
    [-Q[i,i] * TauI[i]]. *)
Theorem methods_agree_off_the_diagonal_only :
  forall (lib : NumLib R) (self : @Learner R) (patient : @Patient R)
         (n : nat) (Um Vm : list (list R)) (p1 p2 p3 : @Patient R)
         (Ne Nx : list (list R)) (Te Tx : list R),
    num_state self = n -> length (Q self) = n ->
    decomposition_cached self n Um Vm -> kernels_nonzero self n ->
    coupling_block_in_eigenbasis lib self n Um Vm ->
    mask_consistent self n ->
    emissions_current lib self patient ->
    outcome (Eigen_Nij_all_times lib self patient true) = Ok (p1, Ne) ->
    outcome (Eigen_TauI_all_times lib self p1 true) = Ok (p2, Te) ->
    outcome (Expm_TauI_Nij_all_times lib self patient)
    = Ok (p3, (Tx, Nx)) ->
    (forall i, (i < n)%nat -> at1 Te i = at1 Tx i) /\
    (forall i j, (i < n)%nat -> (j < n)%nat -> i <> j ->
       at2 Ne i j = at2 Nx i j) /\
    (forall i, (i < n)%nat ->
       at2 Ne i i = 0%R /\
       at2 Nx i i = (- at2 (Q self) i i * at1 Tx i)%R).
Proof.
  intros lib self patient n Um Vm p1 p2 p3 Ne Nx Te Tx Hn HQ Hdec Hker Hvl
    [Hdiag Hoff] Hcur HNe HTe HX.
  destruct (Runs.engine_values lib self patient n Um Vm p1 p2 p3 Ne Te Tx Nx
              Hn HQ Hdec Hker Hvl Hcur HNe HTe HX)
    as (idxs & A & B & _ & _ & _ & HT & HN).
  split; [| split].
  - intros i Hi. destruct (HT i Hi) as [-> ->]. reflexivity.
  - intros i j Hi Hj Hij. destruct (HN i j Hi Hj) as [-> ->].
    apply Nat.eqb_neq in Hij. rewrite Hij.
    destruct (Reqb (at2 (Q_struct self) i j) 1) eqn:E; [lra |].
    rewrite (Hoff i j Hi Hj); [lra | now apply Nat.eqb_neq |].
    intros H1. rewrite H1, Reqb_refl in E. discriminate.
  - intros i Hi. destruct (HN i i Hi Hi) as [-> ->].
    destruct (HT i Hi) as [_ ->].
    rewrite Nat.eqb_refl, (Reqb_neq (Hdiag i Hi)).
    split; [reflexivity | lra].
Qed.

(** On the two-state example: [TauI = (1/2, 1/2)] for both, [Nij[0,1] =
    1/2] for both, and the diagonal of [Nij] is 0 against 1/2. *)
Lemma methods_agree_witness :
  (forall i, (i < 2)%nat -> at1 Inputs.TauI_two i = at1 Inputs.TauI_two i) /\
  (forall i j, (i < 2)%nat -> (j < 2)%nat -> i <> j ->
     at2 Inputs.Nij_eigen_two i j = at2 Inputs.Nij_expm_two i j) /\
  (forall i, (i < 2)%nat ->
     at2 Inputs.Nij_eigen_two i i = 0%R /\
     at2 Inputs.Nij_expm_two i i
     = (- at2 (Q (Inputs.learner_two_cached "expm")) i i
        * at1 Inputs.TauI_two i)%R).
Proof.
  apply (methods_agree_off_the_diagonal_only Exact.lib
           (Inputs.learner_two_cached "expm")
           (Inputs.patient_two_tables None None None) 2
           Inputs.U_two Inputs.V_two
           Inputs.patient_two_done Inputs.patient_two_done
           Inputs.patient_two_done).
  - reflexivity.
  - reflexivity.
  - apply TwoStateContracts.decomposition_two.
  - apply TwoStateContracts.kernels_two.
  - apply TwoStateContracts.coupling_two.
  - apply TwoStateContracts.mask_two.
  - apply TwoStateContracts.emissions_current_two.
  - rewrite TwoState.Eigen_Nij_two. reflexivity.
  - rewrite TwoState.Eigen_TauI_two. reflexivity.
  - rewrite TwoState.Expm_two. reflexivity.
Defined.

(** ** Signs

    Probabilities in, probabilities out: no operation of the forward and
    backward passes produces a negative number from non-negative ones. *)

Module Signs.
Import Sums Loops.
Local Open Scope R_scope.

Lemma div_nonneg (x c : R) : 0 <= x -> 0 <= c -> 0 <= x / c.
Proof.
  intros Hx Hc. destruct (Req_dec_T c 0) as [-> | Hne].
  - unfold Rdiv. rewrite Rinv_0. lra.
  - apply Rmult_le_pos; [assumption |].
    apply Rlt_le, Rinv_0_lt_compat. lra.
Qed.

Lemma nonneg_zip_with (f : R -> R -> R) (u v : list R) :
  (forall x y, 0 <= x -> 0 <= y -> 0 <= f x y) ->
  nonneg_vec u -> nonneg_vec v -> nonneg_vec (zip_with f u v).
Proof.
  intros Hf Hu. revert v.
  induction Hu as [| x u Hx Hu IH]; intros v Hv; [constructor |].
  destruct Hv as [| y v Hy Hv]; [constructor |].
  cbn. constructor; [now apply Hf | now apply IH].
Qed.

Lemma nonneg_vmul (u v : list R) :
  nonneg_vec u -> nonneg_vec v -> nonneg_vec (vmul u v).
Proof. apply nonneg_zip_with. intros. now apply Rmult_le_pos. Qed.

Lemma nonneg_np_sum (v : list R) : nonneg_vec v -> 0 <= np_sum v.
Proof.
  unfold np_sum. intros Hv.
  change (fold_left add v zero) with (fold_left Rplus v 0).
  rewrite fold_left_Rplus_acc.
  assert (H0 : forall a, 0 <= a -> 0 <= fold_left Rplus v a).
  { induction Hv as [| x v Hx Hv IH]; intros a Ha; cbn; [assumption |].
    apply IH. lra. }
  specialize (H0 0). lra.
Qed.

Lemma nonneg_vdot (u v : list R) :
  nonneg_vec u -> nonneg_vec v -> 0 <= vdot u v.
Proof. intros. apply nonneg_np_sum. now apply nonneg_vmul. Qed.

Lemma nonneg_np_dot_mv (a : list (list R)) (v : list R) :
  nonneg_mat a -> nonneg_vec v -> nonneg_vec (np_dot_mv a v).
Proof.
  intros Ha Hv. unfold np_dot_mv. apply Forall_map.
  eapply Forall_impl; [| exact Ha]. intros r Hr. now apply nonneg_vdot.
Qed.

Lemma nonneg_vdiv_scalar (v : list R) c :
  nonneg_vec v -> 0 <= c -> nonneg_vec (vdiv_scalar v c).
Proof.
  intros Hv Hc. unfold vdiv_scalar. apply Forall_map.
  eapply Forall_impl; [| exact Hv]. intros x Hx. now apply div_nonneg.
Qed.

Lemma nonneg_at1 (v : list R) i : nonneg_vec v -> 0 <= at1 v i.
Proof.
  intros Hv. unfold at1.
  destruct (Nat.lt_ge_cases i (length v)) as [Hi | Hi].
  - apply (proj1 (Forall_forall _ _) Hv). now apply nth_In.
  - rewrite nth_overflow by assumption. apply Rle_refl.
Qed.

Lemma nonneg_row (a : list (list R)) i : nonneg_mat a -> nonneg_vec (row a i).
Proof.
  intros Ha. unfold row.
  destruct (Nat.lt_ge_cases i (length a)) as [Hi | Hi].
  - apply (proj1 (Forall_forall _ _) Ha). now apply nth_In.
  - rewrite nth_overflow by assumption. constructor.
Qed.

Lemma nonneg_at2 (a : list (list R)) i j : nonneg_mat a -> 0 <= at2 a i j.
Proof. intros Ha. apply nonneg_at1, nonneg_row, Ha. Qed.

Lemma nonneg_np_transpose (a : list (list R)) :
  nonneg_mat a -> nonneg_mat (np_transpose a).
Proof.
  intros Ha. unfold np_transpose. apply Forall_map, Forall_forall.
  intros j _. unfold col. apply Forall_map.
  eapply Forall_impl; [| exact Ha]. intros r Hr. now apply nonneg_at1.
Qed.

Lemma nonneg_np_outer (u v : list R) :
  nonneg_vec u -> nonneg_vec v -> nonneg_mat (np_outer u v).
Proof.
  intros Hu Hv. unfold np_outer. apply Forall_map.
  eapply Forall_impl; [| exact Hu]. intros x Hx. apply Forall_map.
  eapply Forall_impl; [| exact Hv]. intros y Hy. now apply Rmult_le_pos.
Qed.

Lemma nonneg_np_multiply (a b : list (list R)) :
  nonneg_mat a -> nonneg_mat b -> nonneg_mat (np_multiply a b).
Proof.
  intros Ha. revert b.
  induction Ha as [| x a Hx Ha IH]; intros b Hb; [constructor |].
  destruct Hb as [| y b Hy Hb]; [constructor |].
  cbn. constructor; [now apply nonneg_vmul | now apply IH].
Qed.

Lemma nonneg_set_nth {A} (P : A -> Prop) i x (l : list A) :
  P x -> Forall P l -> Forall P (set_nth i x l).
Proof.
  intros Hx Hl. revert i.
  induction Hl as [| y l Hy Hl IH]; intros [| i]; cbn;
    try constructor; auto.
Qed.

Lemma nonneg_repeat {A} (P : A -> Prop) x n : P x -> Forall P (repeat x n).
Proof. intros Hx. induction n; cbn; constructor; auto. Qed.

(** An [n x m] array is checked entry by entry. *)
Lemma nonneg_entries n m (a : list (list R)) :
  shape n m a ->
  (forall k l, (k < n)%nat -> (l < m)%nat -> 0 <= at2 a k l) ->
  nonneg_mat a.
Proof.
  intros [Hn Hm] Hall. apply Forall_forall. intros r Hr.
  apply (In_nth _ _ []) in Hr as (k & Hk & <-).
  apply Forall_forall. intros x Hx.
  apply (In_nth _ _ 0) in Hx as (l & Hl & <-).
  assert (Hrow : length (nth k a []) = m) by (apply Hm, nth_In, Hk).
  apply (Hall k l); unfold vec in *; lia.
Qed.

Lemma nonneg_zeta (P : list (list R)) (alpha beta b : list R) :
  nonneg_mat P -> nonneg_vec alpha -> nonneg_vec beta -> nonneg_vec b ->
  nonneg_mat (zeta P alpha beta b).
Proof.
  intros HP Ha Hbe Hb. unfold zeta, mdiv_scalar. apply Forall_map.
  eapply Forall_impl;
    [| apply nonneg_np_multiply;
       [exact HP | apply nonneg_np_outer; [exact Ha |]]].
  - intros r Hr. apply nonneg_vdiv_scalar; [exact Hr |].
    apply nonneg_vdot; [exact Ha |].
    apply nonneg_np_dot_mv; [exact HP |]. now apply nonneg_vmul.
  - now apply nonneg_vmul.
Qed.

(** *** The emission table *)

Lemma dict_get_Forall {K V} (keq : K -> K -> bool) (P : V -> Prop)
    (d : list (K * V)) k v :
  Forall (fun kv => P (snd kv)) d -> dict_get keq d k = Some v -> P v.
Proof.
  induction 1 as [| [k' v'] d Hv Hd IH]; cbn; [discriminate |].
  destruct (keq k k'); [| exact IH].
  intros E. injection E as <-. exact Hv.
Qed.

Lemma dict_set_Forall {K V} (keq : K -> K -> bool) (P : V -> Prop)
    (d : list (K * V)) k v :
  Forall (fun kv => P (snd kv)) d -> P v ->
  Forall (fun kv => P (snd kv)) (dict_set keq d k v).
Proof.
  intros Hd Hv.
  induction Hd as [| [k' v'] d Hv' Hd IH]; cbn;
    [constructor; [exact Hv | constructor] |].
  destruct (keq k k'); constructor; auto.
Qed.

Lemma Forall_zip_with_any {A B C} (P : C -> Prop) (f : A -> B -> C) u v :
  (forall x y, P (f x y)) -> Forall P (zip_with f u v).
Proof.
  intros Hf. revert v.
  induction u as [| x u IH]; intros [| y v]; cbn; constructor; auto.
Qed.

Lemma emission_Gaussian_nonneg (lib : NumLib R) (self : @Learner R) o e :
  library_nonneg lib ->
  outcome (emission_Gaussian lib self o) = Ok e -> nonneg_vec e.
Proof.
  intros (_ & Hnorm & Hmvn). unfold emission_Gaussian.
  destruct (ls_mu self) as [[| mu0 [| mu1 mus]] | [| m0 [| m1 ms]]];
    destruct (ls_sigma self) as [[| s0 ss] | [| g0 gs]]; cbn;
    try discriminate; intros E; injection E as <-;
    try (apply Forall_zip_with_any; intros; auto);
    try (constructor; [auto | constructor]);
    try (match goal with
         | |- nonneg_vec (match ?x with _ => _ end) => destruct x
         end; [constructor | constructor; [apply Hmvn | constructor]]).
Qed.

Lemma get_all_emissions_nonneg (lib : NumLib R) (self : @Learner R) p p' :
  library_nonneg lib ->
  outcome (get_all_emissions_gaussian lib p self) = Ok p' ->
  exists em, emissions p' = Some em /\ emissions_nonneg em.
Proof.
  intros Hlib. unfold get_all_emissions_gaussian. intros H.
  apply outcome_bind_Ok in H as (obs & _ & H).
  apply outcome_bind_Ok in H as (em & Hem & H).
  apply outcome_ret in H. subst p'. exists em. split; [reflexivity |].
  revert Hem.
  apply (for_each_invariant emissions_nonneg); [| constructor].
  intros o d d' Hd Hstep.
  apply outcome_bind_Ok in Hstep as (e & He & Hstep).
  apply outcome_ret in Hstep. subst d'.
  apply (dict_set_Forall obs_eqb nonneg_vec); [exact Hd |].
  exact (emission_Gaussian_nonneg lib self o e Hlib He).
Qed.

Lemma b_s_nonneg (p : @Patient R) em o b :
  emissions p = Some em -> emissions_nonneg em ->
  outcome (b_s p o) = Ok b -> nonneg_vec b.
Proof.
  intros Hem Hnn. unfold b_s. rewrite Hem. cbn [getattr].
  rewrite bind_ret_l. intros H. apply Gaps.outcome_dict_lookup in H.
  exact (dict_get_Forall obs_eqb nonneg_vec em o b Hnn H).
Qed.

(** *** The forward and the backward pass *)

Section Passes.
Variables (lib : NumLib R) (self : @Learner R) (n : nat).
Hypothesis Hker : kernels_positive self n.

Lemma kernel_nonneg locals t P :
  outcome (kernel_or_expm locals self t) = Ok P -> nonneg_mat P.
Proof.
  unfold kernel_or_expm. intros H.
  apply outcome_bind_Ok in H as (d & Hd & H).
  apply outcome_getattr in Hd.
  destruct (dict_get eqb d t) as [m |] eqn:E.
  - apply outcome_ret in H. subst m.
    destruct (Hker d t P Hd E) as [Hs Hpos].
    apply (nonneg_entries n n); [exact Hs |].
    intros k l Hk Hl. apply Rlt_le. now apply Hpos.
  - apply outcome_bind_Ok in H as (u & _ & H). discriminate.
Qed.

Lemma get_alpha_vector_nonneg (p : @Patient R) em t o prev pi0o ac :
  emissions p = Some em -> emissions_nonneg em ->
  nonneg_vec prev ->
  (forall v, pi0o = Some v -> nonneg_vec v) ->
  outcome (get_alpha_vector p t o self prev pi0o) = Ok ac ->
  nonneg_vec (fst ac) /\ 0 <= snd ac.
Proof.
  intros Hem Hnn Hprev Hpi. unfold get_alpha_vector. intros H.
  apply outcome_bind_Ok in H as (b & Hb & H).
  apply outcome_bind_Ok in H as (alpha & Ha & H).
  apply outcome_ret in H. subst ac. cbn [fst snd].
  pose proof (b_s_nonneg p em o b Hem Hnn Hb) as Hbn.
  assert (Han : nonneg_vec alpha).
  { destruct (negb (eqb t zero)).
    - apply outcome_bind_Ok in Ha as (P & HP & Ha).
      apply outcome_ret in Ha. subst alpha.
      apply nonneg_vmul; [exact Hbn |].
      apply nonneg_np_dot_mv; [| exact Hprev].
      apply nonneg_np_transpose. exact (kernel_nonneg _ _ _ HP).
    - destruct pi0o as [v |]; [| discriminate].
      apply outcome_ret in Ha. subst alpha.
      apply nonneg_vmul; [now apply Hpi | exact Hbn]. }
  split; [| now apply nonneg_np_sum].
  apply nonneg_vdiv_scalar; [exact Han | now apply nonneg_np_sum].
Qed.

Lemma outcome_store {A} what (l : list A) i x l' :
  outcome (store what l i x) = Ok l' -> l' = set_nth i x l.
Proof.
  unfold store. destruct (i <? length l)%nat; [| discriminate].
  intros H. apply outcome_ret in H. now symmetry.
Qed.

Lemma index_Forall {A} (P : A -> Prop) what (l : list A) i x :
  Forall P l -> outcome (index what l i) = Ok x -> P x.
Proof.
  intros Hl H. apply Gaps.outcome_index in H. apply nth_error_In in H.
  exact (proj1 (Forall_forall P l) Hl x H).
Qed.

Lemma alpha_nonneg (p : @Patient R) em A Cv :
  emissions p = Some em -> emissions_nonneg em ->
  nonneg_vec (pi0 self) ->
  outcome (alpha_forward_recursion p self) = Ok (set_Alpha_C p A Cv) ->
  nonneg_mat A /\ nonneg_vec Cv.
Proof.
  intros Hem Hnn Hpi. unfold alpha_forward_recursion. intros H.
  apply outcome_bind_Ok in H as (obs & _ & H).
  apply outcome_bind_Ok in H as (T_ & _ & H).
  apply outcome_bind_Ok in H as (o0 & _ & H).
  apply outcome_bind_Ok in H as (ac & Hac & H).
  apply outcome_bind_Ok in H as (A0 & HA0 & H).
  apply outcome_bind_Ok in H as (C0 & HC0 & H).
  apply outcome_bind_Ok in H as (times & _ & H).
  apply outcome_bind_Ok in H as (AC & HAC & H).
  apply outcome_ret in H. apply Runs.set_Alpha_C_inj in H as [<- <-].
  apply outcome_store in HA0, HC0.
  assert (Hsome : forall v, Some (pi0 self) = Some v -> nonneg_vec v)
    by (intros v E; injection E as <-; exact Hpi).
  assert (Hnone : forall v : list R, None = Some v -> nonneg_vec v)
    by discriminate.
  destruct (get_alpha_vector_nonneg p em _ _ _ _ _ Hem Hnn
              (Forall_nil _) Hsome Hac) as [Hac1 Hac2].
  revert HAC.
  apply (for_each_invariant
           (fun s : list (list R) * list R =>
              nonneg_mat (fst s) /\ nonneg_vec (snd s))).
  - intros i [Al Cl] s' [HAl HCl] Hstep. cbn [fst snd] in HAl, HCl.
    apply outcome_bind_Ok in Hstep as (t_i & _ & Hstep).
    apply outcome_bind_Ok in Hstep as (t_p & _ & Hstep).
    apply outcome_bind_Ok in Hstep as (o & _ & Hstep).
    apply outcome_bind_Ok in Hstep as (prev & Hprev & Hstep).
    apply outcome_bind_Ok in Hstep as (ac' & Hac' & Hstep).
    apply outcome_bind_Ok in Hstep as (Al' & HAl' & Hstep).
    apply outcome_bind_Ok in Hstep as (Cl' & HCl' & Hstep).
    apply outcome_ret in Hstep. subst s'. cbn [fst snd].
    apply outcome_store in HAl', HCl'. subst Al' Cl'.
    destruct (get_alpha_vector_nonneg p em _ _ _ _ _ Hem Hnn
                (index_Forall nonneg_vec _ _ _ _ HAl Hprev) Hnone Hac')
      as [H1 H2].
    split; now apply nonneg_set_nth.
  - subst A0 C0. cbn [fst snd].
    split; apply nonneg_set_nth; try assumption.
    + apply nonneg_repeat, nonneg_repeat. apply Rle_refl.
    + apply nonneg_repeat. apply Rle_refl.
Qed.

End Passes.

Lemma get_beta_vector_nonneg (lib : NumLib R) (self : @Learner R)
    (p : @Patient R) Cv t i o after beta :
  library_nonneg lib -> nonneg_vec Cv ->
  outcome (get_beta_vector lib p Cv t i o self after) = Ok beta ->
  nonneg_vec beta.
Proof.
  intros (Hexp & _) HC. unfold get_beta_vector. intros H.
  apply outcome_bind_Ok in H as (b & _ & H).
  apply outcome_bind_Ok in H as (P & _ & H).
  apply outcome_bind_Ok in H as (c & Hc & H).
  apply outcome_bind_Ok in H as (u & _ & H).
  apply outcome_ret in H. subst beta.
  apply nonneg_vdiv_scalar.
  - apply Forall_map, Forall_forall. intros x _. apply Hexp.
  - exact (index_Forall (fun x => 0 <= x) _ _ _ _ HC Hc).
Qed.

Lemma beta_nonneg (lib : NumLib R) (self : @Learner R) (p : @Patient R)
    Cv B :
  library_nonneg lib -> C p = Some Cv -> nonneg_vec Cv ->
  outcome (beta_backward_recursion lib p self) = Ok (set_Beta p B) ->
  nonneg_mat B.
Proof.
  intros Hlib HCp HC. unfold beta_backward_recursion. rewrite HCp.
  cbn [getattr]. rewrite bind_ret_l. intros H.
  apply outcome_bind_Ok in H as (T_ & _ & H).
  apply outcome_bind_Ok in H as (obs & _ & H).
  apply outcome_bind_Ok in H as (times & _ & H).
  apply outcome_bind_Ok in H as (Bt & HBt & H).
  apply outcome_ret in H. apply Runs.set_Beta_inj in H as <-.
  revert HBt. apply (for_each_invariant nonneg_mat).
  - intros i Bl Bl' HBl Hstep.
    apply outcome_bind_Ok in Hstep as (t_n & _ & Hstep).
    apply outcome_bind_Ok in Hstep as (t_i & _ & Hstep).
    apply outcome_bind_Ok in Hstep as (o & _ & Hstep).
    apply outcome_bind_Ok in Hstep as (after & _ & Hstep).
    apply outcome_bind_Ok in Hstep as (beta & Hbeta & Hstep).
    apply outcome_bind_Ok in Hstep as (Bs & HBs & Hstep).
    apply outcome_bind_Ok in Hstep as (u & _ & Hstep).
    apply outcome_ret in Hstep. subst Bl'.
    apply outcome_store in HBs. subst Bs.
    apply nonneg_set_nth; [| exact HBl].
    exact (get_beta_vector_nonneg lib self p Cv _ _ _ _ _ Hlib HC Hbeta).
  - apply nonneg_repeat, nonneg_repeat. change (0 <= 1). lra.
Qed.

(** *** The pairwise beliefs and the terms of the sums *)

Lemma gap_zeta_nonneg (self : @Learner R) n (p : @Patient R) em A B
    idx k l :
  kernels_positive self n ->
  emissions p = Some em -> emissions_nonneg em ->
  nonneg_mat A -> nonneg_mat B ->
  0 <= at2 (gap_zeta self p A B idx) k l.
Proof.
  intros Hker Hem Hnn HA HB. unfold gap_zeta.
  destruct (outcome (zeta_at self p A B (gap_time p idx) idx))
    as [Z | e] eqn:E.
  - apply nonneg_at2. unfold zeta_at, get_zeta in E.
    apply outcome_bind_Ok in E as (a & Ha & E).
    apply outcome_bind_Ok in E as (b & Hb & E).
    apply outcome_bind_Ok in E as (obs & _ & E).
    apply outcome_bind_Ok in E as (o & _ & E).
    apply outcome_bind_Ok in E as (bv & Hbv & E).
    apply outcome_bind_Ok in E as (d & Hd & E).
    apply outcome_bind_Ok in E as (P & HP & E).
    apply outcome_ret in E. subst Z.
    apply outcome_getattr in Hd. apply Gaps.outcome_dict_lookup in HP.
    destruct (Hker d _ P Hd HP) as [Hs Hpos].
    apply nonneg_zeta.
    + apply (nonneg_entries n n); [exact Hs |].
      intros k' l' Hk Hl. apply Rlt_le. now apply Hpos.
    + exact (index_Forall nonneg_vec _ _ _ _ HA Ha).
    + exact (index_Forall nonneg_vec _ _ _ _ HB Hb).
    + exact (b_s_nonneg p em o bv Hem Hnn Hbv).
  - apply nonneg_at2. constructor.
Qed.

Lemma expm_term_nonneg (lib : NumLib R) (self : @Learner R) n
    (p : @Patient R) em A B i j idx :
  num_state self = n ->
  kernels_positive self n -> coupling_block_nonneg lib self n ->
  emissions p = Some em -> emissions_nonneg em ->
  nonneg_mat A -> nonneg_mat B ->
  gap_ok self p A B idx -> (i < n)%nat -> (j < n)%nat ->
  0 <= expm_term lib self p A B i j idx.
Proof.
  intros Hn Hker Hblock Hem Hnn HA HB (d & a & b & bv & Hd & HP & _) Hi Hj.
  unfold expm_term. rewrite Hn.
  destruct (Hker d _ _ Hd HP) as [Hs Hpos].
  rewrite expm_temp_sum_index
    by (intros k l Hk Hl; apply Rgt_not_eq, Rlt_gt; now apply Hpos).
  apply rsum_nonneg. intros k Hk. apply rsum_nonneg. intros l Hl.
  apply div_nonneg; [| apply Rlt_le; now apply Hpos].
  apply Rmult_le_pos.
  - exact (gap_zeta_nonneg self n p em A B idx k l Hker Hem Hnn HA HB).
  - exact (Hblock d _ _ i j k l Hd HP Hi Hj Hk Hl).
Qed.

Lemma kernels_positive_nonzero (self : @Learner R) n :
  kernels_positive self n -> kernels_nonzero self n.
Proof.
  intros H d t P Hd HP. destruct (H d t P Hd HP) as [Hs Hpos].
  split; [exact Hs |].
  intros k l Hk Hl. apply Rgt_not_eq, Rlt_gt. now apply Hpos.
Qed.

(** The tables that the augmented-exponential method leaves in the
    patient hold no negative number. *)
Lemma tables_nonneg (lib : NumLib R) (self : @Learner R) n
    (patient p3 : @Patient R) Tx Nx A B :
  kernels_positive self n -> library_nonneg lib ->
  nonneg_vec (pi0 self) -> emissions_current lib self patient ->
  outcome (Expm_TauI_Nij_all_times lib self patient) = Ok (p3, (Tx, Nx)) ->
  Alpha p3 = Some A -> Beta p3 = Some B ->
  nonneg_mat A /\ nonneg_mat B /\
  exists em, emissions p3 = Some em /\ emissions_nonneg em.
Proof.
  intros Hker Hlib Hpi [p0 Hcur] HX HA HB.
  destruct (get_all_emissions_nonneg lib self p0 patient Hlib Hcur)
    as (em0 & Hem0 & Hnn0).
  apply Runs.Expm_run in HX
    as (T_ & A' & Cv & B' & N1 & _ & Hpa & Hpb & Hpe & _).
  destruct (alpha_nonneg self n Hker patient em0 A' Cv Hem0 Hnn0 Hpi Hpa)
    as [HA' HCv].
  pose proof (beta_nonneg lib self (set_Alpha_C patient A' Cv) Cv B' Hlib
                eq_refl HCv Hpb) as HB'.
  destruct (Runs.emissions_transport lib self _ _ p3 eq_refl Hpe)
    as (em & Ep3 & _).
  rewrite Ep3 in HA, HB. cbn in HA, HB.
  injection HA as <-. injection HB as <-.
  split; [exact HA' |]. split; [exact HB' |].
  exact (get_all_emissions_nonneg lib self _ p3 Hlib Hpe).
Qed.

End Signs.

Module TwoStateSigns.
Import Inputs.
Local Open Scope R_scope.

Lemma kernels_positive_two m : kernels_positive (learner_two_cached m) 2.
Proof.
  intros d t P Hd HP.
  destruct (TwoStateContracts.cached_gap_two m d t P Hd HP) as [_ ->].
  split; [apply TwoStateContracts.shape_two |].
  intros k l Hk Hl. pose proof TwoState.e2_bounds.
  destruct k as [| [| k]]; [| | lia];
    (destruct l as [| [| l]]; [| | lia]); cbn; lra.
Qed.

Lemma coupling_nonneg_two m :
  coupling_block_nonneg Exact.lib (learner_two_cached m) 2.
Proof.
  intros d t P i j k l Hd HP Hi Hj Hk Hl.
  destruct (TwoStateContracts.cached_gap_two m d t P Hd HP) as [-> _].
  pose proof TwoState.e2_bounds.
  destruct i as [| [| i]]; [| | lia];
    (destruct j as [| [| j]]; [| | lia]);
    (destruct k as [| [| k]]; [| | lia]);
    (destruct l as [| [| l]]; [| | lia]).
  all: cbn; unfold Exact.phi, Exact.phi_1, Exact.phi_2, Exact.trace2; cbn;
    TwoState.fold_e2; lra.
Qed.

Lemma gaussian_nonneg x mu var : 0 <= Exact.gaussian x mu var.
Proof.
  unfold Exact.gaussian. apply Signs.div_nonneg.
  - apply Rlt_le, exp_pos.
  - apply sqrt_pos.
Qed.

Lemma library_nonneg_exact : library_nonneg Exact.lib.
Proof.
  split; [| split]; cbn.
  - intros x. apply Rlt_le, exp_pos.
  - intros [x | xs] mu sigma; cbn; [apply gaussian_nonneg | apply Rle_refl].
  - intros o mu var. unfold Exact.mvn_pdf_exact.
    assert (H : forall (l : list R) a, 0 <= a ->
                Forall (fun x => 0 <= x) l -> 0 <= fold_left Rmult l a).
    { induction l as [| y l IH]; intros a Ha Hl; cbn; [exact Ha |].
      inversion Hl; subst. apply IH; [| assumption].
      now apply Rmult_le_pos. }
    apply H; [lra |].
    apply Signs.Forall_zip_with_any. intros x y. apply gaussian_nonneg.
Qed.

Lemma pi0_nonneg_two m : nonneg_vec (pi0 (learner_two_cached m)).
Proof. repeat constructor; cbn; lra. Qed.

Lemma rates_two m : rates (learner_two_cached m) 2.
Proof.
  split.
  - intros i j Hi Hj Hij.
    destruct i as [| [| i]]; [| | lia];
      (destruct j as [| [| j]]; [| | lia]); cbn; lra || lia.
  - intros i Hi. destruct i as [| [| i]]; [| | lia]; cbn; lra.
Qed.

End TwoStateSigns.



(** * Further properties of the code

    ** Arrays over any carrier *)

Module Cells.
Section Generic.
Context {T : Type} `{Numeric T}.

Lemma set_nth_overflow {A} i (x : A) l :
  (length l <= i)%nat -> set_nth i x l = l.
Proof.
  revert i. induction l as [| y l IH]; intros [| i] Hi; cbn in *;
    try reflexivity; try lia.
  f_equal. apply IH. lia.
Qed.

Lemma nth_set_nth_other {A} i (x d : A) l a :
  a <> i -> nth a (set_nth i x l) d = nth a l d.
Proof.
  revert i a. induction l as [| y l IH]; intros [| i] [| a] Ha; cbn;
    try reflexivity; try congruence.
  apply IH. congruence.
Qed.

(** A cell that an assignment does not name keeps its value. *)
Lemma at2_set2_other (a : list (list T)) i j x p q :
  (p <> i \/ q <> j) -> at2 (set2 a i j x) p q = at2 a p q.
Proof.
  intros Hpq. unfold at2, set2, row.
  destruct (Nat.eq_dec p i) as [-> | Hp].
  - destruct (Nat.lt_ge_cases i (length a)) as [Hi | Hi].
    + rewrite Loops.nth_set_nth by assumption. rewrite Nat.eqb_refl.
      unfold at1, set1. apply nth_set_nth_other. tauto.
    + rewrite set_nth_overflow by assumption. reflexivity.
  - rewrite nth_set_nth_other by assumption. reflexivity.
Qed.

(** The cell that an assignment inside the array names holds the new
    value. *)
Lemma at2_set2_same (a : list (list T)) i j x :
  (i < length a)%nat -> (j < length (row a i))%nat ->
  at2 (set2 a i j x) i j = x.
Proof.
  intros Hi Hj. unfold at2, set2, row at 1.
  rewrite Loops.nth_set_nth by assumption. rewrite Nat.eqb_refl.
  unfold at1, set1. rewrite Loops.nth_set_nth by assumption.
  now rewrite Nat.eqb_refl.
Qed.

Lemma dims_set2 n m (a : list (list T)) i j x :
  dims n m a -> dims n m (set2 a i j x).
Proof.
  intros [Hn Hm]. unfold set2. split.
  - now rewrite Loops.length_set_nth.
  - intros r Hr. apply (In_nth _ _ []) in Hr as (k & Hk & <-).
    rewrite Loops.length_set_nth in Hk.
    destruct (Nat.lt_ge_cases i (length a)) as [Hi | Hi].
    + rewrite Loops.nth_set_nth by assumption.
      destruct (Nat.eqb k i).
      * unfold set1. rewrite Loops.length_set_nth. apply Hm.
        unfold row. apply nth_In. exact Hi.
      * apply Hm, nth_In. exact Hk.
    + rewrite set_nth_overflow by assumption. apply Hm, nth_In. exact Hk.
Qed.

Lemma dims_zeros n m : dims n m (np_zeros2 n m).
Proof.
  unfold np_zeros2, np_zeros. split; [apply repeat_length |].
  intros r Hr. apply repeat_spec in Hr. subst r. apply repeat_length.
Qed.

Lemma dims_row n m (a : list (list T)) i :
  dims n m a -> (i < n)%nat -> length (row a i) = m.
Proof. intros [Hn Hm] Hi. apply Hm. unfold row. apply nth_In. lia. Qed.

Lemma at2_np_zeros2 n m i j : at2 (np_zeros2 n m) i j = zero.
Proof.
  unfold at2, row, np_zeros2.
  destruct (Nat.lt_ge_cases i n) as [Hi | Hi].
  - rewrite nth_repeat_lt by assumption. apply at1_np_zeros.
  - rewrite nth_overflow by (rewrite repeat_length; lia).
    unfold at1. now destruct j.
Qed.

End Generic.
End Cells.

(** ** The structural mask *)

Module Mask.
Import Cells.
Section Generic.
Context {T : Type} `{Numeric T}.

Lemma fold_left_invariant {A S} (P : S -> Prop) (f : S -> A -> S) l s :
  P s -> (forall s x, In x l -> P s -> P (f s x)) -> P (fold_left f l s).
Proof.
  revert s. induction l as [| x l IH]; intros s Hs Hf; cbn; [exact Hs |].
  apply IH; [apply Hf; [now left | exact Hs] |].
  intros s' y Hy. apply Hf. now right.
Qed.

Lemma mask_like_zeros n : mask_like n (np_zeros2 n n).
Proof.
  split; [apply dims_zeros |].
  split; intros; [| left]; apply at2_np_zeros2.
Qed.

Lemma mask_like_set2 n (a : list (list T)) i j :
  i <> j -> mask_like n a -> mask_like n (set2 a i j one).
Proof.
  intros Hij (Hd & Hz & Hb). split; [now apply dims_set2 |]. split.
  - intros k. rewrite at2_set2_other; [apply Hz |].
    destruct (Nat.eq_dec k i); [right; congruence | now left].
  - intros p q.
    destruct (Nat.eq_dec p i) as [-> | Hp];
      [destruct (Nat.eq_dec q j) as [-> | Hq] |].
    + destruct (Nat.lt_ge_cases i (length a)) as [Hi | Hi].
      * destruct (Nat.lt_ge_cases j (length (row a i))) as [Hj | Hj].
        -- right. now apply at2_set2_same.
        -- unfold set2, set1. rewrite (set_nth_overflow j) by assumption.
           replace (set_nth i (row a i) a) with a; [apply Hb |].
           clear -Hi. unfold row. revert i Hi.
           induction a as [| r a IH]; intros [| i] Hi; cbn in *;
             try reflexivity; try lia.
           f_equal. apply IH. lia.
      * unfold set2. rewrite set_nth_overflow by assumption. apply Hb.
    + rewrite at2_set2_other by now right. apply Hb.
    + rewrite at2_set2_other by now left. apply Hb.
Qed.

Lemma enumerate_functional {A} (l : list A) i x y :
  In (i, x) (enumerate l) -> In (i, y) (enumerate l) -> x = y.
Proof.
  unfold enumerate. generalize 0%nat as k.
  induction l as [| a l IH]; intros k Hx Hy; cbn in *; [contradiction |].
  destruct Hx as [Hx | Hx], Hy as [Hy | Hy].
  - congruence.
  - injection Hx as <- <-. apply in_combine_l, in_seq in Hy. lia.
  - injection Hy as <- <-. apply in_combine_l, in_seq in Hx. lia.
  - exact (IH _ Hx Hy).
Qed.

Lemma combo_eqb_refl c : combo_eqb c c = true.
Proof. unfold combo_eqb. destruct (list_eq_dec Nat.eq_dec c c); congruence. Qed.

Lemma mask_like_fill n allowed combos (a : list (list T)) :
  mask_like n a -> mask_like n (fill_by_combos allowed combos a).
Proof.
  intros Ha. unfold fill_by_combos.
  apply fold_left_invariant; [exact Ha |].
  intros a1 [i ci] Hi Ha1.
  apply fold_left_invariant; [exact Ha1 |].
  intros a2 [j cj] Hj Ha2.
  destruct (negb (combo_eqb ci cj) && allowed ci cj) eqn:E; [| exact Ha2].
  apply mask_like_set2; [| exact Ha2].
  intros ->. rewrite (enumerate_functional combos j ci cj Hi Hj) in E.
  now rewrite combo_eqb_refl in E.
Qed.

Lemma mask_like_create ls_mu struct n (mask : list (list T)) :
  outcome (create_Q_struct ls_mu struct n) = Ok mask -> mask_like n mask.
Proof.
  unfold create_Q_struct.
  destruct (String.eqb struct "fc").
  - intros E. apply outcome_ret in E. subst mask.
    apply fold_left_invariant; [apply mask_like_zeros |].
    intros a1 i _ Ha1.
    apply fold_left_invariant; [exact Ha1 |].
    intros a2 j _ Ha2.
    destruct (negb (Nat.eqb i j)) eqn:E; [| exact Ha2].
    apply mask_like_set2; [| exact Ha2].
    intros ->. now rewrite Nat.eqb_refl in E.
  - destruct (String.eqb struct "forward_step");
      [| destruct (String.eqb struct "forward_any")].
    + intros E. apply outcome_ret in E. subst mask.
      apply mask_like_fill, mask_like_zeros.
    + intros E. apply outcome_ret in E. subst mask.
      apply mask_like_fill, mask_like_zeros.
    + discriminate.
Qed.

Lemma length_itertools_product {A} (l : list A) (ls : list (list A)) :
  length (itertools_product (l :: ls))
  = (length l * length (itertools_product ls))%nat.
Proof.
  cbn [itertools_product].
  induction l as [| x l IH]; cbn [flat_map length]; [reflexivity |].
  rewrite length_app, length_map, IH. lia.
Qed.

Lemma fold_lengths {A} (ls : list (list A)) a :
  fold_left (fun n m => (n * length m)%nat) ls a
  = (a * length (itertools_product ls))%nat.
Proof.
  revert a. induction ls as [| l ls IH]; intros a.
  - cbn. lia.
  - cbn [fold_left]. rewrite IH, length_itertools_product. lia.
Qed.

(** The cells that the loops of "fc" set: all but the diagonal. *)
Lemma fc_cells (n : nat) (a : list (list T)) i j :
  dims n n a -> (i < n)%nat -> (j < n)%nat -> i <> j ->
  at2 (fold_left
         (fun Qs i =>
            fold_left
              (fun Qs j => if negb (Nat.eqb i j) then set2 Qs i j one
                           else Qs)
              (seq 0 n) Qs)
         (seq 0 n) a) i j = one.
Proof.
  intros Ha Hi Hj Hij.
  assert (Hkeep : forall (b : list (list T)) p q,
            at2 b i j = one -> at2 (set2 b p q one) i j = one).
  { intros b p q Hb.
    destruct (Nat.eq_dec i p) as [-> | Hp];
      [destruct (Nat.eq_dec j q) as [-> | Hq] |].
    - destruct (Nat.lt_ge_cases p (length b)) as [Hp | Hp].
      + destruct (Nat.lt_ge_cases q (length (row b p))) as [Hq | Hq].
        * now apply at2_set2_same.
        * unfold at2, row, set2, set1 in *.
          rewrite (set_nth_overflow q) by assumption.
          rewrite Loops.nth_set_nth by assumption.
          now rewrite Nat.eqb_refl.
      + unfold set2. now rewrite set_nth_overflow.
    - rewrite at2_set2_other by now right. exact Hb.
    - rewrite at2_set2_other by now left. exact Hb. }
  assert (Hinner : forall js i' (b : list (list T)),
            at2 b i j = one ->
            at2 (fold_left
                   (fun Qs j' => if negb (Nat.eqb i' j')
                                 then set2 Qs i' j' one else Qs) js b) i j
            = one).
  { induction js as [| j' js IH]; intros i' b Hb; cbn; [exact Hb |].
    apply IH. destruct (negb (Nat.eqb i' j')); [now apply Hkeep | exact Hb]. }
  assert (Hdims : forall js i' (b : list (list T)),
            dims n n b ->
            dims n n (fold_left
                        (fun Qs j' => if negb (Nat.eqb i' j')
                                      then set2 Qs i' j' one else Qs) js b)).
  { induction js as [| j' js IH]; intros i' b Hb; cbn; [exact Hb |].
    apply IH. destruct (negb (Nat.eqb i' j')); [now apply dims_set2 |
                                                 exact Hb]. }
  assert (Hgen : forall is_ js (b : list (list T)),
            In i is_ -> In j js -> dims n n b ->
            at2 (fold_left
                   (fun Qs i' =>
                      fold_left
                        (fun Qs j' => if negb (Nat.eqb i' j')
                                      then set2 Qs i' j' one else Qs)
                        js Qs) is_ b) i j = one).
  { intros is_ js b Hi' Hj' Hb.
    apply in_split in Hi' as (l1 & l2 & ->).
    rewrite fold_left_app. cbn [fold_left].
    assert (Houter : forall l (c : list (list T)),
              at2 c i j = one ->
              at2 (fold_left
                     (fun Qs i' =>
                        fold_left
                          (fun Qs j' => if negb (Nat.eqb i' j')
                                        then set2 Qs i' j' one else Qs)
                          js Qs) l c) i j = one).
    { induction l as [| i' l IH]; intros c Hc; cbn; [exact Hc |].
      apply IH. now apply Hinner. }
    apply Houter.
    assert (Hb1 : dims n n
              (fold_left
                 (fun Qs i' =>
                    fold_left
                      (fun Qs j' => if negb (Nat.eqb i' j')
                                    then set2 Qs i' j' one else Qs)
                      js Qs) l1 b)).
    { apply fold_left_invariant; [exact Hb |].
      intros c i' _ Hc. now apply Hdims. }
    revert Hb1.
    generalize (fold_left
                 (fun Qs i' =>
                    fold_left
                      (fun Qs j' => if negb (Nat.eqb i' j')
                                    then set2 Qs i' j' one else Qs)
                      js Qs) l1 b).
    intros c Hc.
    apply in_split in Hj' as (m1 & m2 & ->).
    rewrite fold_left_app. cbn [fold_left].
    apply Hinner.
    apply Nat.eqb_neq in Hij. rewrite Hij. cbn [negb].
    pose proof (Hdims m1 i c Hc) as Hc'.
    apply at2_set2_same.
    - destruct Hc' as [-> _]. exact Hi.
    - rewrite (dims_row n n _ i Hc' Hi). exact Hj. }
  apply Hgen; [apply in_seq; lia | apply in_seq; lia | exact Ha].
Qed.

End Generic.
End Mask.

(** The constructor counts the states as the joint level combinations of
    the markers, and builds for every recognized structure an n x n mask
    of zeros and ones whose diagonal is zero. *)
Theorem constructor_counts_states_and_builds_a_mask :
  forall (T : Type) (NT : Numeric T) (lib : NumLib T)
         (Q : option (list (list T))) (pi0 : list T)
         (ls_mu ls_sigma : list (list T)) (patients : list (@Patient T))
         (structure method : string) (bound : bool) (s : @Learner T),
    outcome (CT_HMM_LEARNER_init lib Q pi0 ls_mu ls_sigma patients
               structure method bound) = Ok s ->
    num_state s = length (itertools_product ls_mu) /\
    dims (num_state s) (num_state s) (Q_struct s) /\
    (forall i, at2 (Q_struct s) i i = zero) /\
    (forall i j, at2 (Q_struct s) i j = zero \/ at2 (Q_struct s) i j = one).
Proof.
  intros T NT lib Q pi0 ls_mu ls_sigma patients structure method bound s.
  unfold CT_HMM_LEARNER_init.
  destruct ls_mu as [| mu0 mus]; [discriminate |].
  intros Hrun.
  apply outcome_bind_Ok in Hrun as (mask & Hmask & Hrun).
  apply outcome_bind_Ok in Hrun as (u & _ & Hrun).
  apply outcome_ret in Hrun. subst s. cbn [num_state Q_struct].
  assert (En : (if Nat.eqb (length (mu0 :: mus)) 1 then length mu0
                else fold_left (fun n m => (n * length m)%nat) mus
                       (length mu0))
               = length (itertools_product (mu0 :: mus))).
  { rewrite Mask.length_itertools_product.
    destruct mus as [| mu1 mus']; [cbn; lia |].
    cbn [length Nat.eqb]. apply Mask.fold_lengths. }
  split; [exact En |].
  exact (Mask.mask_like_create _ _ _ mask Hmask).
Qed.

Lemma constructor_mask_witness :
  exists s : @Learner float,
    outcome (CT_HMM_LEARNER_init Binary64.lib None [0.5; 0.5]%float
               [[0; 1]; [0; 1; 2]]%float [[1; 1]; [1; 1; 1]]%float []
               "forward_step"%string "expm"%string true) = Ok s /\
    num_state s = 6%nat /\
    dims (num_state s) (num_state s) (Q_struct s) /\
    (forall i, at2 (Q_struct s) i i = zero) /\
    (forall i j, at2 (Q_struct s) i j = zero \/ at2 (Q_struct s) i j = one).
Proof.
  eexists. split; [vm_compute; reflexivity |].
  apply (constructor_counts_states_and_builds_a_mask float _
           Binary64.lib None [0.5; 0.5]%float
           [[0; 1]; [0; 1; 2]]%float [[1; 1]; [1; 1; 1]]%float []
           "forward_step"%string "expm"%string true).
  vm_compute. reflexivity.
Defined.

(** The fully connected structure allows every transition between two
    different states. *)
Theorem fc_mask_is_one_off_the_diagonal :
  forall (T : Type) (NT : Numeric T) (ls_mu : list (list T)) (n : nat)
         (mask : list (list T)) (i j : nat),
    outcome (create_Q_struct ls_mu "fc"%string n) = Ok mask ->
    (i < n)%nat -> (j < n)%nat ->
    at2 mask i j = if Nat.eqb i j then zero else one.
Proof.
  intros T NT ls_mu n mask i j Hrun Hi Hj.
  destruct (Mask.mask_like_create _ _ _ mask Hrun) as (_ & Hz & _).
  destruct (Nat.eqb i j) eqn:E.
  - apply Nat.eqb_eq in E. subst j. apply Hz.
  - apply Nat.eqb_neq in E. unfold create_Q_struct in Hrun.
    cbn [String.eqb Ascii.eqb Bool.eqb] in Hrun.
    apply outcome_ret in Hrun. subst mask.
    apply Mask.fc_cells; [apply Cells.dims_zeros | assumption ..].
Qed.

Lemma fc_mask_witness :
  at2 [[0; 1; 1]; [1; 0; 1]; [1; 1; 0]]%float 2 1
  = (if Nat.eqb 2 1 then zero else one).
Proof.
  apply (@fc_mask_is_one_off_the_diagonal float _ [[0; 1; 2]]%float 3).
  - vm_compute. reflexivity.
  - lia.
  - lia.
Defined.

(** ** The emission table *)

Module Table.
Section Dicts.
Context {K V : Type} (keq : K -> K -> bool).

Lemma dict_get_In (d : list (K * V)) k v :
  dict_get keq d k = Some v -> exists k', In (k', v) d /\ keq k k' = true.
Proof.
  induction d as [| [k0 v0] d IH]; cbn; [discriminate |].
  destruct (keq k k0) eqn:E.
  - intros E'. injection E' as <-. exists k0. auto.
  - intros E'. destruct (IH E') as (k' & Hin & Hk). exists k'. auto.
Qed.

Lemma dict_get_found (d : list (K * V)) k k' v' :
  In (k', v') d -> keq k k' = true -> exists v, dict_get keq d k = Some v.
Proof.
  induction d as [| [k0 v0] d IH]; cbn; [contradiction |].
  intros Hin Hk. destruct (keq k k0) eqn:E; [eauto |].
  destruct Hin as [Hin | Hin]; [| eauto].
  injection Hin as -> ->. congruence.
Qed.

(** An assignment [d[k] = v] keeps every key. *)
Lemma dict_set_keeps_keys (d : list (K * V)) k v k' v' :
  In (k', v') d -> exists v'', In (k', v'') (dict_set keq d k v).
Proof.
  induction d as [| [k0 v0] d IH]; cbn; [contradiction |].
  intros [Hin | Hin].
  - injection Hin as -> ->. destruct (keq k k'); eexists; left; reflexivity.
  - destruct (keq k k0); [eexists; right; exact Hin |].
    destruct (IH Hin) as (v'' & Hv). exists v''. now right.
Qed.

(** After [d[k] = v] some key that [k] equals holds [v]. *)
Lemma dict_set_has (d : list (K * V)) k v :
  keq k k = true ->
  exists k', In (k', v) (dict_set keq d k v) /\ keq k k' = true.
Proof.
  intros Hk. induction d as [| [k0 v0] d IH]; cbn.
  - exists k. auto.
  - destruct (keq k k0) eqn:E.
    + exists k0. split; [now left | exact E].
    + destruct IH as (k' & Hin & Hk'). exists k'. split; [now right | auto].
Qed.

(** An entry after [d[k] = v] is an old entry, or holds [v] under [k] or
    under an old key that [k] equals. *)
Lemma dict_set_In (d : list (K * V)) k v k' v' :
  In (k', v') (dict_set keq d k v) ->
  In (k', v') d \/
  (v' = v /\ (k' = k \/ (keq k k' = true /\ exists v0, In (k', v0) d))).
Proof.
  induction d as [| [k0 v0] d IH]; cbn.
  - intros [E | []]. injection E as <- <-. auto.
  - destruct (keq k k0) eqn:E; cbn.
    + intros [E' | Hin]; [| auto].
      injection E' as <- <-. right. split; [reflexivity |]. right.
      split; [exact E |]. exists v0. now left.
    + intros [E' | Hin]; [auto |].
      destruct (IH Hin) as [H1 | (-> & [-> | (Hk & v1 & Hv1)])]; auto.
      right. split; [reflexivity |]. right. split; [exact Hk |].
      exists v1. now right.
Qed.

End Dicts.

Section Emissions.
Context {T : Type} `{Numeric T} (lib : NumLib T) (self : @Learner T).

(** The loop of [get_all_emissions_gaussian] over the observations
    [todo], from the table [d]. *)
Lemma emissions_loop (all todo : list (Obs T)) d d' :
  (forall o, In o todo -> In o all) ->
  outcome (for_each todo
             (fun o d =>
                e <- emission_Gaussian lib self o ;;
                ret (dict_set obs_eqb d o e)) d) = Ok d' ->
  (forall k v, In (k, v) d -> exists v', In (k, v') d') /\
  (forall o, In o todo -> obs_eqb o o = true ->
     exists k v, In (k, v) d' /\ obs_eqb o k = true) /\
  ((forall a b, In a all -> In b all -> obs_eqb a b = true -> a = b) ->
   (forall k v, In (k, v) d ->
      In k all /\ outcome (emission_Gaussian lib self k) = Ok v) ->
   forall k v, In (k, v) d' ->
     In k all /\ outcome (emission_Gaussian lib self k) = Ok v).
Proof.
  revert d. induction todo as [| o todo IH]; intros d Hall Hrun.
  - apply outcome_ret in Hrun. subst d'. split; [| split].
    + intros k v Hin. now exists v.
    + intros o [].
    + intros _ Hd. exact Hd.
  - cbn [for_each] in Hrun.
    apply outcome_bind_Ok in Hrun as (d1 & Hd1 & Hrun).
    apply outcome_bind_Ok in Hd1 as (e & He & Hd1).
    apply outcome_ret in Hd1. subst d1.
    destruct (IH _ (fun x Hx => Hall x (or_intror Hx)) Hrun)
      as (Hkeys & Hhas & Hval).
    split; [| split].
    + intros k v Hin.
      destruct (dict_set_keeps_keys obs_eqb d o e k v Hin) as (v1 & Hv1).
      exact (Hkeys k v1 Hv1).
    + intros x [<- | Hx] Hxx; [| now apply Hhas].
      destruct (dict_set_has obs_eqb d o e Hxx) as (k & Hin & Hk).
      destruct (Hkeys k e Hin) as (v' & Hv'). exists k, v'. auto.
    + intros Hleib Hd. apply Hval; [exact Hleib |].
      intros k v Hin.
      destruct (dict_set_In obs_eqb d o e k v Hin)
        as [Hold | (-> & [-> | (Hk & v0 & Hv0)])].
      * now apply Hd.
      * split; [apply Hall; now left | exact He].
      * destruct (Hd k v0 Hv0) as [Hk' _].
        assert (o = k) by (apply Hleib; auto; apply Hall; now left).
        subst k. split; [exact Hk' | exact He].
Qed.

End Emissions.
End Table.

(** After [get_all_emissions_gaussian], [b_s] finds an entry for every
    observation of the patient that equals itself (a NaN does not): no
    [KeyError].  Where observations that compare equal are the same value,
    the entry is the emission vector of that observation. *)
Theorem emission_table_has_every_observation :
  forall (T : Type) (NT : Numeric T) (lib : NumLib T) (self : @Learner T)
         (p p' : @Patient T) (obs : list (Obs T)) (o : Obs T),
    outcome (get_all_emissions_gaussian lib p self) = Ok p' ->
    O p = Some obs -> In o obs -> obs_eqb o o = true ->
    (exists b, outcome (b_s p' o) = Ok b) /\
    ((forall a b, In a obs -> In b obs -> obs_eqb a b = true -> a = b) ->
     outcome (b_s p' o) = outcome (emission_Gaussian lib self o)).
Proof.
  intros T NT lib self p p' obs o Hrun HO Ho Hoo.
  unfold get_all_emissions_gaussian in Hrun. rewrite HO in Hrun.
  cbn [getattr] in Hrun. rewrite bind_ret_l in Hrun.
  apply outcome_bind_Ok in Hrun as (em & Hem & Hrun).
  apply outcome_ret in Hrun. subst p'.
  destruct (Table.emissions_loop lib self obs obs [] em (fun x Hx => Hx) Hem)
    as (_ & Hhas & Hval).
  destruct (Hhas o Ho Hoo) as (k & v & Hin & Hk).
  destruct (Table.dict_get_found obs_eqb em o k v Hin Hk) as (b & Hb).
  assert (Hbs : outcome (b_s (set_emissions p em) o) = Ok b).
  { unfold b_s. cbn [emissions set_emissions set_patient_tables getattr].
    rewrite bind_ret_l. unfold dict_lookup. now rewrite Hb. }
  split; [exists b; exact Hbs |].
  intros Hleib. rewrite Hbs.
  destruct (Table.dict_get_In obs_eqb em o b Hb) as (k' & Hin' & Hk').
  destruct (Hval Hleib (fun k v (F : In (k, v) []) => False_ind _ F)
              k' b Hin') as [Hk'' He].
  assert (o = k') by (apply Hleib; auto). subst k'. now symmetry.
Qed.

Lemma emission_table_witness :
  (exists b,
     outcome (b_s (Inputs.patient_two_tables None None None)
                (ObsScalar (/ 2)%R)) = Ok b) /\
  ((forall a b,
      In a [ObsScalar (/ 2)%R; ObsScalar (/ 2)%R] ->
      In b [ObsScalar (/ 2)%R; ObsScalar (/ 2)%R] ->
      obs_eqb a b = true -> a = b) ->
   outcome (b_s (Inputs.patient_two_tables None None None)
              (ObsScalar (/ 2)%R))
   = outcome (emission_Gaussian Exact.lib (Inputs.learner_two_cached "expm")
                (ObsScalar (/ 2)%R))).
Proof.
  apply (emission_table_has_every_observation R _ Exact.lib
           (Inputs.learner_two_cached "expm") Inputs.patient_two
           (Inputs.patient_two_tables None None None)
           [ObsScalar (/ 2)%R; ObsScalar (/ 2)%R] (ObsScalar (/ 2)%R)).
  - rewrite TwoState.get_all_emissions_patient_two. reflexivity.
  - reflexivity.
  - left. reflexivity.
  - cbn. apply Reqb_refl.
Defined.

(** ** A gap without a cached kernel *)

(** For a gap [t] that [matrix_exponentials] has not cached, the fallback
    [expm(Q*t)] of [get_alpha_vector] and [get_beta_vector] reads a name
    [Q] that neither function binds: both raise [NameError], whatever the
    emissions and the previous vector. *)
Theorem uncached_gap_raises_NameError :
  forall (T : Type) (NT : Numeric T) (lib : NumLib T) (self : @Learner T)
         (p : @Patient T) (t : T) (obs : Obs T)
         (d : list (T * list (list T))) (b : list T),
    expm_Q_t self = Some d -> dict_get eqb d t = None ->
    outcome (b_s p obs) = Ok b ->
    (eqb t zero = false ->
     forall prev pi0o,
       outcome (get_alpha_vector p t obs self prev pi0o)
       = Raise (NameError "Q")) /\
    (forall Cv i after,
       outcome (get_beta_vector lib p Cv t i obs self after)
       = Raise (NameError "Q")).
Proof.
  intros T NT lib self p t obs d b Hd Hmiss Hb.
  assert (Hk : forall locals,
            existsb (String.eqb "Q") (locals ++ module_globals) = false ->
            outcome (kernel_or_expm locals self t) = Raise (NameError "Q")).
  { intros locals Hloc. unfold kernel_or_expm. rewrite Hd.
    cbn [getattr]. rewrite bind_ret_l, Hmiss.
    apply outcome_bind_Raise. unfold resolve. now rewrite Hloc. }
  split.
  - intros Ht prev pi0o. unfold get_alpha_vector.
    rewrite (outcome_bind_intro _ _ Hb). rewrite Ht. cbn [negb].
    apply outcome_bind_Raise, outcome_bind_Raise, Hk. reflexivity.
  - intros Cv i after. unfold get_beta_vector.
    rewrite (outcome_bind_intro _ _ Hb).
    apply outcome_bind_Raise, Hk. reflexivity.
Qed.

Lemma uncached_gap_witness :
  (eqb 2%float zero = false ->
   forall prev pi0o,
     outcome (get_alpha_vector
                (set_emissions (Patient_init 10%float false)
                   [(ObsScalar 1%float, [0.5%float; 0.5%float])])
                2%float (ObsScalar 1%float)
                (set_caches Inputs.learner_flat (Some [1%float])
                   (Some [(1%float, [[1%float]])]) None None None None None)
                prev pi0o)
     = Raise (NameError "Q")) /\
  (forall Cv i after,
     outcome (get_beta_vector Binary64.lib
                (set_emissions (Patient_init 10%float false)
                   [(ObsScalar 1%float, [0.5%float; 0.5%float])])
                Cv 2%float i (ObsScalar 1%float)
                (set_caches Inputs.learner_flat (Some [1%float])
                   (Some [(1%float, [[1%float]])]) None None None None None)
                after)
     = Raise (NameError "Q")).
Proof.
  apply (uncached_gap_raises_NameError float _ Binary64.lib
           (set_caches Inputs.learner_flat (Some [1%float])
              (Some [(1%float, [[1%float]])]) None None None None None)
           (set_emissions (Patient_init 10%float false)
              [(ObsScalar 1%float, [0.5%float; 0.5%float])])
           2%float (ObsScalar 1%float)
           [(1%float, [[1%float]])] [0.5%float; 0.5%float]).
  - reflexivity.
  - vm_compute. reflexivity.
  - vm_compute. reflexivity.
Defined.

(** ** The forward and the backward pass *)

Module Passes.
Import Sums Loops Cells.

Lemma for_each_invariant_In {A S} (P : S -> Prop) (body : A -> S -> M S) xs :
  (forall x s s', In x xs -> P s -> outcome (body x s) = Ok s' -> P s') ->
  forall s s', P s -> outcome (for_each xs body s) = Ok s' -> P s'.
Proof.
  induction xs as [| x xs IH]; intros Hbody s s' Hs Hrun.
  - apply outcome_ret in Hrun. now subst.
  - cbn [for_each] in Hrun. apply outcome_bind_Ok in Hrun as (s1 & H1 & H2).
    apply (IH (fun y t t' Hy => Hbody y t t' (or_intror Hy)) s1 s');
      [| exact H2].
    exact (Hbody x s s1 (or_introl eq_refl) Hs H1).
Qed.

Lemma outcome_store_Ok {A} what (l : list A) i x l' :
  outcome (store what l i x) = Ok l' ->
  (i < length l)%nat /\ l' = set_nth i x l.
Proof.
  unfold store. destruct (i <? length l)%nat eqn:E; [| discriminate].
  intros E'. apply outcome_ret in E'. apply Nat.ltb_lt in E. auto.
Qed.

Section Backward.
Context {T : Type} `{Numeric T} (lib : NumLib T).

(** The rows of [Beta] from the last observation time on are never
    written: they keep the ones they were initialized with. *)
Lemma beta_rows_kept (self : @Learner T) (p p' : @Patient T) times T_ :
  outcome (beta_backward_recursion lib p self) = Ok p' ->
  observation_times p = Some times -> num_obs p = Some T_ ->
  exists B,
    Beta p' = Some B /\ length B = T_ /\
    forall k, (length times - 1 <= k)%nat -> (k < T_)%nat ->
      row B k = np_ones (num_state self).
Proof.
  intros Hrun Ht HT. unfold beta_backward_recursion in Hrun.
  rewrite Ht, HT in Hrun.
  apply outcome_bind_Ok in Hrun as (Cv & _ & Hrun).
  cbn [getattr] in Hrun. rewrite bind_ret_l in Hrun.
  apply outcome_bind_Ok in Hrun as (obs & _ & Hrun).
  rewrite bind_ret_l in Hrun.
  apply outcome_bind_Ok in Hrun as (B & HB & Hrun).
  apply outcome_ret in Hrun. subst p'. exists B.
  split; [reflexivity |].
  revert HB.
  apply (for_each_invariant_In
           (fun B : list (list T) =>
              length B = T_ /\
              forall k, (length times - 1 <= k)%nat -> (k < T_)%nat ->
                row B k = np_ones (num_state self))).
  - intros i Bl Bl' Hi [HlB Hrows] Hstep.
    apply in_rev, in_seq in Hi.
    apply outcome_bind_Ok in Hstep as (t_n & _ & Hstep).
    apply outcome_bind_Ok in Hstep as (t_i & _ & Hstep).
    apply outcome_bind_Ok in Hstep as (o & _ & Hstep).
    apply outcome_bind_Ok in Hstep as (after & _ & Hstep).
    apply outcome_bind_Ok in Hstep as (beta & _ & Hstep).
    apply outcome_bind_Ok in Hstep as (Bs & HBs & Hstep).
    apply outcome_bind_Ok in Hstep as (u & _ & Hstep).
    apply outcome_ret in Hstep. subst Bl'.
    apply outcome_store_Ok in HBs as [Hlt ->].
    split; [now rewrite length_set_nth |].
    intros k Hk HkT. unfold row.
    rewrite nth_set_nth_other by lia. now apply Hrows.
  - split; [apply repeat_length |].
    intros k _ Hk. unfold row, np_ones2. now apply nth_repeat_lt.
Qed.

End Backward.

Local Open Scope R_scope.

Lemma np_sum_vdiv_scalar (v : list R) c :
  np_sum (vdiv_scalar v c) = np_sum v / c.
Proof.
  rewrite (np_sum_rsum (vdiv_scalar v c) (length v))
    by (unfold vdiv_scalar; rewrite length_map; lia).
  rewrite (np_sum_rsum v (length v)) by lia.
  unfold Rdiv. rewrite <- rsum_scal_r. apply rsum_ext. intros i _.
  unfold vdiv_scalar. rewrite (at1_map (fun x => x / c)); [reflexivity |].
  unfold Rdiv. ring.
Qed.

(** Each scaled forward vector sums to one, unless its scaling factor is
    zero. *)
Lemma get_alpha_vector_normalized (p : @Patient R) t o (self : @Learner R)
    prev pi0o ac :
  outcome (get_alpha_vector p t o self prev pi0o) = Ok ac ->
  snd ac <> 0 -> np_sum (fst ac) = 1.
Proof.
  unfold get_alpha_vector. intros Hrun.
  apply outcome_bind_Ok in Hrun as (b & _ & Hrun).
  apply outcome_bind_Ok in Hrun as (alpha & _ & Hrun).
  apply outcome_ret in Hrun. subst ac. cbn [fst snd]. intros Hc.
  rewrite np_sum_vdiv_scalar. now field.
Qed.

Lemma alpha_rows_normalized (self : @Learner R) (p p' : @Patient R) :
  outcome (alpha_forward_recursion p self) = Ok p' ->
  exists A Cv,
    Alpha p' = Some A /\ C p' = Some Cv /\
    forall i, at1 Cv i <> 0 -> np_sum (row A i) = 1.
Proof.
  unfold alpha_forward_recursion. intros H.
  apply outcome_bind_Ok in H as (obs & _ & H).
  apply outcome_bind_Ok in H as (T_ & _ & H).
  apply outcome_bind_Ok in H as (o0 & _ & H).
  apply outcome_bind_Ok in H as (ac & Hac & H).
  apply outcome_bind_Ok in H as (A0 & HA0 & H).
  apply outcome_bind_Ok in H as (C0 & HC0 & H).
  apply outcome_bind_Ok in H as (times & _ & H).
  apply outcome_bind_Ok in H as (AC & HAC & H).
  apply outcome_ret in H. subst p'.
  exists (fst AC), (snd AC). split; [reflexivity |]. split; [reflexivity |].
  assert (Hset : forall (Al : list (list R)) (Cl : list R) i v c,
            (i < length Al)%nat -> (i < length Cl)%nat ->
            (c <> 0 -> np_sum v = 1) ->
            (forall k, at1 Cl k <> 0 -> np_sum (row Al k) = 1) ->
            forall k, at1 (set_nth i c Cl) k <> 0 ->
                      np_sum (row (set_nth i v Al) k) = 1).
  { intros Al Cl i v c HiA HiC Hv Hinv k. unfold at1, row.
    rewrite !nth_set_nth by assumption.
    destruct (Nat.eqb k i); [exact Hv | apply Hinv]. }
  apply outcome_store_Ok in HA0 as [HlA ->], HC0 as [HlC ->].
  revert HAC.
  apply (for_each_invariant
           (fun s : list (list R) * list R =>
              forall k, at1 (snd s) k <> 0 -> np_sum (row (fst s) k) = 1)).
  - intros i [Al Cl] s' Hinv Hstep. cbn [fst snd] in Hinv.
    apply outcome_bind_Ok in Hstep as (t_i & _ & Hstep).
    apply outcome_bind_Ok in Hstep as (t_p & _ & Hstep).
    apply outcome_bind_Ok in Hstep as (o & _ & Hstep).
    apply outcome_bind_Ok in Hstep as (prev & _ & Hstep).
    apply outcome_bind_Ok in Hstep as (ac' & Hac' & Hstep).
    apply outcome_bind_Ok in Hstep as (Al' & HAl' & Hstep).
    apply outcome_bind_Ok in Hstep as (Cl' & HCl' & Hstep).
    apply outcome_ret in Hstep. subst s'. cbn [fst snd].
    apply outcome_store_Ok in HAl' as [HiA ->], HCl' as [HiC ->].
    apply Hset; try assumption.
    exact (get_alpha_vector_normalized _ _ _ _ _ _ _ Hac').
  - cbn [fst snd]. apply Hset; try assumption.
    + exact (get_alpha_vector_normalized _ _ _ _ _ _ _ Hac).
    + intros k Hk. exfalso. apply Hk. apply at1_zeros.
Qed.

End Passes.

(** The backward pass starts from a table of ones and writes the rows
    before the last observation time only: from there on every row is
    still the vector of ones. *)
Theorem backward_pass_ends_in_ones :
  forall (T : Type) (NT : Numeric T) (lib : NumLib T) (self : @Learner T)
         (p p' : @Patient T) (times : list T) (T_ : nat),
    outcome (beta_backward_recursion lib p self) = Ok p' ->
    observation_times p = Some times -> num_obs p = Some T_ ->
    exists B,
      Beta p' = Some B /\ length B = T_ /\
      forall k, (length times - 1 <= k)%nat -> (k < T_)%nat ->
        row B k = np_ones (num_state self).
Proof.
  intros T NT lib self p p' times T_.
  apply Passes.beta_rows_kept.
Qed.

Lemma backward_pass_witness :
  exists B,
    Beta (Inputs.patient_two_tables None (Some Inputs.C_two)
            (Some Inputs.Beta_two)) = Some B /\
    length B = 2%nat /\
    forall k, (length [0; 1]%R - 1 <= k)%nat -> (k < 2)%nat ->
      row B k = np_ones (num_state (Inputs.learner_two_cached "expm")).
Proof.
  apply (backward_pass_ends_in_ones R _ Exact.lib
           (Inputs.learner_two_cached "expm")
           (Inputs.patient_two_tables None (Some Inputs.C_two) None)
           (Inputs.patient_two_tables None (Some Inputs.C_two)
              (Some Inputs.Beta_two))
           [0; 1]%R 2).
  - rewrite TwoState.beta_two. reflexivity.
  - reflexivity.
  - reflexivity.
Defined.

(** In exact arithmetic every row of [Alpha] whose scaling factor in [C]
    is not zero sums to one: the forward variables are scaled to
    probability vectors. *)
Theorem forward_pass_scales_rows_to_one :
  forall (self : @Learner R) (p p' : @Patient R),
    outcome (alpha_forward_recursion p self) = Ok p' ->
    exists A Cv,
      Alpha p' = Some A /\ C p' = Some Cv /\
      forall i, at1 Cv i <> 0%R -> np_sum (row A i) = 1%R.
Proof.
  intros self p p'. apply Passes.alpha_rows_normalized.
Qed.

Lemma forward_pass_witness :
  exists A Cv,
    Alpha (Inputs.patient_two_tables (Some Inputs.Alpha_two)
             (Some Inputs.C_two) None) = Some A /\
    C (Inputs.patient_two_tables (Some Inputs.Alpha_two)
         (Some Inputs.C_two) None) = Some Cv /\
    forall i, at1 Cv i <> 0%R -> np_sum (row A i) = 1%R.
Proof.
  apply (forward_pass_scales_rows_to_one
           (Inputs.learner_two_cached "expm")
           (Inputs.patient_two_tables None None None)).
  rewrite TwoState.alpha_two. reflexivity.
Defined.

(** ** The pairwise beliefs and Psi *)

Module Beliefs.
Import Sums Loops.
Local Open Scope R_scope.

Lemma at1_np_dot_mv n (P : list (list R)) (v : list R) k :
  shape n n P -> (k < n)%nat ->
  at1 (np_dot_mv P v) k = rsum n (fun l => at2 P k l * at1 v l).
Proof.
  intros HP Hk. unfold np_dot_mv, at1.
  change (zero (T := R)) with 0.
  rewrite (nth_indep _ 0 (vdot [] v))
    by (rewrite length_map; destruct HP as [HPn _]; unfold vec in *; lia).
  rewrite (map_nth (fun r => vdot r v) P []).
  change (nth k P []) with (row P k).
  rewrite (vdot_rsum (row P k) v n)
    by (left; rewrite (shape_row n n P k HP Hk); lia).
  reflexivity.
Qed.

Lemma zeta_total n (P : list (list R)) (alpha beta b : list R) :
  shape n n P ->
  np_sum2 (np_multiply P (np_outer alpha (vmul b beta)))
  = vdot alpha (np_dot_mv P (vmul beta b)).
Proof.
  intros HP.
  rewrite (np_sum2_rsum _ n n).
  - rewrite (vdot_rsum alpha (np_dot_mv P (vmul beta b)) n)
      by (right; unfold np_dot_mv; rewrite length_map;
          destruct HP as [HPn _]; unfold vec in *; lia).
    apply rsum_ext. intros k Hk.
    rewrite (at1_np_dot_mv n P _ k HP Hk), <- rsum_scal_l.
    apply rsum_ext. intros l Hl.
    rewrite at2_np_multiply, at2_np_outer, !at1_vmul. ring.
  - unfold np_multiply. rewrite length_zip_with.
    destruct HP as [HPn _]. unfold vec in *. lia.
  - intros r Hr. unfold np_multiply in Hr.
    apply (In_nth _ _ []) in Hr as (k & Hk & <-).
    rewrite length_zip_with in Hk.
    assert (Hk' : (k < n)%nat)
      by (destruct HP as [HPn _]; unfold vec in *; lia).
    change (nth k (zip_with vmul P (np_outer alpha (vmul b beta))) [])
      with (row (np_multiply P (np_outer alpha (vmul b beta))) k).
    unfold np_multiply.
    rewrite row_zip_with; [| reflexivity | intros; apply zip_with_nil_r].
    unfold vmul at 1. rewrite length_zip_with.
    rewrite (shape_row n n P k HP Hk'). lia.
Qed.

Lemma np_sum2_mdiv_scalar (a : list (list R)) c :
  np_sum2 (mdiv_scalar a c) = np_sum2 a / c.
Proof.
  unfold np_sum2, mdiv_scalar.
  rewrite <- (Passes.np_sum_vdiv_scalar (concat a) c).
  f_equal. unfold vdiv_scalar. now rewrite concat_map.
Qed.

End Beliefs.

(** In exact arithmetic the pairwise beliefs [Zeta] of a gap with an n x n
    kernel sum to one whenever the likelihood they are divided by is not
    zero. *)
Theorem pairwise_beliefs_sum_to_one :
  forall (self : @Learner R) (p : @Patient R) (t : R) (alpha beta : list R)
         (obs : Obs R) (n : nat) (d : list (R * list (list R)))
         (P Z : list (list R)) (b : list R),
    expm_Q_t self = Some d -> dict_get Reqb d t = Some P -> shape n n P ->
    outcome (b_s p obs) = Ok b ->
    vdot alpha (np_dot_mv P (vmul beta b)) <> 0%R ->
    outcome (get_zeta self t p alpha beta obs) = Ok Z ->
    np_sum2 Z = 1%R.
Proof.
  intros self p t alpha beta obs n d P Z b Hd HP Hs Hb HL Hrun.
  unfold get_zeta in Hrun.
  rewrite (outcome_bind_intro _ _ Hb), Hd in Hrun.
  cbn [getattr] in Hrun. rewrite bind_ret_l in Hrun.
  unfold dict_lookup in Hrun.
  change (@eqb R R_Numeric) with Reqb in Hrun. rewrite HP in Hrun.
  rewrite bind_ret_l in Hrun. apply outcome_ret in Hrun. subst Z.
  unfold zeta. rewrite Beliefs.np_sum2_mdiv_scalar.
  rewrite (Beliefs.zeta_total n P alpha beta b Hs).
  now field.
Qed.

Lemma pairwise_beliefs_witness : np_sum2 Inputs.Zeta_two = 1%R.
Proof.
  apply (pairwise_beliefs_sum_to_one (Inputs.learner_two_cached "expm")
           (Inputs.patient_two_tables None None (Some Inputs.Beta_two))
           (1 - 0)%R [/ 2; / 2]%R [1; 1]%R (ObsScalar (/ 2)%R) 2
           [((1 - 0)%R, Inputs.kernel_two)] Inputs.kernel_two
           Inputs.Zeta_two [Inputs.pdf_half; Inputs.pdf_half]).
  - reflexivity.
  - cbn -[Reqb].
    match goal with
    | |- context [Reqb ?a ?b] =>
        replace (Reqb a b) with true by (symmetry; apply Reqb_refl)
    end.
    reflexivity.
  - apply TwoStateContracts.shape_two.
  - unfold b_s, dict_lookup.
    cbn [emissions Inputs.patient_two_tables getattr].
    rewrite bind_ret_l. cbn [dict_get obs_eqb].
    change (@eqb R R_Numeric) with Reqb.
    match goal with
    | |- context [Reqb ?a ?b] =>
        replace (Reqb a b) with true by (symmetry; apply Reqb_refl)
    end.
    reflexivity.
  - pose proof TwoState.pdf_half_pos. pose proof TwoState.e2_bounds.
    cbn. unfold Inputs.kernel_two. cbn.
    intros E. field_simplify in E. lra.
  - pose proof (TwoState.zeta_at_two "expm" None None) as E.
    unfold zeta_at, index, Inputs.Alpha_two, Inputs.Beta_two in E.
    cbn [nth_error Nat.sub] in E. rewrite !bind_ret_l in E.
    cbn [O Inputs.patient_two_tables getattr] in E.
    rewrite bind_ret_l in E. cbn [nth_error] in E.
    rewrite bind_ret_l in E. exact (f_equal outcome E).
Defined.

(** In exact arithmetic [calculate_Psi_eigen] returns a symmetric
    matrix. *)
Theorem Psi_is_symmetric :
  forall (lib : NumLib R) (self : @Learner R) (t : R) (p q : nat),
    at2 (calculate_Psi_eigen lib self t) p q
    = at2 (calculate_Psi_eigen lib self t) q p.
Proof.
  intros lib self t p q. unfold calculate_Psi_eigen.
  destruct (eig lib (Q self)) as [Dv Um].
  rewrite !(Sums.at2_table (fun p q => Psi_entry lib Dv t p q)).
  rewrite (andb_comm (q <? _)%nat).
  destruct ((p <? length (Q self))%nat && (q <? length (Q self))%nat);
    [| reflexivity].
  unfold Psi_entry. change (@eqb R R_Numeric) with Reqb.
  unfold Reqb.
  destruct (Req_dec_T (at1 Dv p) (at1 Dv q)) as [E | E];
    destruct (Req_dec_T (at1 Dv q) (at1 Dv p)) as [E' | E'];
    try congruence.
  change (@div R R_Numeric) with Rdiv.
  change (@sub R R_Numeric) with Rminus.
  change (@mul R R_Numeric) with Rmult.
  field. split; intros F; [apply E' | apply E]; lra.
Qed.

(** ** The kernels of the gaps *)

Module Kernels.
Local Open Scope R_scope.

Lemma Reqb_true_iff (x y : R) : Reqb x y = true <-> x = y.
Proof.
  unfold Reqb. destruct (Req_dec_T x y); split; congruence.
Qed.

Lemma insert_unique_In (x y : R) (l : list R) :
  In y (insert_unique x l) <-> y = x \/ In y l.
Proof.
  induction l as [| z l IH]; cbn [insert_unique].
  - cbn. intuition.
  - change (@eqb R R_Numeric) with Reqb.
    destruct (Reqb x z) eqn:E.
    + apply Reqb_true_iff in E. subst z. cbn. intuition.
    + destruct (ltb x z); cbn; [intuition |].
      rewrite IH. intuition.
Qed.

Lemma np_unique_In (y : R) (l : list R) : In y (np_unique l) <-> In y l.
Proof.
  unfold np_unique.
  assert (Hgen : forall acc,
            In y (fold_left (fun acc x => insert_unique x acc) l acc)
            <-> In y l \/ In y acc).
  { induction l as [| x l IH]; intros acc; cbn [fold_left].
    - cbn. intuition.
    - rewrite IH, insert_unique_In. cbn. intuition. }
  rewrite Hgen. cbn. intuition.
Qed.

Lemma dict_get_set {V} (d : list (R * V)) k v k' :
  dict_get Reqb (dict_set Reqb d k v) k'
  = if Reqb k' k then Some v else dict_get Reqb d k'.
Proof.
  induction d as [| [k0 v0] d IH]; cbn [dict_set dict_get].
  - reflexivity.
  - destruct (Reqb k k0) eqn:E; cbn [dict_get].
    + apply Reqb_true_iff in E. subst k0.
      destruct (Reqb k' k); reflexivity.
    + destruct (Reqb k' k0) eqn:E0.
      * apply Reqb_true_iff in E0. subst k0.
        destruct (Reqb k' k) eqn:E1; [| reflexivity].
        apply Reqb_true_iff in E1. subst k'.
        now rewrite Reqb_refl in E.
      * exact IH.
Qed.

(** The table that the loop of [matrix_exponentials] builds holds, for
    every interval it went through, the value computed for it. *)
Lemma kernels_loop {V} (f : R -> V) (tis : list R) t :
  forall d,
    (In t tis \/ dict_get Reqb d t = Some (f t)) ->
    dict_get Reqb (fold_left (fun d t => dict_set Reqb d t (f t)) tis d) t
    = Some (f t).
Proof.
  induction tis as [| x tis IH]; intros d Ht; cbn [fold_left].
  - destruct Ht as [[] | Ht]. exact Ht.
  - apply IH. destruct (Req_dec_T t x) as [-> | Hne].
    + right. now rewrite dict_get_set, Reqb_refl.
    + destruct Ht as [[-> | Ht] | Ht]; [congruence | now left |].
      right. now rewrite dict_get_set, (Reqb_neq Hne).
Qed.

Lemma gaps_collected (ps : list (@Patient R)) acc tis :
  outcome (for_each ps
             (fun patient acc =>
                ot <- getattr "observation_times"
                        (observation_times patient) ;;
                ret (acc ++ gaps ot)) acc) = Ok tis ->
  (forall t, In t acc -> In t tis) /\
  (forall patient times t,
     In patient ps -> observation_times patient = Some times ->
     In t (gaps times) -> In t tis).
Proof.
  revert acc. induction ps as [| p ps IH]; intros acc Hrun.
  - apply outcome_ret in Hrun. subst tis. split; [auto |].
    intros patient times t [].
  - cbn [for_each] in Hrun.
    apply outcome_bind_Ok in Hrun as (acc1 & H1 & Hrun).
    apply outcome_bind_Ok in H1 as (ot & Hot & H1).
    apply outcome_ret in H1. subst acc1. apply outcome_getattr in Hot.
    destruct (IH _ Hrun) as [Hacc Hps]. split.
    + intros t Ht. apply Hacc, in_or_app. now left.
    + intros patient times t [<- | Hin] Htimes Ht.
      * rewrite Hot in Htimes. injection Htimes as <-.
        apply Hacc, in_or_app. now right.
      * exact (Hps patient times t Hin Htimes Ht).
Qed.

End Kernels.

(** In exact arithmetic, after [get_time_intervals] and
    [matrix_exponentials], the table [expm_Q_t] holds [expm(Q*t)] under
    every gap [t] between consecutive observation times of every patient:
    on the training data the forward and the backward pass always find
    the kernel of the gap. *)
Theorem every_gap_has_its_kernel :
  forall (lib : NumLib R) (self s1 s2 : @Learner R) (patient : @Patient R)
         (times : list R) (t : R),
    outcome (get_time_intervals self) = Ok s1 ->
    outcome (matrix_exponentials lib s1) = Ok s2 ->
    In patient (patients self) ->
    observation_times patient = Some times -> In t (gaps times) ->
    exists d,
      expm_Q_t s2 = Some d /\
      dict_get Reqb d t = Some (expm lib (mscale_r (Q self) t)).
Proof.
  intros lib self s1 s2 patient times t H1 H2 Hp Htimes Ht.
  unfold get_time_intervals in H1.
  apply outcome_bind_Ok in H1 as (tis & Htis & H1).
  apply outcome_ret in H1. subst s1.
  destruct (Kernels.gaps_collected _ _ _ Htis) as [_ Hall].
  pose proof (Hall patient times t Hp Htimes Ht) as Hin.
  unfold matrix_exponentials in H2.
  cbn [time_intervals set_caches getattr] in H2.
  rewrite bind_ret_l in H2. apply outcome_ret in H2. subst s2.
  cbn [expm_Q_t set_caches Q]. eexists. split; [reflexivity |].
  apply (Kernels.kernels_loop (fun t => expm lib (mscale_r (Q self) t))).
  left. now apply Kernels.np_unique_In.
Qed.

Lemma every_gap_witness :
  exists d,
    expm_Q_t (set_caches (Inputs.learner_two "expm") (Some [(1 - 0)%R])
                (Some [((1 - 0)%R, Inputs.kernel_two)])
                None None None None None) = Some d /\
    dict_get Reqb d (1 - 0)%R
    = Some (expm Exact.lib
              (mscale_r (Q (Inputs.learner_two "expm")) (1 - 0)%R)).
Proof.
  apply (every_gap_has_its_kernel Exact.lib (Inputs.learner_two "expm")
           (Inputs.learner_two "expm") _ Inputs.patient_two
           [0%R; 1%R] (1 - 0)%R).
  - reflexivity.
  - rewrite TwoState.matrix_exponentials_two. reflexivity.
  - left. reflexivity.
  - reflexivity.
  - left. reflexivity.
Defined.

(** ** The M-step *)

Module MStepFacts.
Import Cells Passes.

Lemma for_each_visit {A S} (I J : S -> Prop) (body : A -> S -> M S) xs x :
  In x xs ->
  (forall y s s', I s -> outcome (body y s) = Ok s' -> I s') ->
  (forall s s', I s -> outcome (body x s) = Ok s' -> J s') ->
  (forall y s s', I s -> J s -> outcome (body y s) = Ok s' -> J s') ->
  forall s s', I s -> outcome (for_each xs body s) = Ok s' -> J s'.
Proof.
  intros Hx HI Hvisit HJ.
  assert (Hkeep : forall l s s', I s -> J s ->
            outcome (for_each l body s) = Ok s' -> J s').
  { induction l as [| y l IH]; intros s s' Hs HsJ Hrun.
    - apply outcome_ret in Hrun. now subst.
    - cbn [for_each] in Hrun.
      apply outcome_bind_Ok in Hrun as (s1 & H1 & H2).
      apply (IH s1 s'); eauto. }
  induction xs as [| y xs IH]; intros s s' Hs Hrun; [contradiction |].
  cbn [for_each] in Hrun. apply outcome_bind_Ok in Hrun as (s1 & H1 & H2).
  destruct Hx as [-> | Hx].
  - apply (Hkeep xs s1 s'); eauto.
  - apply (IH Hx s1 s'); eauto.
Qed.

Section Rates.
Context {T : Type} `{Numeric T}.

(** One assignment of the first double loop changes the cell [(i, j)]
    only and keeps the shape. *)
Lemma update_rate_frame self_bound (Nij : Stat (list (list T)))
    (TauI : Stat (list T)) i j (Qm Qm' : list (list T)) n :
  outcome (update_rate self_bound Nij TauI i j Qm) = Ok Qm' ->
  (dims n n Qm -> dims n n Qm') /\
  (forall a b, a <> i \/ b <> j -> at2 Qm' a b = at2 Qm a b).
Proof.
  unfold update_rate. intros Hrun.
  apply outcome_bind_Ok in Hrun as (nij & _ & Hrun).
  apply outcome_bind_Ok in Hrun as (taui & _ & Hrun).
  apply outcome_bind_Ok in Hrun as (u & _ & Hrun).
  apply outcome_ret in Hrun. subst Qm'.
  destruct self_bound;
    [destruct (ltb (at2 (set2 Qm i j (div nij taui)) i j) lit_1e_10) |].
  - split; [intros; now apply dims_set2, dims_set2 |].
    intros a b Hab. now rewrite !at2_set2_other.
  - split; [intros; now apply dims_set2 |].
    intros a b Hab. now rewrite at2_set2_other.
  - split; [intros; now apply dims_set2 |].
    intros a b Hab. now rewrite at2_set2_other.
Qed.

(** With the bound, the cell it assigns is not below the floor. *)
Lemma update_rate_floor (Nij : Stat (list (list T)))
    (TauI : Stat (list T)) i j (Qm Qm' : list (list T)) n :
  ltb lit_1e_10 lit_1e_10 = false ->
  dims n n Qm -> (i < n)%nat -> (j < n)%nat ->
  outcome (update_rate true Nij TauI i j Qm) = Ok Qm' ->
  ltb (at2 Qm' i j) lit_1e_10 = false.
Proof.
  intros Hlit Hd Hi Hj. unfold update_rate. intros Hrun.
  apply outcome_bind_Ok in Hrun as (nij & _ & Hrun).
  apply outcome_bind_Ok in Hrun as (taui & _ & Hrun).
  apply outcome_bind_Ok in Hrun as (u & _ & Hrun).
  apply outcome_ret in Hrun. subst Qm'.
  destruct (ltb (at2 (set2 Qm i j (div nij taui)) i j) lit_1e_10) eqn:E;
    [| exact E].
  rewrite at2_set2_same; [exact Hlit | |].
  - unfold set2. rewrite Loops.length_set_nth. destruct Hd as [-> _].
    exact Hi.
  - rewrite (dims_row n n _ i (dims_set2 n n Qm i j _ Hd) Hi). exact Hj.
Qed.

Section FirstLoop.
Variables (self : @Learner T) (Nij : Stat (list (list T)))
          (TauI : Stat (list T)) (n : nat).

Local Abbreviation inner i :=
  (fun j Qm =>
     if eqb (at2 (Q_struct self) i j) one
     then update_rate (bound self) Nij TauI i j Qm
     else ret Qm).
Local Abbreviation outer :=
  (fun i Qm => for_each (seq 0 n) (inner i) Qm).

Lemma inner_dims i j Qm Qm' :
  dims n n Qm -> outcome (inner i j Qm) = Ok Qm' -> dims n n Qm'.
Proof.
  intros Hd. cbv beta. destruct (eqb (at2 (Q_struct self) i j) one).
  - intros Hrun. now apply (update_rate_frame _ _ _ _ _ _ _ n Hrun).
  - intros Hrun. apply outcome_ret in Hrun. now subst.
Qed.

Lemma outer_dims i Qm Qm' :
  dims n n Qm -> outcome (outer i Qm) = Ok Qm' -> dims n n Qm'.
Proof.
  apply (for_each_invariant (dims n n)).
  intros j s s' Hs. now apply inner_dims.
Qed.

Lemma first_loop_dims Q0 Q1 :
  dims n n Q0 -> outcome (for_each (seq 0 n) outer Q0) = Ok Q1 ->
  dims n n Q1.
Proof.
  apply (for_each_invariant (dims n n)).
  intros i s s' Hs. now apply outer_dims.
Qed.

(** Outside the mask nothing is assigned. *)
Lemma first_loop_outside Q0 Q1 a b :
  eqb (at2 (Q_struct self) a b) one = false ->
  outcome (for_each (seq 0 n) outer Q0) = Ok Q1 ->
  at2 Q1 a b = at2 Q0 a b.
Proof.
  intros Hab.
  apply (for_each_invariant (fun Qm => at2 Qm a b = at2 Q0 a b));
    [| reflexivity].
  intros i s s' Hs.
  apply (for_each_invariant (fun Qm => at2 Qm a b = at2 Q0 a b));
    [| exact Hs].
  clear s s' Hs. intros j s s' Hs. cbv beta.
  destruct (eqb (at2 (Q_struct self) i j) one) eqn:E.
  - intros Hrun.
    destruct (update_rate_frame _ _ _ _ _ _ _ n Hrun) as [_ Hother].
    rewrite Hother; [exact Hs |].
    destruct (Nat.eq_dec a i) as [-> | Ha]; [| now left].
    destruct (Nat.eq_dec b j) as [-> | Hb]; [congruence | now right].
  - intros Hrun. apply outcome_ret in Hrun. now subst.
Qed.

(** Inside the mask, with the bound, every rate ends at the floor or
    above. *)
Lemma first_loop_floor Q0 Q1 a b :
  bound self = true -> ltb lit_1e_10 lit_1e_10 = false ->
  dims n n Q0 -> (a < n)%nat -> (b < n)%nat ->
  eqb (at2 (Q_struct self) a b) one = true ->
  outcome (for_each (seq 0 n) outer Q0) = Ok Q1 ->
  ltb (at2 Q1 a b) lit_1e_10 = false.
Proof.
  intros Hb Hlit Hd Ha Hbn Hab.
  assert (Hcell : forall i j s s',
            dims n n s -> ltb (at2 s a b) lit_1e_10 = false ->
            outcome (inner i j s) = Ok s' ->
            ltb (at2 s' a b) lit_1e_10 = false).
  { intros i j s s' Hs HJ. cbv beta.
    destruct (eqb (at2 (Q_struct self) i j) one) eqn:E.
    - intros Hrun.
      destruct (Nat.eq_dec a i) as [-> | Hai];
        [destruct (Nat.eq_dec b j) as [-> | Hbj] |].
      + rewrite Hb in Hrun.
        exact (update_rate_floor _ _ _ _ _ _ n Hlit Hs Ha Hbn Hrun).
      + destruct (update_rate_frame _ _ _ _ _ _ _ n Hrun) as [_ Hother].
        rewrite Hother; [exact HJ | now right].
      + destruct (update_rate_frame _ _ _ _ _ _ _ n Hrun) as [_ Hother].
        rewrite Hother; [exact HJ | now left].
    - intros Hrun. apply outcome_ret in Hrun. now subst. }
  apply (for_each_visit (dims n n)
           (fun Qm => ltb (at2 Qm a b) lit_1e_10 = false) outer
           (seq 0 n) a); [apply in_seq; lia | | | | exact Hd].
  - intros i s s' Hs. now apply outer_dims.
  - intros s s' Hs.
    apply (for_each_visit (dims n n)
             (fun Qm => ltb (at2 Qm a b) lit_1e_10 = false) (inner a)
             (seq 0 n) b); [apply in_seq; lia | | | | exact Hs].
    + intros j s0 s0' Hs0. now apply inner_dims.
    + intros s0 s0' Hs0. cbv beta. rewrite Hab, Hb. intros Hrun.
      exact (update_rate_floor _ _ _ _ _ _ n Hlit Hs0 Ha Hbn Hrun).
    + intros j s0 s0' Hs0 HJ. now apply Hcell.
  - intros i s s' Hs HJ Hrun.
    assert (HIJ : dims n n s' /\ ltb (at2 s' a b) lit_1e_10 = false);
      [| tauto].
    revert Hrun.
    apply (for_each_invariant
             (fun Qm => dims n n Qm /\
                        ltb (at2 Qm a b) lit_1e_10 = false));
      [| now split].
    intros j s0 s0' [Hs0 HJ0] Hrun. split.
    + now apply (inner_dims i j s0).
    + now apply (Hcell i j s0).
Qed.

End FirstLoop.

(** The second loop writes the diagonal only. *)
Lemma second_loop_off_diagonal n us um mun mud sn sd
    (Qm : list (list T)) a b :
  a <> b ->
  at2 (fst (fst (second_loop n us um mun mud sn sd Qm))) a b = at2 Qm a b.
Proof.
  intros Hab. unfold second_loop.
  apply (Mask.fold_left_invariant
           (fun st : list (list T) * list T * list T =>
              at2 (fst (fst st)) a b = at2 Qm a b)); [reflexivity |].
  intros [[Q1 l1] l2] i _ Hst. cbn [fst] in *.
  rewrite !at2_set2_other; [exact Hst | |];
    (destruct (Nat.eq_dec a i) as [-> | Ha]; [right; congruence | now left]).
Qed.

End Rates.
End MStepFacts.

Module Generator.
Import Sums Loops Cells.
Local Open Scope R_scope.

Lemma np_sum_cons (x : R) (l : list R) : np_sum (x :: l) = x + np_sum l.
Proof.
  unfold np_sum. cbn [fold_left].
  change (add zero x) with (0 + x).
  rewrite fold_left_Rplus_acc.
  change (fold_left add l zero) with (fold_left Rplus l 0). lra.
Qed.

Lemma np_sum_set1 (r : list R) i v :
  (i < length r)%nat -> np_sum (set1 r i v) = np_sum r - at1 r i + v.
Proof.
  unfold set1, at1. revert i.
  induction r as [| x r IH]; intros [| i] Hi; cbn in Hi; try lia.
  - cbn [set_nth nth]. rewrite !np_sum_cons. lra.
  - cbn [set_nth nth]. rewrite !np_sum_cons, IH by lia. lra.
Qed.

Lemma row_set2_same (a : list (list R)) i j x :
  (i < length a)%nat -> row (set2 a i j x) i = set1 (row a i) j x.
Proof.
  intros Hi. unfold row at 1, set2. rewrite nth_set_nth by assumption.
  now rewrite Nat.eqb_refl.
Qed.

Lemma row_set2_other (a : list (list R)) i j x k :
  k <> i -> row (set2 a i j x) k = row a k.
Proof. intros Hk. unfold row, set2. now apply nth_set_nth_other. Qed.

(** The assignments to [Q[i,i]] of the second loop leave a row that sums
    to zero. *)
Lemma diagonal_step n (Qm : list (list R)) i :
  shape n n Qm -> (i < n)%nat ->
  let Q1 := set2 Qm i i 0 in
  let Q2 := set2 Q1 i i (- np_sum (row Q1 i)) in
  shape n n Q2 /\ np_sum (row Q2 i) = 0 /\
  forall k, k <> i -> row Q2 k = row Qm k.
Proof.
  intros Hs Hi Q1 Q2.
  assert (Hs1 : shape n n Q1) by now apply shape_set2.
  assert (Hs2 : shape n n Q2) by now apply shape_set2.
  split; [exact Hs2 |]. split.
  - subst Q2. rewrite row_set2_same
      by (destruct Hs1 as [Hl _]; unfold vec in *; lia).
    rewrite np_sum_set1 by (rewrite (shape_row n n Q1 i Hs1 Hi); lia).
    subst Q1. rewrite row_set2_same
      by (destruct Hs as [Hl _]; unfold vec in *; lia).
    rewrite at1_set1 by (rewrite (shape_row n n Qm i Hs Hi); lia).
    rewrite Nat.eqb_refl. lra.
  - intros k Hk. subst Q2 Q1. now rewrite !row_set2_other.
Qed.

Lemma second_loop_rows n us um mun mud sn sd (Qm : list (list R)) :
  shape n n Qm ->
  forall i, (i < n)%nat ->
    np_sum (row (fst (fst (second_loop n us um mun mud sn sd Qm))) i) = 0.
Proof.
  intros Hs i Hi. unfold second_loop.
  match goal with
  | |- context [fold_left ?f _ _] => set (step := f)
  end.
  assert (Hstep : forall Q0 l1 l2 x,
            fst (fst (step (Q0, l1, l2) x))
            = set2 (set2 Q0 x x 0) x x (- np_sum (row (set2 Q0 x x 0) x)))
    by reflexivity.
  assert (Hgen : forall l (st : list (list R) * list R * list R),
            shape n n (fst (fst st)) -> (forall k, In k l -> (k < n)%nat) ->
            shape n n (fst (fst (fold_left step l st))) /\
            (forall k, In k l ->
               np_sum (row (fst (fst (fold_left step l st))) k) = 0) /\
            (forall k, ~ In k l ->
               row (fst (fst (fold_left step l st))) k
               = row (fst (fst st)) k)).
  { clearbody step.
    induction l as [| x l IH]; intros [[Q0 l1] l2] Hs0 Hl; cbn [fold_left].
    - cbn [fst]. split; [exact Hs0 |]. split; [intros k [] | reflexivity].
    - cbn [fst] in Hs0.
      destruct (diagonal_step n Q0 x Hs0 (Hl x (or_introl eq_refl)))
        as (Hs2 & Hsum & Hrest).
      cbv zeta in Hs2, Hsum, Hrest.
      rewrite <- (Hstep Q0 l1 l2 x) in Hs2, Hsum, Hrest.
      destruct (IH (step (Q0, l1, l2) x) Hs2
                  (fun k Hk => Hl k (or_intror Hk)))
        as (HsF & HsumF & HrestF).
      split; [exact HsF |]. split.
      + intros k [<- | Hk]; [| now apply HsumF].
        destruct (in_dec Nat.eq_dec x l) as [Hin | Hnin];
          [now apply HsumF |].
        rewrite (HrestF x Hnin). exact Hsum.
      + intros k Hk. rewrite HrestF by (intros F; apply Hk; now right).
        cbn [fst]. apply Hrest. intros ->. apply Hk. now left. }
  destruct (Hgen (seq 0 n) (Qm, [], []) Hs
              (fun k Hk => proj2 (proj1 (in_seq _ _ _) Hk)))
    as (_ & Hsum & _).
  apply Hsum, in_seq. lia.
Qed.

End Generator.

(** The M-step never changes a rate off the diagonal where the mask is
    not 1: transitions that the structure forbids keep the rate they
    had. *)
Theorem M_step_keeps_rates_outside_the_mask :
  forall (T : Type) (NT : Numeric T) (self s' : @Learner T)
         (Nij : Stat (list (list T))) (TauI : Stat (list T))
         (mun mud p0n p0d sn sd : list T) (us um : bool) (i j : nat),
    outcome (update_model_params self Nij TauI mun mud p0n p0d sn sd us um)
    = Ok s' ->
    i <> j -> eqb (at2 (Q_struct self) i j) one = false ->
    at2 (Q s') i j = at2 (Q self) i j.
Proof.
  intros T NT self s' Nij TauI mun mud p0n p0d sn sd us um i j Hrun Hij Hm.
  unfold update_model_params in Hrun.
  apply outcome_bind_Ok in Hrun as (Q1 & HQ1 & Hrun).
  destruct (second_loop (num_state self) us um mun mud sn sd Q1)
    as [[Q2 l1] l2] eqn:E.
  apply outcome_ret in Hrun. subst s'. cbn [Q set_params].
  pose proof (MStepFacts.second_loop_off_diagonal (num_state self) us um
                mun mud sn sd Q1 i j Hij) as H2.
  rewrite E in H2. cbn [fst] in H2. rewrite H2.
  exact (MStepFacts.first_loop_outside self Nij TauI (num_state self)
           (Q self) Q1 i j Hm HQ1).
Qed.

Lemma M_step_outside_witness :
  exists s',
    outcome (update_model_params MoreInputs.learner_forward
               (SArr MoreInputs.Nij_small) (SArr MoreInputs.TauI_ones)
               [0; 0]%float [0; 0]%float [1; 1]%float [2; 2]%float
               [0; 0]%float [0; 0]%float false false) = Ok s' /\
    at2 (Q s') 1 0 = at2 (Q MoreInputs.learner_forward) 1 0.
Proof.
  eexists. split; [vm_compute; reflexivity |].
  apply (M_step_keeps_rates_outside_the_mask float _
           MoreInputs.learner_forward _
           (SArr MoreInputs.Nij_small) (SArr MoreInputs.TauI_ones)
           [0; 0]%float [0; 0]%float [1; 1]%float [2; 2]%float
           [0; 0]%float [0; 0]%float false false 1 0).
  - vm_compute. reflexivity.
  - lia.
  - vm_compute. reflexivity.
Defined.

(** With [bound] set, after the M-step no rate off the diagonal where the
    mask is 1 compares below the floor 1e-10 (a NaN does not compare
    below it either). *)
Theorem M_step_floors_rates_inside_the_mask :
  forall (T : Type) (NT : Numeric T) (self s' : @Learner T)
         (Nij : Stat (list (list T))) (TauI : Stat (list T))
         (mun mud p0n p0d sn sd : list T) (us um : bool) (n i j : nat),
    ltb lit_1e_10 lit_1e_10 = false ->
    bound self = true -> num_state self = n -> dims n n (Q self) ->
    outcome (update_model_params self Nij TauI mun mud p0n p0d sn sd us um)
    = Ok s' ->
    (i < n)%nat -> (j < n)%nat -> i <> j ->
    eqb (at2 (Q_struct self) i j) one = true ->
    ltb (at2 (Q s') i j) lit_1e_10 = false.
Proof.
  intros T NT self s' Nij TauI mun mud p0n p0d sn sd us um n i j Hlit Hb Hn
    Hd Hrun Hi Hj Hij Hm.
  unfold update_model_params in Hrun. rewrite Hn in Hrun.
  apply outcome_bind_Ok in Hrun as (Q1 & HQ1 & Hrun).
  destruct (second_loop n us um mun mud sn sd Q1) as [[Q2 l1] l2] eqn:E.
  apply outcome_ret in Hrun. subst s'. cbn [Q set_params].
  pose proof (MStepFacts.second_loop_off_diagonal n us um
                mun mud sn sd Q1 i j Hij) as H2.
  rewrite E in H2. cbn [fst] in H2. rewrite H2.
  exact (MStepFacts.first_loop_floor self Nij TauI n (Q self) Q1 i j
           Hb Hlit Hd Hi Hj Hm HQ1).
Qed.

Lemma M_step_floor_witness :
  exists s',
    outcome (update_model_params MoreInputs.learner_forward
               (SArr MoreInputs.Nij_small) (SArr MoreInputs.TauI_ones)
               [0; 0]%float [0; 0]%float [1; 1]%float [2; 2]%float
               [0; 0]%float [0; 0]%float false false) = Ok s' /\
    ltb (at2 (Q s') 0 1) lit_1e_10 = false.
Proof.
  eexists. split; [vm_compute; reflexivity |].
  apply (M_step_floors_rates_inside_the_mask float _
           MoreInputs.learner_forward _
           (SArr MoreInputs.Nij_small) (SArr MoreInputs.TauI_ones)
           [0; 0]%float [0; 0]%float [1; 1]%float [2; 2]%float
           [0; 0]%float [0; 0]%float false false 2 0 1).
  - vm_compute. reflexivity.
  - reflexivity.
  - reflexivity.
  - split; [reflexivity |]. intros r [<- | [<- | []]]; reflexivity.
  - vm_compute. reflexivity.
  - lia.
  - lia.
  - lia.
  - vm_compute. reflexivity.
Defined.

(** In exact arithmetic the M-step leaves a generator: every row of the
    new [Q] sums to zero. *)
Theorem M_step_rows_of_Q_sum_to_zero :
  forall (self s' : @Learner R) (Nij : Stat (list (list R)))
         (TauI : Stat (list R)) (mun mud p0n p0d sn sd : list R)
         (us um : bool) (n i : nat),
    num_state self = n -> shape n n (Q self) ->
    outcome (update_model_params self Nij TauI mun mud p0n p0d sn sd us um)
    = Ok s' ->
    (i < n)%nat -> np_sum (row (Q s') i) = 0%R.
Proof.
  intros self s' Nij TauI mun mud p0n p0d sn sd us um n i Hn Hs Hrun Hi.
  unfold update_model_params in Hrun. rewrite Hn in Hrun.
  apply outcome_bind_Ok in Hrun as (Q1 & HQ1 & Hrun).
  destruct (second_loop n us um mun mud sn sd Q1) as [[Q2 l1] l2] eqn:E.
  apply outcome_ret in Hrun. subst s'. cbn [Q set_params].
  pose proof (Generator.second_loop_rows n us um mun mud sn sd Q1) as H2.
  rewrite E in H2. cbn [fst] in H2. apply H2; [| exact Hi].
  exact (MStepFacts.first_loop_dims self Nij TauI n (Q self) Q1 Hs HQ1).
Qed.

Lemma M_step_rows_witness :
  exists s',
    outcome (update_model_params (Inputs.learner_two_cached "expm")
               (SArr Inputs.Nij_expm_two) (SArr Inputs.TauI_two)
               [0; 0]%R [0; 0]%R [/ 2; / 2]%R [1; 1]%R [0; 0]%R [0; 0]%R
               false false) = Ok s' /\
    np_sum (row (Q s') 1) = 0%R.
Proof.
  destruct (@update_model_params_arrays_total R _
              (Inputs.learner_two_cached "expm")
              Inputs.Nij_expm_two Inputs.TauI_two
              [0; 0]%R [0; 0]%R [/ 2; / 2]%R [1; 1]%R [0; 0]%R [0; 0]%R
              false false) as [s' Hs'].
  exists s'. split; [exact Hs' |].
  apply (M_step_rows_of_Q_sum_to_zero (Inputs.learner_two_cached "expm") s'
           (SArr Inputs.Nij_expm_two) (SArr Inputs.TauI_two)
           [0; 0]%R [0; 0]%R [/ 2; / 2]%R [1; 1]%R [0; 0]%R [0; 0]%R
           false false 2 1).
  - reflexivity.
  - apply TwoStateContracts.shape_two.
  - exact Hs'.
  - lia.
Defined.

(** ** The log-likelihood and the E-step *)

(** [calculate_log_likelihood] reads the scaling factors [C] that the
    forward pass stores: it returns when every patient has them, and
    raises [AttributeError] as soon as one patient has not been through a
    forward pass. *)
Theorem log_likelihood_needs_the_forward_pass :
  forall (T : Type) (NT : Numeric T) (lib : NumLib T) (self : @Learner T),
    (Forall (fun p => C p <> None) (patients self) ->
     exists ll, outcome (calculate_log_likelihood lib self) = Ok ll) /\
    (Exists (fun p => C p = None) (patients self) ->
     outcome (calculate_log_likelihood lib self)
     = Raise (AttributeError "C")).
Proof.
  intros T NT lib self. unfold calculate_log_likelihood.
  generalize (@zero T NT) as acc. generalize (patients self) as ps.
  induction ps as [| p ps IH]; intros acc; split.
  - intros _. exists acc. reflexivity.
  - intros F. inversion F.
  - intros F. inversion F as [| ? ? Hp Hps]; subst. cbn [for_each].
    destruct (C p) as [c |] eqn:E; [| congruence].
    cbn [getattr]. rewrite !bind_ret_l. now apply IH.
  - intros F. cbn [for_each].
    destruct (C p) as [c |] eqn:E.
    + cbn [getattr]. rewrite !bind_ret_l. apply IH.
      inversion F; subst; [congruence | assumption].
    + reflexivity.
Qed.

Lemma log_likelihood_witness :
  outcome (calculate_log_likelihood Exact.lib (Inputs.learner_two "expm"))
  = Raise (AttributeError "C").
Proof.
  apply (proj2 (log_likelihood_needs_the_forward_pass R _ Exact.lib
                  (Inputs.learner_two "expm"))).
  left. reflexivity.
Defined.

(** The E-step changes the caches and the tables of the patients only:
    the model parameters are the ones it started from, and it hands back
    as many patients as it was given. *)
Theorem E_step_keeps_the_model :
  forall (T : Type) (NT : Numeric T) (lib : NumLib T) (self s : @Learner T)
         (fast_eigen : bool) (a : @Accum T),
    outcome (E_step lib self fast_eigen) = Ok (s, a) ->
    same_model self s /\ length (patients s) = length (patients self).
Proof.
  intros T NT lib self s fast_eigen a Hrun.
  split; [exact (proj1 (E_step_accum lib self fast_eigen Hrun)) |].
  unfold E_step in Hrun.
  apply outcome_bind_Ok in Hrun as (s1 & H1 & Hrun).
  apply outcome_bind_Ok in Hrun as (s2 & H2 & Hrun).
  apply outcome_bind_Ok in Hrun as (pa & Hpa & Hrun).
  apply outcome_ret in Hrun. injection Hrun as <- <-.
  cbn [patients set_patients].
  assert (Hps : patients s2 = patients self).
  { apply outcome_matrix_exponentials in H1 as (ex & ->).
    revert H2. unfold set_eigendecomposition.
    cbn [Q set_caches]. destruct (eig lib (Q self)) as [dv u].
    match goal with
    | |- outcome (if ?c then _ else _) = _ -> _ => destruct c
    end.
    - unfold Eigen_all_end_state_conditioned. intros H2.
      apply outcome_bind_Ok in H2 as (tis & _ & H2). revert H2.
      apply (for_each_invariant
               (fun s0 : @Learner T => patients s0 = patients self));
        [| reflexivity].
      intros t s0 s0' Hs0.
      apply (for_each_invariant
               (fun s0 : @Learner T => patients s0 = patients self));
        [| exact Hs0].
      intros i s4 s4' Hs4 Hstep.
      apply outcome_bind_Ok in Hstep as (s3 & H3 & _).
      unfold Eigen_TauI_time_interval_end_state in H3.
      apply outcome_bind_Ok in H3 as (vm & _ & H3).
      apply outcome_bind_Ok in H3 as (um & _ & H3).
      apply outcome_bind_Ok in H3 as (u0 & _ & H3). discriminate.
    - intros H2. apply outcome_ret in H2. now subst s2. }
  rewrite <- Hps. revert Hpa.
  generalize (initial_accum (T := T) (num_state self)) as a0.
  assert (Hgen : forall ps (done : list (@Patient T)) a0 pa,
            outcome (for_each ps
                       (fun patient '(done, a) =>
                          r <- EM_patient lib s2 fast_eigen patient a ;;
                          ret (done ++ [fst r], snd r))
                       (done, a0)) = Ok pa ->
            length (fst pa) = (length done + length ps)%nat).
  { induction ps as [| p ps IH]; intros done a0 pa0 Hrun.
    - apply outcome_ret in Hrun. subst pa0. cbn. lia.
    - cbn [for_each] in Hrun.
      apply outcome_bind_Ok in Hrun as (st & Hst & Hrun).
      apply outcome_bind_Ok in Hst as (r & _ & Hst).
      apply outcome_ret in Hst. subst st.
      rewrite (IH _ _ _ Hrun), length_app. cbn. lia. }
  intros a0 Hpa. now rewrite (Hgen _ _ _ _ Hpa).
Qed.

Lemma E_step_witness :
  same_model (Inputs.learner_two "expm")
    (set_patients (Inputs.learner_two_cached "expm")
       [Inputs.patient_two_done]) /\
  length (patients (set_patients (Inputs.learner_two_cached "expm")
                      [Inputs.patient_two_done]))
  = length (patients (Inputs.learner_two "expm")).
Proof.
  apply (E_step_keeps_the_model R _ Exact.lib (Inputs.learner_two "expm")
           _ true
           (Inputs.accum_two (fst (Inputs.stats_two "expm"))
              (snd (Inputs.stats_two "expm")))).
  rewrite TwoState.E_step_two. reflexivity.
Defined.

(** ** Decoding and prediction *)

Module Decoding.
Section Loop.
Context {T : Type} `{Numeric T} (lib : NumLib T)
        (np_arange : T -> T -> M (list T)).

(** While the test of the loop holds the loop does not return a value:
    it raises or it is still running. *)
Lemma viterbi_loop_stuck self learner curr_time :
  leb curr_time (end_time self) = true ->
  forall fuel st log r,
    viterbi_loop lib fuel self learner curr_time st <> Some (log, Ok r).
Proof.
  intros Hle. induction fuel as [| fuel IH]; intros st log r; cbn.
  - rewrite Hle. discriminate.
  - rewrite Hle.
    destruct (viterbi_pass lib self learner curr_time st) as [l [st' | e]];
      [| discriminate].
    destruct (viterbi_loop lib fuel self learner curr_time st')
      as [[l' [st'' | e]] |] eqn:E; try discriminate.
    exfalso. exact (IH st' l' st'' E).
Qed.

Lemma viterbi_loop_skipped self learner curr_time :
  leb curr_time (end_time self) = false ->
  forall fuel st,
    viterbi_loop lib fuel self learner curr_time st = Some (ret st).
Proof. intros Hle [| fuel] st; cbn; now rewrite Hle. Qed.

Lemma viterbi_start_value self learner curr_time st times :
  outcome (viterbi_start lib np_arange self learner)
  = Ok (curr_time, st, times) ->
  (exists rest, observation_times self = Some (curr_time :: rest)) /\
  snd st = repeat [] (num_state learner).
Proof.
  unfold viterbi_start. intros Hrun.
  apply outcome_bind_Ok in Hrun as (ot & Hot & Hrun).
  apply outcome_bind_Ok in Hrun as (ct & Hct & Hrun).
  apply outcome_bind_Ok in Hrun as (obs & _ & Hrun).
  apply outcome_bind_Ok in Hrun as (o0 & _ & Hrun).
  apply outcome_bind_Ok in Hrun as (ge & _ & Hrun).
  apply outcome_bind_Ok in Hrun as (em & _ & Hrun).
  apply outcome_bind_Ok in Hrun as (last & _ & Hrun).
  apply outcome_bind_Ok in Hrun as (tm & _ & Hrun).
  apply outcome_ret in Hrun. injection Hrun as <- <- <-.
  apply outcome_getattr in Hot. apply Gaps.outcome_index in Hct.
  split; [| reflexivity].
  destruct ot as [| t0 rest]; [discriminate |].
  cbn in Hct. injection Hct as ->. now exists rest.
Qed.

Lemma for_each_total_In {A S} (body : A -> S -> M S) xs :
  (forall x s, In x xs -> exists s', outcome (body x s) = Ok s') ->
  forall s, exists s', outcome (for_each xs body s) = Ok s'.
Proof.
  induction xs as [| x xs IH]; intros Hbody s; cbn [for_each]; [now exists s |].
  destruct (Hbody x s (or_introl eq_refl)) as [s1 E1].
  destruct (IH (fun y t Hy => Hbody y t (or_intror Hy)) s1) as [s2 E2].
  exists s2. now rewrite (outcome_bind_intro _ _ E1).
Qed.

Lemma bind_total {A B} (m : M A) (k : A -> M B) a :
  outcome m = Ok a -> (exists b, outcome (k a) = Ok b) ->
  exists b, outcome (bind m k) = Ok b.
Proof.
  intros Hm [b Hb]. exists b. now rewrite (outcome_bind_intro _ _ Hm).
Qed.

Lemma index_total {A} what (l : list A) i :
  (i < length l)%nat -> exists x, index what l i = ret x.
Proof.
  intros Hi. unfold index.
  destruct (nth_error l i) as [x |] eqn:E; [now exists x |].
  apply nth_error_None in E. lia.
Qed.

Lemma index2_total what (a : list (list T)) n i j :
  dims n n a -> (i < n)%nat -> (j < n)%nat ->
  exists x, index2 what a i j = ret x.
Proof.
  intros [Hn Hm] Hi Hj. unfold index2.
  destruct (index_total what a i) as [r Hr]; [lia |].
  rewrite Hr, bind_ret_l. apply index_total.
  unfold index in Hr. destruct (nth_error a i) as [r' |] eqn:E;
    [| discriminate].
  injection Hr as <-. apply nth_error_In in E. rewrite (Hm r' E). exact Hj.
Qed.

(** After a start that returned, with an n x n [Q], every pass through
    the body of the loop returns. *)
Lemma viterbi_pass_total self learner curr_time st0 times n :
  outcome (viterbi_start lib np_arange self learner)
  = Ok (curr_time, st0, times) ->
  num_state learner = n -> dims n n (Q learner) ->
  forall st, exists st',
    outcome (viterbi_pass lib self learner curr_time st) = Ok st'.
Proof.
  unfold viterbi_start. intros Hrun Hn Hd st.
  apply outcome_bind_Ok in Hrun as (ot & Hot & Hrun).
  apply outcome_bind_Ok in Hrun as (ct & Hct & Hrun).
  apply outcome_bind_Ok in Hrun as (obs & Hobs & Hrun).
  apply outcome_bind_Ok in Hrun as (o0 & Ho0 & Hrun).
  apply outcome_bind_Ok in Hrun as (ge & Hge & Hrun).
  apply outcome_bind_Ok in Hrun as (em & Hem & Hrun).
  apply outcome_bind_Ok in Hrun as (last & _ & Hrun).
  apply outcome_bind_Ok in Hrun as (tm & _ & Hrun).
  apply outcome_ret in Hrun. injection Hrun as -> _ _.
  apply outcome_getattr in Hot, Hobs.
  pose proof (Gaps.outcome_index _ _ _ _ Hct) as Hct'.
  pose proof (Gaps.outcome_index _ _ _ _ Ho0) as Ho0'.
  destruct ot as [| t0 rest]; [discriminate |].
  cbn in Hct'. injection Hct' as ->.
  assert (Hge_i : forall i, (i < n)%nat -> (i < length ge)%nat).
  { intros i Hi.
    destruct (Loops.for_each_all_ok _ _ _ _ Hem i) as (s1 & s2 & Hstep);
      [rewrite Hn; apply in_seq; lia |].
    destruct s1 as [e1 m1].
    apply outcome_bind_Ok in Hstep as (p0 & _ & Hstep).
    apply outcome_bind_Ok in Hstep as (e & He & _).
    apply Gaps.outcome_index in He.
    apply nth_error_Some. congruence. }
  unfold viterbi_pass. rewrite Hot, Hobs. cbn [getattr].
  rewrite bind_ret_l.
  unfold find_time. cbn [enumerate length seq combine find matches_time
                         fst Nat.eqb orb option_map].
  rewrite bind_ret_l.
  unfold index at 1. rewrite Ho0'. rewrite bind_ret_l.
  apply (bind_total _ _ (Some ge));
    [now rewrite (outcome_bind_intro _ _ Hge) |].
  rewrite Hn. apply for_each_total_In.
  intros state_t [[enter miu] path] Hst. apply in_seq in Hst.
  match goal with
  | |- exists b, outcome (bind (for_each _ ?body ?acc) _) = Ok b =>
      assert (Htemp : exists temp,
                outcome (for_each (seq 0 n) body acc) = Ok temp)
  end.
  { apply for_each_total_In. intros s' acc Hs'. apply in_seq in Hs'.
    destruct (index2_total "Q[state_t_minus_1, state_t_minus_1]"
                (Q learner) n s' s' Hd) as [q Hq]; [lia | lia |].
    rewrite Hq, bind_ret_l.
    destruct (index_total "gaussian_emissions[state_t]" ge state_t)
      as [e He]; [apply Hge_i; lia |].
    destruct (Nat.eqb state_t s').
    - rewrite bind_ret_l, He, bind_ret_l. eexists. reflexivity.
    - destruct (index2_total "Q[state_t_minus_1, state_t]"
                  (Q learner) n s' state_t Hd) as [q' Hq']; [lia | lia |].
      rewrite Hq', !bind_ret_l, He, bind_ret_l. eexists. reflexivity. }
  destruct Htemp as [temp Ht].
  apply (bind_total _ _ temp Ht). eexists. reflexivity.
Qed.

Lemma viterbi_loop_runs_on self learner curr_time :
  leb curr_time (end_time self) = true ->
  (forall st, exists st',
      outcome (viterbi_pass lib self learner curr_time st) = Ok st') ->
  forall fuel st, viterbi_loop lib fuel self learner curr_time st = None.
Proof.
  intros Hle Hpass. induction fuel as [| fuel IH]; intros st; cbn;
    rewrite Hle; [reflexivity |].
  destruct (Hpass st) as [st' Hst'].
  destruct (viterbi_pass lib self learner curr_time st) as [l [st1 | e]];
    [| discriminate].
  now rewrite IH.
Qed.

End Loop.
End Decoding.

(** [viterbi_decoding] returns only when the first observation time does
    not compare [<=] to [end_time], and then every path it returns is
    empty: the loop [while curr_time <= self.end_time] never assigns
    [curr_time], so when its test holds once it holds forever, and the
    call raises or does not terminate. *)
Theorem viterbi_decoding_returns_only_empty_paths :
  forall (T : Type) (NT : Numeric T) (lib : NumLib T)
         (np_arange : T -> T -> M (list T)) (fuel : nat)
         (self : @Patient T) (ct_hmm_learner : @Learner T)
         (log : list Event) (r : list (list nat) * list T),
    viterbi_decoding lib np_arange fuel self ct_hmm_learner
    = Some (log, Ok r) ->
    (exists curr_time rest,
       observation_times self = Some (curr_time :: rest) /\
       leb curr_time (end_time self) = false) /\
    fst r = repeat [] (num_state ct_hmm_learner).
Proof.
  intros T NT lib np_arange fuel self learner log r.
  unfold viterbi_decoding.
  destruct (viterbi_start lib np_arange self learner)
    as [l0 [[[ct st] times] | e]] eqn:Es; [| discriminate].
  assert (Hs : outcome (viterbi_start lib np_arange self learner)
               = Ok (ct, st, times)) by now rewrite Es.
  destruct (Decoding.viterbi_start_value lib np_arange _ _ _ _ _ Hs)
    as [[rest Hot] Hpath].
  destruct (leb ct (end_time self)) eqn:Hle.
  - destruct (viterbi_loop lib fuel self learner ct st)
      as [[l' [st' | e]] |] eqn:E; try discriminate.
    exfalso. exact (Decoding.viterbi_loop_stuck lib _ _ _ Hle _ _ _ _ E).
  - rewrite (Decoding.viterbi_loop_skipped lib _ _ _ Hle).
    cbn. intros E. injection E as _ <-. cbn [fst].
    split; [exists ct, rest; auto | exact Hpath].
Qed.

Lemma viterbi_decoding_witness :
  (exists curr_time rest,
     observation_times
       {| end_time := 10%float; censored := false;
          observation_times := Some [11%float]; num_obs := Some 1%nat;
          O := Some [ObsScalar 1%float];
          emissions := None; Alpha := None; C := None; Beta := None |}
     = Some (curr_time :: rest) /\
     leb curr_time 10%float = false) /\
  fst ([[]; []], [] : list float)
  = repeat ([] : list nat) (num_state Inputs.learner_flat).
Proof.
  apply (viterbi_decoding_returns_only_empty_paths float _ Binary64.lib
           arange_unit 0
           {| end_time := 10%float; censored := false;
              observation_times := Some [11%float]; num_obs := Some 1%nat;
              O := Some [ObsScalar 1%float];
              emissions := None; Alpha := None; C := None; Beta := None |}
           Inputs.learner_flat []).
  vm_compute. reflexivity.
Defined.

(** When the first observation time compares [<=] to [end_time], the
    part before the loop returns and [Q] is n x n, [viterbi_decoding] does
    not terminate: every pass returns and the test holds again. *)
Theorem viterbi_decoding_does_not_terminate :
  forall (T : Type) (NT : Numeric T) (lib : NumLib T)
         (np_arange : T -> T -> M (list T))
         (self : @Patient T) (ct_hmm_learner : @Learner T)
         (curr_time : T) (st : Trellis) (times : list T) (n : nat),
    outcome (viterbi_start lib np_arange self ct_hmm_learner)
    = Ok (curr_time, st, times) ->
    leb curr_time (end_time self) = true ->
    num_state ct_hmm_learner = n -> dims n n (Q ct_hmm_learner) ->
    forall fuel,
      viterbi_decoding lib np_arange fuel self ct_hmm_learner = None.
Proof.
  intros T NT lib np_arange self learner ct st times n Hs Hle Hn Hd fuel.
  pose proof (Decoding.viterbi_pass_total lib np_arange self learner ct st
                times n Hs Hn Hd) as Hpass.
  unfold viterbi_decoding.
  destruct (viterbi_start lib np_arange self learner) as [l0 r0].
  cbn [outcome snd] in Hs. subst r0.
  now rewrite (Decoding.viterbi_loop_runs_on lib self learner ct Hle Hpass).
Qed.

Lemma viterbi_divergence_witness :
  viterbi_decoding Binary64.lib arange_unit 1000
    {| end_time := 10%float; censored := false;
       observation_times := Some [0%float; 1%float];
       num_obs := Some 2%nat;
       O := Some [ObsScalar 1%float; ObsScalar 0%float];
       emissions := None; Alpha := None; C := None; Beta := None |}
    Inputs.learner_flat = None.
Proof.
  eapply (viterbi_decoding_does_not_terminate float _ Binary64.lib
            arange_unit
            {| end_time := 10%float; censored := false;
               observation_times := Some [0%float; 1%float];
               num_obs := Some 2%nat;
               O := Some [ObsScalar 1%float; ObsScalar 0%float];
               emissions := None; Alpha := None; C := None; Beta := None |}
            Inputs.learner_flat 0%float _ _ 2).
  - vm_compute. reflexivity.
  - vm_compute. reflexivity.
  - reflexivity.
  - split; [reflexivity |]. intros r [<- | [<- | []]]; reflexivity.
Defined.

(** [predict] looks up the kernel of the horizon [t - observation_times[-1]]
    like the forward pass does: for a horizon that is not zero and not a
    gap cached in [expm_Q_t] it raises [NameError], whatever
    [predict_observations] is. *)
Theorem predict_raises_NameError_off_the_cached_gaps :
  forall (T : Type) (NT : Numeric T) (Mu : Type)
         (np_array : Params T -> M Mu)
         (np_dot_mu : Mu -> @Predicted T -> M (@Predicted T))
         (self : @Patient T) (t : T) (ct_hmm_learner : @Learner T)
         (predict_observations : bool) (times : list T) (last : T)
         (Al : list (list T)) (alpha_last : list T)
         (d : list (T * list (list T))),
    observation_times self = Some times ->
    nth_error times (length times - 1) = Some last ->
    Alpha self = Some Al ->
    nth_error Al (length Al - 1) = Some alpha_last ->
    expm_Q_t ct_hmm_learner = Some d ->
    dict_get eqb d (sub t last) = None -> eqb (sub t last) zero = false ->
    outcome (predict Mu np_array np_dot_mu self t ct_hmm_learner
               predict_observations)
    = Raise (NameError "Q").
Proof.
  intros T NT Mu np_array np_dot_mu self t learner po times last Al
    alpha_last d Ht Hlast HA Halpha Hd Hmiss Hnz.
  unfold predict. rewrite Ht, HA. cbn [getattr]. rewrite bind_ret_l.
  unfold index. rewrite Hlast, bind_ret_l, bind_ret_l, Halpha, bind_ret_l.
  apply outcome_bind_Raise. unfold get_alpha_vector_None.
  rewrite Hnz. cbn [negb]. apply outcome_bind_Raise.
  unfold kernel_or_expm. rewrite Hd. cbn [getattr].
  rewrite bind_ret_l, Hmiss. apply outcome_bind_Raise. reflexivity.
Qed.

Lemma predict_NameError_witness :
  outcome (predict (Params float) (fun mu : Params float => ret mu)
             (fun (mu : Params float) a => ret a)
             {| end_time := 10%float; censored := false;
                observation_times := Some [0%float; 1%float];
                num_obs := Some 2%nat;
                O := Some [ObsScalar 1%float; ObsScalar 0%float];
                emissions := None;
                Alpha := Some [[0.5; 0.5]; [0.25; 0.75]]%float;
                C := None; Beta := None |}
             3%float
             (set_caches Inputs.learner_flat (Some [1%float])
                (Some [(1%float, [[1; 0]; [0; 1]]%float)])
                None None None None None)
             true)
  = Raise (NameError "Q").
Proof.
  apply (predict_raises_NameError_off_the_cached_gaps float _ _ _ _
           _ 3%float _ true [0%float; 1%float] 1%float
           [[0.5; 0.5]; [0.25; 0.75]]%float [0.25; 0.75]%float
           [(1%float, [[1; 0]; [0; 1]]%float)]).
  - reflexivity.
  - reflexivity.
  - reflexivity.
  - reflexivity.
  - reflexivity.
  - vm_compute. reflexivity.
  - vm_compute. reflexivity.
Defined.

(** At the last observation time itself the horizon is 0, and
    [get_alpha_vector] takes the branch of a first observation with
    [pi0] at its default 0: [predict] returns the number [0 / 0] (NaN in
    binary64), not the last row of [Alpha]. *)
Theorem predict_at_the_last_observation_divides_zero_by_zero :
  forall (T : Type) (NT : Numeric T) (Mu : Type)
         (np_array : Params T -> M Mu)
         (np_dot_mu : Mu -> @Predicted T -> M (@Predicted T))
         (self : @Patient T) (t : T) (ct_hmm_learner : @Learner T)
         (times : list T) (last : T)
         (Al : list (list T)) (alpha_last : list T) (mu : Mu),
    observation_times self = Some times ->
    nth_error times (length times - 1) = Some last ->
    Alpha self = Some Al ->
    nth_error Al (length Al - 1) = Some alpha_last ->
    eqb (sub t last) zero = true ->
    outcome (np_array (ls_mu ct_hmm_learner)) = Ok mu ->
    outcome (predict Mu np_array np_dot_mu self t ct_hmm_learner false)
    = Ok (PScalar (div zero zero)).
Proof.
  intros T NT Mu np_array np_dot_mu self t learner times last Al
    alpha_last mu Ht Hlast HA Halpha Hz Hmu.
  unfold predict. rewrite Ht, HA. cbn [getattr]. rewrite bind_ret_l.
  unfold index. rewrite Hlast, bind_ret_l, bind_ret_l, Halpha, bind_ret_l.
  unfold get_alpha_vector_None. rewrite Hz. cbn [negb].
  rewrite bind_ret_l. cbn [fst].
  rewrite (outcome_bind_intro _ _ Hmu). reflexivity.
Qed.

Lemma predict_zero_horizon_witness :
  outcome (predict (Params float) (fun mu : Params float => ret mu)
             (fun (mu : Params float) a => ret a)
             {| end_time := 10%float; censored := false;
                observation_times := Some [0%float; 1%float];
                num_obs := Some 2%nat;
                O := Some [ObsScalar 1%float; ObsScalar 0%float];
                emissions := None;
                Alpha := Some [[0.5; 0.5]; [0.25; 0.75]]%float;
                C := None; Beta := None |}
             1%float Inputs.learner_flat false)
  = Ok (PScalar (div zero zero)) /\
  isnan (div zero zero : float) = true.
Proof.
  split; [| vm_compute; reflexivity].
  apply (predict_at_the_last_observation_divides_zero_by_zero float _ _ _ _
           _ 1%float _ [0%float; 1%float] 1%float
           [[0.5; 0.5]; [0.25; 0.75]]%float [0.25; 0.75]%float
           (ls_mu Inputs.learner_flat)).
  - reflexivity.
  - reflexivity.
  - reflexivity.
  - reflexivity.
  - vm_compute. reflexivity.
  - reflexivity.
Defined.

(** ** One likelihood per state, and forward variables as probabilities *)

Module Counts.
Import Sums.

Lemma product_lengths {A B} (ls : list (list A)) (ls' : list (list B)) :
  Forall2 (fun m s => length m = length s) ls ls' ->
  length (itertools_product ls) = length (itertools_product ls').
Proof.
  induction 1 as [| l l' ls ls' Hl _ IH]; [reflexivity |].
  rewrite !Mask.length_itertools_product. now rewrite Hl, IH.
Qed.

Local Open Scope R_scope.

Lemma rsum_bounds_term n (f : nat -> R) k :
  (forall i, (i < n)%nat -> 0 <= f i) -> (k < n)%nat -> f k <= rsum n f.
Proof.
  intros Hf. induction n as [| n IH]; intros Hk; [lia |].
  rewrite rsum_S.
  assert (Hn : 0 <= rsum n f) by (apply rsum_nonneg; auto).
  pose proof (Hf n ltac:(lia)) as Hfn.
  destruct (Nat.eq_dec k n) as [-> | Hne]; [lra |].
  assert (f k <= rsum n f) by (apply IH; [auto | lia]). lra.
Qed.

Lemma entry_below_sum (v : list R) k : nonneg_vec v -> at1 v k <= np_sum v.
Proof.
  intros Hv. destruct (Nat.lt_ge_cases k (length v)) as [Hk | Hk].
  - rewrite (np_sum_rsum v (length v)) by lia.
    apply (rsum_bounds_term (length v) (at1 v) k); [| exact Hk].
    intros i _. now apply Signs.nonneg_at1.
  - rewrite at1_overflow by exact Hk. now apply Signs.nonneg_np_sum.
Qed.

End Counts.

(** A model built by the constructor from [ls_sigma] of the shape of
    [ls_mu] gives every observation one likelihood per state:
    [emission_Gaussian] returns, and its list has [num_state] entries. *)
Theorem emission_Gaussian_has_one_entry_per_state :
  forall (T : Type) (NT : Numeric T) (lib : NumLib T)
         (Q : option (list (list T))) (pi0 : list T)
         (ls_mu ls_sigma : list (list T)) (patients : list (@Patient T))
         (structure method : string) (bound : bool) (s : @Learner T)
         (obs : Obs T),
    outcome (CT_HMM_LEARNER_init lib Q pi0 ls_mu ls_sigma patients
               structure method bound) = Ok s ->
    Forall2 (fun m sg => length m = length sg) ls_mu ls_sigma ->
    exists e,
      emission_Gaussian lib s obs = ret e /\ length e = num_state s.
Proof.
  intros T NT lib Q0 p mu_all sigma_all pts structure meth bd s obs.
  unfold CT_HMM_LEARNER_init.
  destruct mu_all as [| mu0 mus]; [discriminate |].
  intros Hrun Hshape.
  apply outcome_bind_Ok in Hrun as (mask & _ & Hrun).
  apply outcome_bind_Ok in Hrun as (u & _ & Hrun).
  apply outcome_ret in Hrun. subst s.
  unfold emission_Gaussian. cbn [num_state ls_mu ls_sigma].
  inversion Hshape as [| m0 sg0 ms sgs Hl0 Hrest]; subst.
  destruct mus as [| mu1 mus'].
  - eexists. split; [reflexivity |].
    rewrite Sums.length_zip_with. cbn [length Nat.eqb]. lia.
  - eexists. split; [reflexivity |].
    rewrite Sums.length_zip_with.
    rewrite <- (Counts.product_lengths (mu0 :: mu1 :: mus') (sg0 :: sgs)
                  Hshape).
    rewrite Nat.min_id, Mask.length_itertools_product.
    cbn [length Nat.eqb]. now rewrite Mask.fold_lengths.
Qed.

Lemma emission_count_witness :
  exists s : @Learner float,
    outcome (CT_HMM_LEARNER_init Binary64.lib None [0.5; 0.5]%float
               [[0; 1]; [0; 1; 2]]%float [[1; 1]; [1; 1; 1]]%float []
               "forward_step"%string "expm"%string true) = Ok s /\
    exists e,
      emission_Gaussian Binary64.lib s (ObsTuple [0; 0]%float) = ret e /\
      length e = num_state s.
Proof.
  eexists. split; [vm_compute; reflexivity |].
  apply (emission_Gaussian_has_one_entry_per_state float _
           Binary64.lib None [0.5; 0.5]%float
           [[0; 1]; [0; 1; 2]]%float [[1; 1]; [1; 1; 1]]%float []
           "forward_step"%string "expm"%string true).
  - vm_compute. reflexivity.
  - repeat constructor.
Defined.


